(** * omise-python: the request/response core of [omise/__init__.py]

    A shallow embedding of the client library's marshalling core: the
    requestor ([Request]), the object factory ([_get_class_for],
    [_as_object]), the change-tracking record ([Base]), the [Collection]
    proxy and the resource bindings, followed by the properties the
    specification states about them.

    Conventions of the embedding.
    - Decoded JSON is the inductive [json]; a Python [dict] with string
      keys is a [gmap string json], a Python [set] of names a
      [gset string], a [list] or [tuple] a Rocq [list].
    - Record instances are mutable and have identity: they live in a heap
      indexed by locations, and a method taking [self] takes a location.
    - Python code runs in the monad [M]: it threads the [world] (module
      settings, heap, and the log of HTTP calls handed to the transport)
      and either returns a value or raises an exception.  Effects made
      before an exception is raised stay in the world, as in Python. *)

From Stdlib Require Import ZArith Ascii String DecimalString.
From stdpp Require Import gmap strings list fin_maps.

Set Warnings "-register-all,-clear-no-such-hyp".
Local Open Scope string_scope.
Local Open Scope list_scope.

(** ** Data *)

(** Values produced by the JSON decoder (and accepted as form fields).
    Numbers are integers: the API counts money in minor units. *)
Inductive json :=
  | JNone
  | JBool (b : bool)
  | JInt (n : Z)
  | JStr (s : string)
  | JList (l : list json)
  | JDict (d : gmap string json).

Global Instance json_inhabited : Inhabited json := populate JNone.

(** The classes of the module.  [Base] is the generic record. *)
Inductive cls :=
  | Base | Account | Balance | Token | Card | Charge | Customer
  | Refund | Transfer | Transaction | Collection.

Global Instance cls_eq_dec : EqDecision cls.
Proof. solve_decision. Defined.

Abbreviation loc := nat (only parsing).

(** What Python code holds after materialization: a plain decoded value,
    a list of such objects, or a reference to a record instance. *)
Inductive pyobj :=
  | Plain (j : json)
  | PyList (l : list pyobj)
  | Ref (l : loc).

(** Exceptions.  [ApiError] stands for the taxonomy of [omise.errors];
    [TransportError] for whatever [requests] or the JSON decoder raise;
    [SystemError] is raised by the embedding where it leaves Python: when
    a method is applied to a location that holds no instance, and in the
    few places marked below. *)
Inductive exn :=
  | AttributeError (args : json)
  | KeyError (key : json)
  | IndexError (msg : string)
  | TypeError (msg : string)
  | ValueError (msg : string)
  | ApiError (code message : json)
  | TransportError (msg : string)
  | SystemError (msg : string).

Inductive outcome (A : Type) :=
  | Return (a : A)
  | Raise (e : exn).
Arguments Return {A} a.
Arguments Raise {A} e.

(** An instance of [Base] or of one of its subclasses.  [_attributes] and
    [_changes] are the two bookkeeping attributes set by [Base.__init__];
    [__dict__] holds any other underscore-named attribute stored on the
    instance itself. *)
Record instance := Instance {
  class_ : cls;
  _attributes : gmap string json;
  _changes : gset string;
  __dict__ : gmap string json
}.

Inductive http_method := GET | POST | PATCH | DELETE.

(** One invocation of [requests.<method>(url, data=, headers=, auth=,
    verify=)]. *)
Record http_call := HttpCall {
  call_method : http_method;
  call_url : string;
  call_data : gmap string json;
  call_headers : gmap string string;
  call_auth : string * option string;
  call_verify : string
}.

(** The world: the two module-level settings, the heap of instances and
    the HTTP calls issued so far (oldest first). *)
Record world := World {
  api_secret : option string;
  api_public : option string;
  heap : gmap loc instance;
  wire : list http_call
}.

(** What the module imports and does not define: the version constant of
    [omise.version], the HTTP transport together with the JSON decoder
    ([requests.<method>(...).json()], given the calls made before this
    one), the interpreter's [repr] of a decoded value, and
    [hex(id(obj))] of an instance. *)
Class Externals := {
  __VERSION__ : string;
  requests : list http_call → http_call → outcome (gmap string json);
  repr : json → string;
  hex_id : loc → string
}.

(** ** The monad of Python computations *)

Definition M (A : Type) : Type := world → outcome A * world.

Definition ret {A} (a : A) : M A := λ w, (Return a, w).
Definition raise {A} (e : exn) : M A := λ w, (Raise e, w).
Definition bind {A B} (m : M A) (k : A → M B) : M B :=
  λ w, match m w with
       | (Return a, w') => k a w'
       | (Raise e, w') => (Raise e, w')
       end.

Declare Scope py_scope.
Delimit Scope py_scope with py.
Notation "x <- m ;; k" := (bind m (λ x, k))
  (at level 100, m at next level, right associativity) : py_scope.
Notation "m ;;; k" := (bind m (λ _, k))
  (at level 100, right associativity) : py_scope.
Local Open Scope py_scope.

(** [try: m except KeyError as e: raise AttributeError( *e.args)] *)
Definition except_KeyError_raise_AttributeError {A} (m : M A) : M A :=
  λ w, match m w with
       | (Raise (KeyError k), w') => (Raise (AttributeError k), w')
       | r => r
       end.

Definition lift {A} (o : outcome A) : M A := λ w, (o, w).

Fixpoint traverse {A B} (f : A → M B) (l : list A) : M (list B) :=
  match l with
  | [] => ret []
  | x :: r => y <- f x ;; ys <- traverse f r ;; ret (y :: ys)
  end.

(** Heap access. *)
Definition alloc (i : instance) : M loc :=
  λ w, let l := fresh (dom (heap w)) in
       (Return l,
        World (api_secret w) (api_public w) (<[l := i]> (heap w)) (wire w)).

Definition deref (self : loc) : M instance :=
  λ w, match heap w !! self with
       | Some i => (Return i, w)
       | None => (Raise (SystemError "no such instance"), w)
       end.

Definition assign (self : loc) (i : instance) : M unit :=
  λ w, (Return tt,
        World (api_secret w) (api_public w) (<[self := i]> (heap w)) (wire w)).

(** [d[key]] on a dict. *)
Definition getitem (d : gmap string json) (key : string) : M json :=
  match d !! key with
  | Some v => ret v
  | None => raise (KeyError (JStr key))
  end.

(** ** The change-tracking record: class [Base]

    The methods of [Base] are inherited unchanged by every class of the
    module, so they are stated once, at top level, under their own names;
    [self] is the location of the instance. *)

(** [Base.__init__], run by [cls()]: a new instance with an empty field
    mapping and an empty set of changes. *)
Definition __init__ (cls_ : cls) : M loc :=
  alloc (Instance cls_ ∅ ∅ ∅).

(** [Base.__setattr__].  [key[0]] raises on the empty name; a name that
    starts with an underscore goes to [object.__setattr__]; any other
    name is added to [_changes] and written to [_attributes].

    [object.__setattr__] stores the value on the instance itself, except
    under the three names that [object] guards with a data descriptor:
    [__class__] accepts only a class, [__weakref__] is not writable, and
    [__dict__] accepts only a dict, which then replaces the attributes
    of the instance.  The values written here are decoded values, never
    classes.  Replacing [__dict__], and rebinding one of the two
    bookkeeping attributes from outside the class, are not covered by
    the embedding, which says so by raising [SystemError]. *)
Definition __setattr__ (self : loc) (key : string) (value : json) : M unit :=
  match key with
  | "" => raise (IndexError "string index out of range")
  | String c _ =>
      i <- deref self ;;
      if bool_decide (c = "_"%char) then
        if bool_decide (key = "__class__") then
          raise (TypeError "__class__ must be set to a class")
        else if bool_decide (key = "__weakref__") then
          raise (AttributeError (JStr "attribute '__weakref__' is not writable"))
        else if bool_decide (key = "__dict__") then
          match value with
          | JDict _ => raise (SystemError "instance dictionary replaced")
          | _ => raise (TypeError "__dict__ must be set to a dictionary")
          end
        else if bool_decide (key = "_attributes" ∨ key = "_changes") then
          raise (SystemError "bookkeeping attribute rebound")
        else
          assign self (Instance (class_ i) (_attributes i) (_changes i)
                                (<[key := value]> (__dict__ i)))
      else
        assign self (Instance (class_ i) (<[key := value]> (_attributes i))
                              ({[key]} ∪ _changes i) (__dict__ i))
  end.

(** [Base._reload_data]: rebind [_attributes] to a new dict, copy the
    entries of [data] into it one by one, rebind [_changes] to a new
    empty set, and return [self]. *)
Definition _reload_data (self : loc) (data : gmap string json) : M loc :=
  i <- deref self ;;
  let attributes := map_fold (λ k v d, <[k := v]> d) ∅ data in
  assign self (Instance (class_ i) attributes ∅ (__dict__ i)) ;;;
  ret self.

(** [Base.from_data], a class method: [instance = cls()], then
    [instance._reload_data(data)], then [return instance]. *)
Definition from_data (cls_ : cls) (data : gmap string json) : M loc :=
  instance <- __init__ cls_ ;;
  _reload_data instance data ;;;
  ret instance.

(** The property [Base.changes]:
    [dict((c, self._attributes.get(c)) for c in self._changes)]. *)
Definition changes (self : loc) : M (gmap string json) :=
  i <- deref self ;;
  ret (set_to_map (λ c, (c, default JNone (_attributes i !! c))) (_changes i)).

(** ** The object factory *)

(** The registry inside [_get_class_for]. *)
Definition registry : gmap string cls :=
  list_to_map [
    ("account", Account);
    ("balance", Balance);
    ("token", Token);
    ("card", Card);
    ("charge", Charge);
    ("customer", Customer);
    ("refund", Refund);
    ("transfer", Transfer);
    ("transaction", Transaction);
    ("list", Collection)
  ].

(** [_get_class_for(type)] is [registry.get(type)].  The keys are strings,
    so only a string can be found; [dict.get] hashes its argument first
    and raises [TypeError] on a list or a dict. *)
Definition _get_class_for (type : json) : M (option cls) :=
  match type with
  | JStr s => ret (registry !! s)
  | JList _ => raise (TypeError "unhashable type: 'list'")
  | JDict _ => raise (TypeError "unhashable type: 'dict'")
  | JNone | JBool _ | JInt _ => ret None
  end.

(** [_as_object(data)]. *)
Fixpoint _as_object (data : json) : M pyobj :=
  match data with
  | JList l =>
      objs <- (fix each (l : list json) : M (list pyobj) :=
                 match l with
                 | [] => ret []
                 | i :: rest =>
                     o <- _as_object i ;; os <- each rest ;; ret (o :: os)
                 end) l ;;
      ret (PyList objs)
  | JDict d =>
      type <- getitem d "object" ;;
      found <- _get_class_for type ;;
      let class_ := match found with Some c => c | None => Base end in
      instance <- from_data class_ d ;;
      ret (Ref instance)
  | _ => ret (Plain data)
  end.

(** [Base.__getattr__]. *)
Definition __getattr__ (self : loc) (key : string) : M pyobj :=
  match key with
  | "" => raise (IndexError "string index out of range")
  | String c _ =>
      if bool_decide (c = "_"%char) then raise (AttributeError (JStr key))
      else
        except_KeyError_raise_AttributeError (
          i <- deref self ;;
          value <- getitem (_attributes i) key ;;
          match value with
          | JDict _ => _as_object value
          | _ => ret (Plain value)
          end)
  end.

(** ** Python string primitives used by the URL code *)

(** [c in s] *)
Fixpoint contains (c : ascii) (s : string) : bool :=
  match s with
  | "" => false
  | String a r => Ascii.eqb a c || contains c r
  end.

(** [s.split(c)]: the pieces between the occurrences of [c]; never
    empty. *)
Fixpoint split (c : ascii) (s : string) : list string :=
  match s with
  | "" => [""]
  | String a r =>
      if Ascii.eqb a c then "" :: split c r
      else match split c r with
           | [] => [String a ""]
           | piece :: pieces => String a piece :: pieces
           end
  end.

(** [s.split(c, 1)] as a pair: the text before the first [c] and, when
    there is one, the text after it. *)
Fixpoint cut (c : ascii) (s : string) : string * option string :=
  match s with
  | "" => ("", None)
  | String a r =>
      if Ascii.eqb a c then ("", Some r)
      else let '(before, after) := cut c r in (String a before, after)
  end.

(** The longest prefix without a character satisfying [stop], and the
    rest. *)
Fixpoint span (stop : ascii → bool) (s : string) : string * string :=
  match s with
  | "" => ("", "")
  | String a r =>
      if stop a then ("", s)
      else let '(before, rest) := span stop r in (String a before, rest)
  end.

Fixpoint forallb_string (p : ascii → bool) (s : string) : bool :=
  match s with
  | "" => true
  | String a r => p a && forallb_string p r
  end.

Definition between (lo hi : nat) (c : ascii) : bool :=
  (lo <=? nat_of_ascii c)%nat && (nat_of_ascii c <=? hi)%nat.

Definition is_digit : ascii → bool := between 48 57.

Definition lower_char (c : ascii) : ascii :=
  if between 65 90 c then ascii_of_nat (nat_of_ascii c + 32) else c.

(** [s.lower()] *)
Fixpoint lower (s : string) : string :=
  match s with
  | "" => ""
  | String a r => String (lower_char a) (lower r)
  end.

(** [s[:1] == '/'] and [s[:2] == '//'] *)
Definition starts_with_slash (s : string) : bool :=
  match s with
  | String a _ => Ascii.eqb a "/"
  | "" => false
  end.

Definition starts_with_slashes (s : string) : bool :=
  match s with
  | String a r => Ascii.eqb a "/" && starts_with_slash r
  | "" => false
  end.

(** ** [urllib.parse] (imported as [urlparse])

    The standard library's URL functions reached from
    [Request._build_path], after [Lib/urllib/parse.py] of CPython 3.8,
    on text strings.  The parse cache is left out, and so is
    [_checknetloc], which only concerns host names that are not ASCII. *)
Module urlparse.

Definition uses_relative : list string :=
  [""; "ftp"; "http"; "gopher"; "nntp"; "imap"; "wais"; "file"; "https";
   "shttp"; "mms"; "prospero"; "rtsp"; "rtspu"; "sftp"; "svn"; "svn+ssh";
   "ws"; "wss"].

Definition uses_netloc : list string :=
  [""; "ftp"; "http"; "gopher"; "nntp"; "telnet"; "imap"; "wais"; "file";
   "mms"; "https"; "shttp"; "snews"; "prospero"; "rtsp"; "rtspu"; "rsync";
   "svn"; "svn+ssh"; "sftp"; "nfs"; "git"; "git+ssh"; "ws"; "wss"].

Definition uses_params : list string :=
  [""; "ftp"; "hdl"; "prospero"; "http"; "imap"; "https"; "shttp"; "rtsp";
   "rtspu"; "sip"; "sips"; "mms"; "sftp"; "tel"].

Definition member (s : string) (l : list string) : bool :=
  existsb (String.eqb s) l.

(** [c in scheme_chars] *)
Definition scheme_char (c : ascii) : bool :=
  between 97 122 c || between 65 90 c || is_digit c
  || Ascii.eqb c "+" || Ascii.eqb c "-" || Ascii.eqb c ".".

Record SplitResult := {
  s_scheme : string; s_netloc : string; s_path : string;
  s_query : string; s_fragment : string
}.

Record ParseResult := {
  scheme : string; netloc : string; path : string;
  params : string; query : string; fragment : string
}.

(** [_splitnetloc(url, 2)] on a [url] that starts with two slashes. *)
Definition _splitnetloc (url : string) : string * string :=
  match url with
  | String _ (String _ rest) =>
      span (λ c, Ascii.eqb c "/" || Ascii.eqb c "?" || Ascii.eqb c "#") rest
  | _ => ("", "")
  end.

(** The scheme test at the head of [urlsplit]: the text before the first
    colon, when it is not empty, is made of scheme characters and (unless
    it is [http]) is not followed by a port number. *)
Definition split_scheme (url : string) : option (string * string) :=
  match cut ":" url with
  | (String a r, Some rest) =>
      let prefix := String a r in
      if String.eqb prefix "http" then Some (prefix, rest)
      else if forallb_string scheme_char prefix
              && (String.eqb rest "" || negb (forallb_string is_digit rest))
      then Some (lower prefix, rest)
      else None
  | _ => None
  end.

Definition urlsplit (url scheme : string) : outcome SplitResult :=
  let '(scheme, url) :=
    match split_scheme url with
    | Some (found, rest) => (found, rest)
    | None => (scheme, url)
    end in
  let '(netloc, url) :=
    if starts_with_slashes url then _splitnetloc url else ("", url) in
  if xorb (contains "[" netloc) (contains "]" netloc)
  then Raise (ValueError "Invalid IPv6 URL")
  else
    let '(url, fragment) :=
      match cut "#" url with
      | (before, Some after) => (before, after)
      | _ => (url, "")
      end in
    let '(url, query) :=
      match cut "?" url with
      | (before, Some after) => (before, after)
      | _ => (url, "")
      end in
    Return {| s_scheme := scheme; s_netloc := netloc; s_path := url;
              s_query := query; s_fragment := fragment |}.

(** [_splitparams]: the parameters follow the first semicolon of the last
    path segment. *)
Definition _splitparams (url : string) : string * string :=
  let pieces := split "/" url in
  match cut ";" (List.last pieces "") with
  | (before, Some after) =>
      (String.concat "/" (removelast pieces ++ [before]), after)
  | _ => (url, "")
  end.

Definition urlparse (url scheme : string) : outcome ParseResult :=
  match urlsplit url scheme with
  | Raise e => Raise e
  | Return r =>
      let '(url, params) :=
        if member (s_scheme r) uses_params && contains ";" (s_path r)
        then _splitparams (s_path r) else (s_path r, "") in
      Return {| scheme := s_scheme r; netloc := s_netloc r; path := url;
                params := params; query := s_query r;
                fragment := s_fragment r |}
  end.

Definition urlunsplit (r : SplitResult) : string :=
  let url := s_path r in
  let url :=
    if negb (String.eqb (s_netloc r) "")
       || (negb (String.eqb (s_scheme r) "") && member (s_scheme r) uses_netloc
           && negb (starts_with_slashes url))
    then
      let url := if negb (String.eqb url "") && negb (starts_with_slash url)
                 then "/" +:+ url else url in
      "//" +:+ s_netloc r +:+ url
    else url in
  let url := if String.eqb (s_scheme r) "" then url
             else s_scheme r +:+ ":" +:+ url in
  let url := if String.eqb (s_query r) "" then url
             else url +:+ "?" +:+ s_query r in
  if String.eqb (s_fragment r) "" then url else url +:+ "#" +:+ s_fragment r.

Definition urlunparse (r : ParseResult) : string :=
  let url := if String.eqb (params r) "" then path r
             else path r +:+ ";" +:+ params r in
  urlunsplit {| s_scheme := scheme r; s_netloc := netloc r; s_path := url;
                s_query := query r; s_fragment := fragment r |}.

(** [segments[1:-1] = filter(None, segments[1:-1])] *)
Definition drop_empty_inner (segments : list string) : list string :=
  match segments with
  | first :: (_ :: _) as rest =>
      first :: filter (λ s, s ≠ "") (removelast rest) ++ [List.last rest ""]
  | _ => segments
  end.

(** The loop over [segments] of [urljoin]; [resolved_path] is kept in
    reverse. *)
Definition resolve (segments : list string) : list string :=
  rev (fold_left (λ resolved_path seg,
                    if String.eqb seg ".." then tail resolved_path
                    else if String.eqb seg "." then resolved_path
                    else seg :: resolved_path)
                 segments []).

Definition urljoin (base url : string) : outcome string :=
  if String.eqb base "" then Return url
  else if String.eqb url "" then Return base
  else
    match urlparse base "" with
    | Raise e => Raise e
    | Return b =>
        match urlparse url (scheme b) with
        | Raise e => Raise e
        | Return u =>
            if negb (String.eqb (scheme u) (scheme b))
               || negb (member (scheme u) uses_relative)
            then Return url
            else if member (scheme u) uses_netloc
                    && negb (String.eqb (netloc u) "")
            then Return (urlunparse u)
            else
              let netloc_ := if member (scheme u) uses_netloc then netloc b
                             else netloc u in
              if String.eqb (path u) "" && String.eqb (params u) "" then
                Return (urlunparse
                  {| scheme := scheme u; netloc := netloc_; path := path b;
                     params := params b;
                     query := if String.eqb (query u) "" then query b
                              else query u;
                     fragment := fragment u |})
              else
                let base_parts := split "/" (path b) in
                let base_parts :=
                  if String.eqb (List.last base_parts "") "" then base_parts
                  else removelast base_parts in
                let segments :=
                  if starts_with_slash (path u) then split "/" (path u)
                  else drop_empty_inner (base_parts ++ split "/" (path u)) in
                let resolved_path := resolve segments in
                let resolved_path :=
                  if String.eqb (List.last segments "") "."
                     || String.eqb (List.last segments "") ".."
                  then resolved_path ++ [""] else resolved_path in
                let joined := String.concat "/" resolved_path in
                Return (urlunparse
                  {| scheme := scheme u; netloc := netloc_;
                     path := if String.eqb joined "" then "/" else joined;
                     params := params u; query := query u;
                     fragment := fragment u |})
        end
    end.

End urlparse.

(** ** Module constants *)

Definition api_compat : string := "2014-07-27".
Definition api_main : string := "https://api.omise.co".
Definition api_vault : string := "https://vault.omise.co".

(** The trust store handed to the transport as [verify=]: the file
    [data/ca_certificates.pem] next to the module. *)
Definition ca_certificates : string := "data/ca_certificates.pem".

(** ** [omise.errors] *)
Module errors.

(** Modelled from the spec: [errors._raise_from_data] lives in
    [omise/errors.py], which is not among the sources.  The specification
    (Error Translator) says that it never returns: it reads the [code] and
    [message] fields of the decoded error body and raises the error kind
    selected by the code, an error that exposes the original code and
    message.  The kinds are represented by the one constructor
    [ApiError], which carries both fields ([None] standing for an absent
    field). *)
Definition _raise_from_data (data : gmap string json) : M unit :=
  raise (ApiError (default JNone (data !! "code"))
                  (default JNone (data !! "message"))).

End errors.

(** ** Built-ins *)

Section builtins.
Context `{!Externals}.

(** [str(v)].  A string is itself; integers print in decimal; containers
    print as their [repr]. *)
Definition str (v : json) : string :=
  match v with
  | JStr s => s
  | JInt n => NilZero.string_of_int (Z.to_int n)
  | JBool true => "True"
  | JBool false => "False"
  | JNone => "None"
  | JList _ | JDict _ => repr v
  end.

End builtins.

(** [hasattr(v, '__iter__')]: strings, lists, tuples and dicts iterate. *)
Definition has__iter__ (v : json) : bool :=
  match v with
  | JStr _ | JList _ | JDict _ => true
  | JNone | JBool _ | JInt _ => false
  end.

(** [isinstance(v, basestring)] *)
Definition is_basestring (v : json) : bool :=
  match v with JStr _ => true | _ => false end.

(** The elements met when iterating over [v]: the items of a list or
    tuple, the keys of a dict (in the order the map enumerates them), the
    one-character strings of a string. *)
Definition iterate (v : json) : list json :=
  match v with
  | JList l => l
  | JDict d => JStr <$> (map_to_list d).*1
  | JStr s => (λ c, JStr (String c "")) <$> list_ascii_of_string s
  | JNone | JBool _ | JInt _ => []
  end.

(** [v == s] for a string [s]: only an equal string compares equal. *)
Definition eq_str (v : json) (s : string) : bool :=
  match v with
  | JStr s' => String.eqb s' s
  | _ => false
  end.

(** ** The requestor: class [Request] *)
Module Request.

Record t := New { api_key : string; api_base : string }.

Section methods.
Context `{!Externals}.

(** [Request.__init__] *)
Definition __init__ (api_key : option string) (api_base : string) : M t :=
  match api_key with
  | None => raise (AttributeError (JStr "API key is not set."))
  | Some key => ret (New key api_base)
  end.

(** [Request._build_path] *)
Definition _build_path (self : t) (path : json) : M string :=
  let path :=
    if negb (has__iter__ path) || is_basestring path then [path]
    else iterate path in
  let path := map str path in
  lift (urlparse.urljoin (api_base self) (String.concat "/" path)).

(** [Request._build_payload] *)
Definition _build_payload (payload : option (gmap string json))
    : gmap string json :=
  match payload with
  | None => ∅
  | Some payload => payload
  end.

(** [Request._build_headers]: the two assignments are made on the
    caller's mapping (or on a new one), in this order. *)
Definition _build_headers (headers : option (gmap string string))
    : gmap string string :=
  let headers := match headers with None => ∅ | Some headers => headers end in
  let headers := <["Accept" := "application/json"]> headers in
  let headers :=
    <["User-Agent" :=
        "OmisePython/" +:+ __VERSION__ +:+ " OmiseAPI/" +:+ api_compat]>
      headers in
  headers.

(** [getattr(requests, method)(...).json()]: the call is logged on the
    wire and answered by the transport. *)
Definition perform (call : http_call) : M (gmap string json) :=
  λ w, (requests (wire w) call,
        World (api_secret w) (api_public w) (heap w) (wire w ++ [call])).

(** [Request.send] (the log records it writes are not modelled). *)
Definition send (self : t) (method : http_method) (path : json)
    (payload : option (gmap string json))
    (headers : option (gmap string string)) : M (gmap string json) :=
  request_path <- _build_path self path ;;
  let request_payload := _build_payload payload in
  let request_headers := _build_headers headers in
  response <- perform
    (HttpCall method request_path request_payload request_headers
              (api_key self, None) ca_certificates) ;;
  (if eq_str (default JNone (response !! "object")) "error"
   then errors._raise_from_data response
   else ret tt) ;;;
  ret response.

End methods.
End Request.

(** Reading the module settings. *)
Definition get_api_secret : M (option string) := λ w, (Return (api_secret w), w).
Definition get_api_public : M (option string) := λ w, (Return (api_public w), w).

(** ** [_MainResource] and [_VaultResource] *)
Module _MainResource.
Section methods.
Context `{!Externals}.

(** [Request(api_secret, api_main).send( *args, **kwargs)] *)
Definition _request (method : http_method) (path : json)
    (payload : option (gmap string json))
    (headers : option (gmap string string)) : M (gmap string json) :=
  key <- get_api_secret ;;
  requestor <- Request.__init__ key api_main ;;
  Request.send requestor method path payload headers.

End methods.
End _MainResource.

Module _VaultResource.
Section methods.
Context `{!Externals}.

(** [Request(api_public, api_vault).send( *args, **kwargs)] *)
Definition _request (method : http_method) (path : json)
    (payload : option (gmap string json))
    (headers : option (gmap string string)) : M (gmap string json) :=
  key <- get_api_public ;;
  requestor <- Request.__init__ key api_vault ;;
  Request.send requestor method path payload headers.

End methods.
End _VaultResource.

(** ** More of [Base] *)

(** Truth value of a decoded value, as tested by [if v:]. *)
Definition truthy (v : json) : bool :=
  match v with
  | JNone => false
  | JBool b => b
  | JInt n => negb (n =? 0)%Z
  | JStr s => negb (String.eqb s "")
  | JList l => match l with [] => false | _ => true end
  | JDict d => negb (bool_decide (d = ∅))
  end.

Definition __name__ (c : cls) : string :=
  match c with
  | Base => "Base" | Account => "Account" | Balance => "Balance"
  | Token => "Token" | Card => "Card" | Charge => "Charge"
  | Customer => "Customer" | Refund => "Refund" | Transfer => "Transfer"
  | Transaction => "Transaction" | Collection => "Collection"
  end.

(** [self._attributes[key]] *)
Definition attribute (self : loc) (key : string) : M json :=
  i <- deref self ;;
  getitem (_attributes i) key.

Section display.
Context `{!Externals}.

(** [Base.__repr__] *)
Definition __repr__ (self : loc) : M string :=
  i <- deref self ;;
  let id_ := default JNone (_attributes i !! "id") in
  ret ("<" +:+ __name__ (class_ i)
       +:+ (if truthy id_ then " id=" +:+ repr (JStr (str id_)) else "")
       +:+ " at " +:+ hex_id self +:+ ">").

(** An object placed in a path tuple is later turned into text by
    [map(str, path)]; a record instance is carried as the text its
    [__repr__] gives, which [str] leaves as it is. *)
Definition as_segment (o : pyobj) : M json :=
  match o with
  | Plain j => ret j
  | Ref l => s <- __repr__ l ;; ret (JStr s)
  | PyList _ => raise (SystemError "a list of objects is not a field value")
  end.

End display.

(** [self._attributes.get('deleted', False)], the body of every
    [destroyed] property. *)
Definition get_deleted (self : loc) : M json :=
  i <- deref self ;;
  ret (default (JBool false) (_attributes i !! "deleted")).

(** [copy.deepcopy(self.changes)] followed by [changed.update(kwargs)]:
    a copy of decoded data is the same data, and the entries of [kwargs]
    replace those of the copy. *)
Definition changed_with (self : loc) (kwargs : gmap string json)
    : M (gmap string json) :=
  changed <- changes self ;;
  ret (kwargs ∪ changed).

(** ** Attribute lookup

    What [obj.name] gives for an instance of a class of the module.
    Python looks the name up on the class first and on the instance
    next, and calls [__getattr__] only when both fail. *)

(** What a read gives: a value, or a method of the class bound to the
    instance or to the class. *)
Inductive attribute_value :=
  | Value (o : pyobj)
  | Method (name : string).

(** The methods a class defines or inherits under a name that does not
    start with an underscore. *)
Definition methods (c : cls) : list string :=
  "from_data" ::
  match c with
  | Base => []
  | Account | Balance | Transaction => ["retrieve"; "reload"]
  | Token => ["create"; "retrieve"; "reload"]
  | Card => ["reload"; "update"; "destroy"]
  | Charge => ["create"; "retrieve"; "reload"; "update"; "capture"; "refund"]
  | Collection => ["retrieve"]
  | Customer | Transfer =>
      ["create"; "retrieve"; "reload"; "update"; "destroy"]
  | Refund => ["reload"]
  end.

(** Its properties: [changes], and [destroyed] where it is defined. *)
Definition properties (c : cls) : list string :=
  "changes" ::
  match c with
  | Card | Customer | Transfer => ["destroyed"]
  | _ => []
  end.

(** [getattr(self, name)], that is [self.name].  The instance itself
    holds no name that does not start with an underscore, since
    [__setattr__] writes those to [_attributes]; names that do start
    with one are not covered by the embedding, which says so by raising
    [SystemError]. *)
Definition getattr (self : loc) (name : string) : M attribute_value :=
  i <- deref self ;;
  if bool_decide (name ∈ methods (class_ i)) then ret (Method name)
  else if bool_decide (name = "changes") then
    changed <- changes self ;; ret (Value (Plain (JDict changed)))
  else if bool_decide (name ∈ properties (class_ i)) then
    deleted <- get_deleted self ;; ret (Value (Plain deleted))
  else
    match name with
    | "" => value <- __getattr__ self name ;; ret (Value value)
    | String c _ =>
        if bool_decide (c = "_"%char) then
          raise (SystemError "private names are not covered")
        else value <- __getattr__ self name ;; ret (Value value)
    end.

(** ** Resource bindings *)

Module Account.
Section methods.
Context `{!Externals}.

Definition _instance_path : json := JStr "account".

Definition retrieve : M pyobj :=
  response <- _MainResource._request GET _instance_path None None ;;
  _as_object (JDict response).

Definition reload (self : loc) : M loc :=
  response <- _MainResource._request GET _instance_path None None ;;
  _reload_data self response.

End methods.
End Account.

Module Balance.
Section methods.
Context `{!Externals}.

Definition _instance_path : json := JStr "balance".

Definition retrieve : M pyobj :=
  response <- _MainResource._request GET _instance_path None None ;;
  _as_object (JDict response).

Definition reload (self : loc) : M loc :=
  response <- _MainResource._request GET _instance_path None None ;;
  _reload_data self response.

End methods.
End Balance.

Module Token.
Section methods.
Context `{!Externals}.

Definition _collection_path : json := JStr "tokens".
Definition _instance_path (token_id : json) : list json :=
  [JStr "tokens"; token_id].

(** The loop of [Token.create]:
    [transformed_args['card[%s]' % key] = value]. *)
Definition transformed_args (kwargs : gmap string json) : gmap string json :=
  map_fold (λ key value args, <["card[" +:+ key +:+ "]" := value]> args)
           ∅ kwargs.

Definition create (kwargs : gmap string json) : M pyobj :=
  response <- _VaultResource._request POST _collection_path
                (Some (transformed_args kwargs)) None ;;
  _as_object (JDict response).

Definition retrieve (token_id : json) : M pyobj :=
  response <- _VaultResource._request GET (JList (_instance_path token_id))
                None None ;;
  _as_object (JDict response).

Definition reload (self : loc) : M loc :=
  id <- attribute self "id" ;;
  response <- _VaultResource._request GET (JList (_instance_path id))
                None None ;;
  _reload_data self response.

End methods.
End Token.

Module Card.
Section methods.
Context `{!Externals}.

Definition reload (self : loc) : M loc :=
  location <- attribute self "location" ;;
  response <- _MainResource._request GET location None None ;;
  _reload_data self response.

Definition update (self : loc) (kwargs : gmap string json) : M loc :=
  changed <- changed_with self kwargs ;;
  location <- attribute self "location" ;;
  response <- _MainResource._request PATCH location (Some changed) None ;;
  _reload_data self response.

Definition destroy (self : loc) : M loc :=
  location <- attribute self "location" ;;
  response <- _MainResource._request DELETE location None None ;;
  _reload_data self response.

Definition destroyed (self : loc) : M json := get_deleted self.

End methods.
End Card.

Module Charge.
Section methods.
Context `{!Externals}.

Definition _collection_path : json := JStr "charges".
Definition _instance_path (charge_id : json) : list json :=
  [JStr "charges"; charge_id].

Definition create (kwargs : gmap string json) : M pyobj :=
  response <- _MainResource._request POST _collection_path
                (Some kwargs) None ;;
  _as_object (JDict response).

(** [charge_id] defaults to [None]. *)
Definition retrieve (charge_id : json) : M pyobj :=
  if truthy charge_id then
    response <- _MainResource._request GET
                  (JList (_instance_path charge_id)) None None ;;
    _as_object (JDict response)
  else
    response <- _MainResource._request GET _collection_path None None ;;
    _as_object (JDict response).

Definition reload (self : loc) : M loc :=
  id <- attribute self "id" ;;
  response <- _MainResource._request GET (JList (_instance_path id))
                None None ;;
  _reload_data self response.

Definition update (self : loc) (kwargs : gmap string json) : M loc :=
  changed <- changed_with self kwargs ;;
  id <- attribute self "id" ;;
  response <- _MainResource._request PATCH (JList (_instance_path id))
                (Some changed) None ;;
  _reload_data self response.

Definition capture (self : loc) : M loc :=
  id <- attribute self "id" ;;
  let path := _instance_path id ++ [JStr "capture"] in
  response <- _MainResource._request POST (JList path) None None ;;
  _reload_data self response.

Definition refund (self : loc) (kwargs : gmap string json) : M pyobj :=
  id <- attribute self "id" ;;
  let path := _instance_path id ++ [JStr "refunds"] in
  response <- _MainResource._request POST (JList path) (Some kwargs) None ;;
  refund <- _as_object (JDict response) ;;
  reload self ;;;
  ret refund.

End methods.
End Charge.

(** [len(v)] *)
Definition len (v : json) : M nat :=
  match v with
  | JList l => ret (length l)
  | JStr s => ret (String.length s)
  | JDict d => ret (size d)
  | JNone | JBool _ | JInt _ => raise (TypeError "object has no len()")
  end.

(** [iter(v)], as the list of elements a loop over [v] will meet. *)
Definition iter (v : json) : M (list json) :=
  if has__iter__ v then ret (iterate v)
  else raise (TypeError "object is not iterable").

(** [seq[item]] for an integer [item]: a negative index counts from the
    end. *)
Definition index {A} (seq : list A) (item : Z) : M A :=
  let i := if (item <? 0)%Z then (item + Z.of_nat (length seq))%Z else item in
  if (i <? 0)%Z then raise (IndexError "index out of range")
  else match seq !! Z.to_nat i with
       | Some x => ret x
       | None => raise (IndexError "index out of range")
       end.

(** [v[item]] for an integer [item]. *)
Definition subscript (v : json) (item : Z) : M json :=
  match v with
  | JList l => index l item
  | JStr s => c <- index (list_ascii_of_string s) item ;;
              ret (JStr (String c ""))
  | JDict _ => raise (KeyError (JInt item))
  | JNone | JBool _ | JInt _ => raise (TypeError "object is not subscriptable")
  end.

(** [obj['id']] for an element of a sequence: only a dict can be indexed
    by a string. *)
Definition get_id (obj : json) : M json :=
  match obj with
  | JDict d => getitem d "id"
  | JList _ | JStr _ => raise (TypeError "indices must be integers")
  | JNone | JBool _ | JInt _ => raise (TypeError "object is not subscriptable")
  end.

Module Collection.

Definition __len__ (self : loc) : M nat :=
  data <- attribute self "data" ;;
  len data.

(** The generator made by [Collection.__iter__].  Its body starts to run
    at the first [next]; it is then suspended at [yield] with the
    elements still to come.  When [__next__] raises, the generator is
    finished. *)
Inductive generator :=
  | Created (self : loc)
  | Suspended (rest : list json)
  | Finished.

Definition __iter__ (self : loc) : generator := Created self.

(** One [next(g)]: [None] stands for [StopIteration]. *)
Definition __next__ (g : generator) : M (option (pyobj * generator)) :=
  let resume (rest : list json) : M (option (pyobj * generator)) :=
    match rest with
    | [] => ret None
    | obj :: rest => o <- _as_object obj ;; ret (Some (o, Suspended rest))
    end in
  match g with
  | Created self =>
      data <- attribute self "data" ;;
      elements <- iter data ;;
      resume elements
  | Suspended rest => resume rest
  | Finished => ret None
  end.

(** [list(g)]: the objects the remaining calls of [next] yield. *)
Definition list_ (g : generator) : M (list pyobj) :=
  match g with
  | Created self =>
      data <- attribute self "data" ;;
      elements <- iter data ;;
      traverse _as_object elements
  | Suspended rest => traverse _as_object rest
  | Finished => ret []
  end.

Definition __getitem__ (self : loc) (item : Z) : M pyobj :=
  data <- attribute self "data" ;;
  obj <- subscript data item ;;
  _as_object obj.

(** The loop of [Collection.retrieve]; falling off its end returns
    [None]. *)
Fixpoint find (data : list json) (object_id : string) : M pyobj :=
  match data with
  | [] => ret (Plain JNone)
  | obj :: rest =>
      id <- get_id obj ;;
      if eq_str id object_id then _as_object obj else find rest object_id
  end.

(** [Collection.retrieve(object_id=None)], for [object_id] a string or
    [None]. *)
Definition retrieve (self : loc) (object_id : option string) : M pyobj :=
  match object_id with
  | None => objs <- list_ (__iter__ self) ;; ret (PyList objs)
  | Some object_id =>
      data <- attribute self "data" ;;
      elements <- iter data ;;
      find elements object_id
  end.

End Collection.

Module Customer.
Section methods.
Context `{!Externals}.

Definition _collection_path : json := JStr "customers".
Definition _instance_path (customer_id : json) : list json :=
  [JStr "customers"; customer_id].

Definition create (kwargs : gmap string json) : M pyobj :=
  response <- _MainResource._request POST _collection_path
                (Some kwargs) None ;;
  _as_object (JDict response).

Definition retrieve (customer_id : json) : M pyobj :=
  response <- _MainResource._request GET
                (JList (_instance_path customer_id)) None None ;;
  _as_object (JDict response).

Definition reload (self : loc) : M loc :=
  id <- attribute self "id" ;;
  response <- _MainResource._request GET (JList (_instance_path id))
                None None ;;
  _reload_data self response.

Definition update (self : loc) (kwargs : gmap string json) : M loc :=
  changed <- changed_with self kwargs ;;
  id <- attribute self "id" ;;
  response <- _MainResource._request PATCH (JList (_instance_path id))
                (Some changed) None ;;
  _reload_data self response.

Definition destroy (self : loc) : M loc :=
  id <- attribute self "id" ;;
  response <- _MainResource._request DELETE (JList (_instance_path id))
                None None ;;
  _reload_data self response.

Definition destroyed (self : loc) : M json := get_deleted self.

End methods.
End Customer.

Module Refund.
Section methods.
Context `{!Externals}.

Definition reload (self : loc) : M loc :=
  location <- attribute self "location" ;;
  response <- _MainResource._request GET location None None ;;
  _reload_data self response.

End methods.
End Refund.

Module Transfer.
Section methods.
Context `{!Externals}.

Definition _collection_path : json := JStr "transfers".
Definition _instance_path (transfer_id : json) : list json :=
  [JStr "transfers"; transfer_id].

Definition create (kwargs : gmap string json) : M pyobj :=
  response <- _MainResource._request POST _collection_path
                (Some kwargs) None ;;
  _as_object (JDict response).

Definition retrieve (transfer_id : json) : M pyobj :=
  if truthy transfer_id then
    response <- _MainResource._request GET
                  (JList (_instance_path transfer_id)) None None ;;
    _as_object (JDict response)
  else
    response <- _MainResource._request GET _collection_path None None ;;
    _as_object (JDict response).

Definition reload (self : loc) : M loc :=
  id <- attribute self "id" ;;
  response <- _MainResource._request GET (JList (_instance_path id))
                None None ;;
  _reload_data self response.

(** [Transfer.update] and [Transfer.destroy] read [self.id], an
    attribute access that goes through [__getattr__]. *)
Definition update (self : loc) (kwargs : gmap string json) : M loc :=
  changed <- changed_with self kwargs ;;
  id <- __getattr__ self "id" ;;
  id <- as_segment id ;;
  response <- _MainResource._request PATCH (JList (_instance_path id))
                (Some changed) None ;;
  _reload_data self response.

Definition destroy (self : loc) : M loc :=
  id <- __getattr__ self "id" ;;
  id <- as_segment id ;;
  response <- _MainResource._request DELETE (JList (_instance_path id))
                None None ;;
  _reload_data self response.

Definition destroyed (self : loc) : M json := get_deleted self.

End methods.
End Transfer.

Module Transaction.
Section methods.
Context `{!Externals}.

Definition _collection_path : json := JStr "transactions".
Definition _instance_path (transaction_id : json) : list json :=
  [JStr "transactions"; transaction_id].

Definition retrieve (transaction_id : json) : M pyobj :=
  if truthy transaction_id then
    response <- _MainResource._request GET
                  (JList (_instance_path transaction_id)) None None ;;
    _as_object (JDict response)
  else
    response <- _MainResource._request GET _collection_path None None ;;
    _as_object (JDict response).

Definition reload (self : loc) : M loc :=
  id <- attribute self "id" ;;
  response <- _MainResource._request GET (JList (_instance_path id))
                None None ;;
  _reload_data self response.

End methods.
End Transaction.

(** ** Vocabulary of the specification *)

(** A field name that is not reserved: it has a first character, and that
    character is not an underscore. *)
Definition public (key : string) : Prop :=
  match key with
  | "" => False
  | String c _ => c ≠ "_"%char
  end.

(** The raw value is a keyed mapping / a sequence. *)
Definition is_dict (v : json) : Prop := ∃ d, v = JDict d.
Definition is_list (v : json) : Prop := ∃ l, v = JList l.

(** A value that [dict.get] can hash: anything but a list or a dict. *)
Definition hashable (v : json) : Prop :=
  match v with
  | JList _ | JDict _ => False
  | _ => True
  end.

(** The class the registry holds for a discriminator, if any. *)
Definition registered (type : json) : option cls :=
  match type with
  | JStr s => registry !! s
  | _ => None
  end.

(** [threaded f l w ys w']: applying [f] to the elements of [l] one after
    the other, each in the world left by the one before, starting in [w],
    returns the elements of [ys] in the same order and ends in [w']. *)
Inductive threaded {A B} (f : A → M B)
    : list A → world → list B → world → Prop :=
  | threaded_nil w : threaded f [] w [] w
  | threaded_cons x l w y w1 ys w' :
      f x w = (Return y, w1) →
      threaded f l w1 ys w' →
      threaded f (x :: l) w (y :: ys) w'.

(** What a materialized object looks like to its holder: a plain value, a
    sequence, or a record of some class with its fields and its dirty
    names. *)
Inductive shape :=
  | Scalar (j : json)
  | Sequence (l : list shape)
  | Record_ (c : cls) (fields : gmap string json) (dirty : gset string).

Fixpoint view (h : gmap loc instance) (o : pyobj) : option shape :=
  match o with
  | Plain j => Some (Scalar j)
  | PyList l =>
      Sequence <$>
        (fix each (l : list pyobj) : option (list shape) :=
           match l with
           | [] => Some []
           | o :: rest =>
               match view h o, each rest with
               | Some s, Some ss => Some (s :: ss)
               | _, _ => None
               end
           end) l
  | Ref l => (λ i, Record_ (class_ i) (_attributes i) (_changes i)) <$> h !! l
  end.

(** The shape the specification gives to the materialization of a
    decoded value: lists elementwise, a mapping as a clean record of the
    registered class or of [Base], anything else as it is. *)
Fixpoint materialized (data : json) : shape :=
  match data with
  | JList l => Sequence (map materialized l)
  | JDict d =>
      Record_ (default Base (registered (default JNone (d !! "object")))) d ∅
  | _ => Scalar data
  end.

(** [w'] is [w] with, possibly, more instances: nothing was sent, no
    setting changed and no instance of [w] was touched. *)
Definition extends (w w' : world) : Prop :=
  heap w ⊆ heap w' ∧ wire w' = wire w
  ∧ api_secret w' = api_secret w ∧ api_public w' = api_public w.

(** The instances an object refers to. *)
Fixpoint refs (o : pyobj) : list loc :=
  match o with
  | Plain _ => []
  | PyList l =>
      (fix each (l : list pyobj) : list loc :=
         match l with
         | [] => []
         | o :: rest => refs o ++ each rest
         end) l
  | Ref l => [l]
  end.

(** [o], returned in world [w'] by a computation started in [w], is a
    materialization of [data]: it has the shape the specification gives,
    and the instances it refers to are distinct and were all created by
    the computation. *)
Definition materializes (data : json) (w : world) (o : pyobj) (w' : world)
    : Prop :=
  view (heap w') o = Some (materialized data)
  ∧ NoDup (refs o)
  ∧ ∀ l, l ∈ refs o → (l ∉ dom (heap w)) ∧ (l ∈ dom (heap w')).

(** What a caller does to a record between two observations: write a
    field, or load fresh data. *)
Inductive action :=
  | Write (key : string) (value : json)
  | Reload (data : gmap string json).

Definition act (self : loc) (a : action) : M unit :=
  match a with
  | Write key value => __setattr__ self key value
  | Reload data => _reload_data self data ;;; ret tt
  end.

Fixpoint play (self : loc) (actions : list action) : M unit :=
  match actions with
  | [] => ret tt
  | a :: rest => act self a ;;; play self rest
  end.

Definition is_reload (a : action) : bool :=
  match a with Reload _ => true | Write _ _ => false end.

Definition writes_public (actions : list action) : Prop :=
  Forall (λ a, match a with Write key _ => public key | Reload _ => True end)
         actions.

(** The writes that come after the last load, oldest first. *)
Fixpoint written_since_load (actions : list action) : list (string * json) :=
  match actions with
  | [] => []
  | Reload _ :: rest => written_since_load rest
  | Write key value :: rest =>
      if existsb is_reload rest then written_since_load rest
      else (key, value) :: written_since_load rest
  end.

(** The mapping the specification expects from [dirty_fields()]: the
    names written since the last load, each with its last-written value.
    [list_to_map] keeps the first binding of a name, so the writes are
    taken newest first. *)
Definition dirty_fields (actions : list action) : gmap string json :=
  list_to_map (reverse (written_since_load actions)).

(** The dirty mapping of an instance as it stands. *)
Definition pending (i : instance) : gmap string json :=
  set_to_map (λ c, (c, default JNone (_attributes i !! c))) (_changes i).

(** World update helpers used in statements. *)
Definition with_heap (w : world) (h : gmap loc instance) : world :=
  World (api_secret w) (api_public w) h (wire w).

Definition with_wire (w : world) (calls : list http_call) : world :=
  World (api_secret w) (api_public w) (heap w) calls.

(** ** Example data *)

(** A charge record as the API sends it. *)
Definition charge_1 : gmap string json :=
  {[ "object" := JStr "charge"; "id" := JStr "chrg_1"; "amount" := JInt 100000 ]}.

Definition charge_2 : gmap string json :=
  {[ "object" := JStr "charge"; "id" := JStr "chrg_2"; "amount" := JInt 5000 ]}.

(** A world with no credentials, one [Charge] instance at location 0 and
    nothing sent yet. *)
Definition one_charge : world :=
  World None None {[ 0 := Instance Charge charge_1 ∅ ∅ ]} [].

(** A customer record with a nested card, a nested list object and a
    plain list of mappings. *)
Definition card_1 : gmap string json :=
  {[ "object" := JStr "card"; "id" := JStr "card_1";
     "last_digits" := JStr "4242" ]}.

Definition customer_1 : gmap string json :=
  {[ "object" := JStr "customer"; "id" := JStr "cust_1";
     "email" := JStr "john.doe@example.com";
     "default_card" := JDict card_1;
     "cards" := JDict {[ "object" := JStr "list";
                         "data" := JList [JDict card_1] ]};
     "history" := JList [JDict card_1] ]}.

(** A world with both keys set and one [Customer] instance at
    location 0. *)
Definition one_customer : world :=
  World (Some "skey_test") (Some "pkey_test")
        {[ 0 := Instance Customer customer_1 ∅ ∅ ]} [].

(** ** Vocabulary for paths *)

(** The segments [_build_path] joins: the path itself when it is a string
    or is not iterable, its elements otherwise. *)
Definition segments (path : json) : list json :=
  if negb (has__iter__ path) || is_basestring path then [path]
  else iterate path.

(** A character that means nothing special inside a path segment. *)
Definition segment_char (c : ascii) : bool :=
  negb (Ascii.eqb c ":" || Ascii.eqb c "/" || Ascii.eqb c "?"
        || Ascii.eqb c "#" || Ascii.eqb c ";").

(** A segment that names something: not empty, not a dot segment, made of
    characters without a special meaning. *)
Definition plain_segment (s : string) : Prop :=
  s ≠ "" ∧ s ≠ "." ∧ s ≠ ".." ∧ forallb_string segment_char s = true.

(** A character that may appear in a host name (with its port). *)
Definition host_char (c : ascii) : bool :=
  negb (Ascii.eqb c "/" || Ascii.eqb c "?" || Ascii.eqb c "#"
        || Ascii.eqb c "[" || Ascii.eqb c "]").

Definition plain_host (s : string) : Prop :=
  s ≠ "" ∧ forallb_string host_char s = true.

(** The path of a base URL that ends in a slash, from the names of its
    directories: ["/"] for none, ["/v1/"] for [v1]. *)
Definition directory (dirs : list string) : string :=
  String.concat "/" ("" :: dirs ++ [""]).

(** A character of a relative path that does not start a scheme, a
    query, a fragment or parameters. *)
Definition path_char (c : ascii) : bool :=
  negb (Ascii.eqb c ":" || Ascii.eqb c "?" || Ascii.eqb c "#"
        || Ascii.eqb c ";").

(** [text] is what a segment reads as once turned into text: a string
    is its own text, an integer is written in decimal (the text reads
    back as the integer, so it has no sign other than a minus and no
    zero in front), and [None], [True] and [False] are written as
    Python prints them.  Lists and mappings are not segments. *)
Definition written (segment : json) (text : string) : Prop :=
  match segment with
  | JStr s => text = s
  | JInt n => NilZero.int_of_string text = Some (Z.to_int n)
  | JBool b => text = if b then "True" else "False"
  | JNone => text = "None"
  | JList _ | JDict _ => False
  end.


(** ** Vocabulary for requests *)

Section request_vocabulary.
Context `{!Externals}.

(** The URL [send] asks for: the segments of the path, as text, joined by
    slashes and resolved against the base. *)
Definition request_url (self : Request.t) (path : json) : outcome string :=
  urlparse.urljoin (Request.api_base self)
                   (String.concat "/" (str <$> segments path)).

(** The call [send] hands to the transport once the URL is known. *)
Definition request_call (self : Request.t) (method : http_method)
    (url : string) (payload : option (gmap string json))
    (headers : option (gmap string string)) : http_call :=
  HttpCall method url (Request._build_payload payload)
           (Request._build_headers headers)
           (Request.api_key self, None) ca_certificates.

End request_vocabulary.

(** The body is an error body: its ["object"] field is the string
    ["error"]. *)
Definition is_error (response : gmap string json) : Prop :=
  response !! "object" = Some (JStr "error").

(** The world after one more call went out. *)
Definition sent (w : world) (call : http_call) : world :=
  with_wire w (wire w ++ [call]).

(** ** A transport double

    A stand-in for the externals, used to run the model on examples: the
    server answers every [POST] with an error body and any other call
    with the charge [chrg_2]. *)
Definition error_body : gmap string json :=
  {[ "object" := JStr "error"; "code" := JStr "invalid_card";
     "message" := JStr "card number invalid" ]}.

Definition double : Externals := {|
  __VERSION__ := "0.5.1";
  requests := λ _ call,
    match call_method call with
    | POST => Return error_body
    | _ => Return charge_2
    end;
  repr := λ _, "<repr>";
  hex_id := λ _, "0x0"
|}.

(** ** The operations of the resource bindings

    Every method of a resource class that talks to the API, with its
    arguments. *)
Inductive operation :=
  | Account_retrieve
  | Account_reload (self : loc)
  | Balance_retrieve
  | Balance_reload (self : loc)
  | Token_create (kwargs : gmap string json)
  | Token_retrieve (token_id : json)
  | Token_reload (self : loc)
  | Card_reload (self : loc)
  | Card_update (self : loc) (kwargs : gmap string json)
  | Card_destroy (self : loc)
  | Charge_create (kwargs : gmap string json)
  | Charge_retrieve (charge_id : json)
  | Charge_reload (self : loc)
  | Charge_update (self : loc) (kwargs : gmap string json)
  | Charge_capture (self : loc)
  | Charge_refund (self : loc) (kwargs : gmap string json)
  | Customer_create (kwargs : gmap string json)
  | Customer_retrieve (customer_id : json)
  | Customer_reload (self : loc)
  | Customer_update (self : loc) (kwargs : gmap string json)
  | Customer_destroy (self : loc)
  | Refund_reload (self : loc)
  | Transfer_create (kwargs : gmap string json)
  | Transfer_retrieve (transfer_id : json)
  | Transfer_reload (self : loc)
  | Transfer_update (self : loc) (kwargs : gmap string json)
  | Transfer_destroy (self : loc)
  | Transaction_retrieve (transaction_id : json)
  | Transaction_reload (self : loc).

Section operations.
Context `{!Externals}.

(** A method that returns [self] returns a reference to it. *)
Definition as_ref (m : M loc) : M pyobj := self <- m ;; ret (Ref self).

Definition run (op : operation) : M pyobj :=
  match op with
  | Account_retrieve => Account.retrieve
  | Account_reload self => as_ref (Account.reload self)
  | Balance_retrieve => Balance.retrieve
  | Balance_reload self => as_ref (Balance.reload self)
  | Token_create kwargs => Token.create kwargs
  | Token_retrieve token_id => Token.retrieve token_id
  | Token_reload self => as_ref (Token.reload self)
  | Card_reload self => as_ref (Card.reload self)
  | Card_update self kwargs => as_ref (Card.update self kwargs)
  | Card_destroy self => as_ref (Card.destroy self)
  | Charge_create kwargs => Charge.create kwargs
  | Charge_retrieve charge_id => Charge.retrieve charge_id
  | Charge_reload self => as_ref (Charge.reload self)
  | Charge_update self kwargs => as_ref (Charge.update self kwargs)
  | Charge_capture self => as_ref (Charge.capture self)
  | Charge_refund self kwargs => Charge.refund self kwargs
  | Customer_create kwargs => Customer.create kwargs
  | Customer_retrieve customer_id => Customer.retrieve customer_id
  | Customer_reload self => as_ref (Customer.reload self)
  | Customer_update self kwargs => as_ref (Customer.update self kwargs)
  | Customer_destroy self => as_ref (Customer.destroy self)
  | Refund_reload self => as_ref (Refund.reload self)
  | Transfer_create kwargs => Transfer.create kwargs
  | Transfer_retrieve transfer_id => Transfer.retrieve transfer_id
  | Transfer_reload self => as_ref (Transfer.reload self)
  | Transfer_update self kwargs => as_ref (Transfer.update self kwargs)
  | Transfer_destroy self => as_ref (Transfer.destroy self)
  | Transaction_retrieve transaction_id => Transaction.retrieve transaction_id
  | Transaction_reload self => as_ref (Transaction.reload self)
  end.

End operations.

(** The credential an operation requires: the public key for the vault
    operations (those of [Token]), the secret key for all others. *)
Definition credential (op : operation) (w : world) : option string :=
  match op with
  | Token_create _ | Token_retrieve _ | Token_reload _ => api_public w
  | _ => api_secret w
  end.

(** The record at [self] holds the field [key]. *)
Definition holds (w : world) (self : loc) (key : string) : Prop :=
  ∃ i v, heap w !! self = Some i ∧ _attributes i !! key = Some v.

(** The same, with a value that is not a mapping. *)
Definition holds_plain (w : world) (self : loc) (key : string) : Prop :=
  ∃ i v, heap w !! self = Some i ∧ _attributes i !! key = Some v
         ∧ ¬ is_dict v.

(** The same, with a value that an attribute read can return: a value
    that is not a mapping, or a mapping the factory accepts. *)
Definition holds_readable (w : world) (self : loc) (key : string) : Prop :=
  ∃ i v, heap w !! self = Some i ∧ _attributes i !! key = Some v
         ∧ (¬ is_dict v
            ∨ ∃ d type, v = JDict d ∧ d !! "object" = Some type
                        ∧ hashable type).

(** The arguments of the request can be evaluated: an operation on a
    record that builds its path from a field of the record finds that
    field.  [Transfer.update] and [Transfer.destroy] read it as an
    attribute: a mapping there is materialized, which the factory must
    accept. *)
Definition ready (op : operation) (w : world) : Prop :=
  match op with
  | Token_reload self | Charge_reload self | Charge_update self _
  | Charge_capture self | Charge_refund self _ | Customer_reload self
  | Customer_update self _ | Customer_destroy self | Transfer_reload self
  | Transaction_reload self => holds w self "id"
  | Card_reload self | Card_update self _ | Card_destroy self
  | Refund_reload self => holds w self "location"
  | Transfer_update self _ | Transfer_destroy self =>
      holds_readable w self "id"
  | _ => True
  end.

(** The arguments can be evaluated without creating anything: as
    [ready], with a field that is not a mapping where it is read as an
    attribute. *)
Definition settled (op : operation) (w : world) : Prop :=
  match op with
  | Transfer_update self _ | Transfer_destroy self => holds_plain w self "id"
  | _ => ready op w
  end.

(** The configuration error of [Request.__init__]. *)
Definition key_not_set : exn := AttributeError (JStr "API key is not set.").

(** ** More example data *)

(** A charge without an identifier. *)
Definition anonymous_charge : gmap string json :=
  {[ "object" := JStr "charge"; "amount" := JInt 700 ]}.

(** A world with no credentials and one [Charge] instance, at location
    0, that has no ["id"]. *)
Definition one_anonymous_charge : world :=
  World None None {[ 0 := Instance Charge anonymous_charge ∅ ∅ ]} [].

(** The list object of the specification, and one whose first element has
    no ["id"]. *)
Definition charge_list : gmap string json :=
  {[ "object" := JStr "list";
     "data" := JList [JDict charge_1; JDict charge_2] ]}.

Definition ragged_list : gmap string json :=
  {[ "object" := JStr "list";
     "data" := JList [JDict anonymous_charge; JDict charge_2] ]}.

Definition one_collection : world :=
  World None None {[ 0 := Instance Collection charge_list ∅ ∅ ]} [].

Definition one_ragged_collection : world :=
  World None None {[ 0 := Instance Collection ragged_list ∅ ∅ ]} [].

(** ** Vocabulary for effects *)

(** A computation that sends nothing and leaves the settings alone. *)
Definition quiet {A} (m : M A) : Prop :=
  ∀ w, wire (m w).2 = wire w
       ∧ api_secret (m w).2 = api_secret w
       ∧ api_public (m w).2 = api_public w.

(** A computation that, when the setting [key] is unset, raises without
    sending anything. *)
Definition doomed {A} (key : world → option string) (m : M A) : Prop :=
  ∀ w, key w = None → wire (m w).2 = wire w ∧ ∃ e, (m w).1 = Raise e.

(** ** Vocabulary for updates *)

Section update_vocabulary.
Context `{!Externals}.

(** The [update] method of a class, for the classes that have one. *)
Definition update_method (c : cls)
    : option (loc → gmap string json → M loc) :=
  match c with
  | Card => Some Card.update
  | Charge => Some Charge.update
  | Customer => Some Customer.update
  | Transfer => Some Transfer.update
  | _ => None
  end.

(** The instance path of a record that can be updated: the name of the
    collection followed by the record's [id], or, for a card, the
    [location] the server gave.  ([Transfer] reads its [id] as an
    attribute; a mapping there would be materialized, and is left
    out.) *)
Definition instance_path (i : instance) : option json :=
  let under (collection : string) (id : json) : json :=
    JList [JStr collection; id] in
  match class_ i with
  | Card => _attributes i !! "location"
  | Charge => under "charges" <$> _attributes i !! "id"
  | Customer => under "customers" <$> _attributes i !! "id"
  | Transfer =>
      match _attributes i !! "id" with
      | Some (JDict _) | None => None
      | Some id => Some (under "transfers" id)
      end
  | _ => None
  end.

(** What the specification asks of [update], as one step: without the
    secret key, the configuration error and nothing else; otherwise one
    [PATCH] of [path] carrying [payload]; if the answer is a body that is
    not an error, the state of the record at [self] becomes that body,
    its dirty set becomes empty, and [self] is returned. *)
Definition patch (self : loc) (i : instance) (path : json)
    (payload : gmap string json) : M loc :=
  λ w,
    match api_secret w with
    | None => (Raise key_not_set, w)
    | Some key =>
        let requestor := Request.New key api_main in
        match request_url requestor path with
        | Raise e => (Raise e, w)
        | Return url =>
            let call := request_call requestor PATCH url (Some payload) None in
            match requests (wire w) call with
            | Raise e => (Raise e, sent w call)
            | Return response =>
                if eq_str (default JNone (response !! "object")) "error"
                then (Raise (ApiError (default JNone (response !! "code"))
                                      (default JNone (response !! "message"))),
                      sent w call)
                else (Return self,
                      World (api_secret w) (api_public w)
                            (<[self := Instance (class_ i) response ∅
                                                (__dict__ i)]> (heap w))
                            (wire w ++ [call]))
            end
        end
    end.

End update_vocabulary.

(** A customer with two fields written since it was loaded. *)
Definition dirty_customer : world :=
  World (Some "skey_test") (Some "pkey_test")
        {[ 0 := Instance Customer
                  (<["email" := JStr "draft@example.com"]>
                     (<["description" := JStr "vip"]> customer_1))
                  {[ "email"; "description" ]} ∅ ]} [].

(** A card and a transfer, each with one field written since it was
    loaded. *)
Definition one_card : world :=
  World (Some "skey_test") (Some "pkey_test")
        {[ 0 := Instance Card
                  (<["name" := JStr "J. Doe"]>
                     (<["location" := JStr "/customers/cust_1/cards/card_1"]>
                        card_1))
                  {[ "name" ]} ∅ ]} [].

Definition one_transfer : world :=
  World (Some "skey_test") (Some "pkey_test")
        {[ 0 := Instance Transfer
                  {[ "object" := JStr "transfer"; "id" := JStr "trsf_1";
                     "amount" := JInt 500 ]}
                  {[ "amount" ]} ∅ ]} [].

(** A transfer whose [id] field holds a mapping, in a world without
    credentials. *)
Definition one_nested_transfer : world :=
  World None None
        {[ 0 := Instance Transfer
                  {[ "object" := JStr "transfer";
                     "id" := JDict {[ "object" := JStr "transfer";
                                      "id" := JStr "trsf_1" ]} ]}
                  ∅ ∅ ]} [].

(** A charge as the API sends it, with the [capture] flag among its
    fields. *)
Definition one_flagged_charge : world :=
  World None None
        {[ 0 := Instance Charge (<["capture" := JBool true]> charge_1) ∅ ∅ ]}
        [].

(** ** Vocabulary for collections *)

(** An element that has an ["id"], and not the one looked for. *)
Definition identified_otherwise (object_id : string) (obj : json) : Prop :=
  ∃ d v, obj = JDict d ∧ d !! "id" = Some v ∧ v ≠ JStr object_id.

(** ** A second transport double

    A server that obliges: it answers every [POST] with a refund, every
    [DELETE] with a customer marked as deleted, a [GET] of the charges
    with the list of charges, and any other call with the charge
    [chrg_2]. *)
Definition refund_1 : gmap string json :=
  {[ "object" := JStr "refund"; "id" := JStr "rfnd_1"; "amount" := JInt 100 ]}.

Definition deleted_customer : gmap string json :=
  {[ "object" := JStr "customer"; "id" := JStr "cust_1";
     "deleted" := JBool true ]}.

Definition obliging : Externals := {|
  __VERSION__ := "0.5.1";
  requests := λ _ call,
    match call_method call with
    | POST => Return refund_1
    | DELETE => Return deleted_customer
    | _ =>
        if String.eqb (call_url call) "https://api.omise.co/charges"
        then Return charge_list else Return charge_2
    end;
  repr := λ _, "<repr>";
  hex_id := λ _, "0x0"
|}.

(** A world with both keys set and one [Charge] instance at
    location 0, with one field written since it was loaded. *)
Definition one_paid_charge : world :=
  World (Some "skey_test") (Some "pkey_test")
        {[ 0 := Instance Charge (<["description" := JStr "draft"]> charge_1)
                         {[ "description" ]} ∅ ]} [].

(** ** Vocabulary for the resource operations *)

(** The base URL the requests of an operation are resolved against: the
    vault for the operations of [Token], the main API for all others. *)
Definition api_base_of (op : operation) : string :=
  match op with
  | Token_create _ | Token_retrieve _ | Token_reload _ => api_vault
  | _ => api_main
  end.

(** The operations that send one request without a payload about the
    record at [self] and load the answer into it ([reload], [destroy],
    [capture]), with the HTTP method they use. *)
Definition in_place (op : operation) : option (loc * http_method) :=
  match op with
  | Account_reload self | Balance_reload self | Token_reload self
  | Card_reload self | Charge_reload self | Customer_reload self
  | Refund_reload self | Transfer_reload self | Transaction_reload self =>
      Some (self, GET)
  | Card_destroy self | Customer_destroy self | Transfer_destroy self =>
      Some (self, DELETE)
  | Charge_capture self => Some (self, POST)
  | _ => None
  end.

(** The path such an operation passes to [_request], built from the
    fields of the record [i] it runs on.  ([Transfer.destroy] reads its
    [id] as an attribute; a mapping there would be materialized, and is
    left out.) *)
Definition path_of (op : operation) (i : instance) : option json :=
  let id := _attributes i !! "id" in
  match op with
  | Account_reload _ => Some Account._instance_path
  | Balance_reload _ => Some Balance._instance_path
  | Token_reload _ => JList ∘ Token._instance_path <$> id
  | Card_reload _ | Card_destroy _ | Refund_reload _ =>
      _attributes i !! "location"
  | Charge_reload _ => JList ∘ Charge._instance_path <$> id
  | Charge_capture _ =>
      (λ id, JList (Charge._instance_path id ++ [JStr "capture"])) <$> id
  | Customer_reload _ | Customer_destroy _ =>
      JList ∘ Customer._instance_path <$> id
  | Transfer_reload _ => JList ∘ Transfer._instance_path <$> id
  | Transfer_destroy _ =>
      match id with
      | Some (JDict _) | None => None
      | Some id => Some (JList (Transfer._instance_path id))
      end
  | Transaction_reload _ => JList ∘ Transaction._instance_path <$> id
  | _ => None
  end.

(** The [destroyed] property that goes with a [destroy] operation. *)
Definition destroyed_of (op : operation) : option (M json) :=
  match op with
  | Card_destroy self => Some (Card.destroyed self)
  | Customer_destroy self => Some (Customer.destroyed self)
  | Transfer_destroy self => Some (Transfer.destroyed self)
  | _ => None
  end.

(** The operations that fetch one object by its identifier, with the
    name of their collection and the identifier they are given. *)
Definition by_id (op : operation) : option (string * json) :=
  match op with
  | Token_retrieve token_id => Some ("tokens", token_id)
  | Charge_retrieve charge_id => Some ("charges", charge_id)
  | Customer_retrieve customer_id => Some ("customers", customer_id)
  | Transfer_retrieve transfer_id => Some ("transfers", transfer_id)
  | Transaction_retrieve transaction_id => Some ("transactions", transaction_id)
  | _ => None
  end.

(** The operations that address a fixed path: the creations, the
    retrievals of the two singletons, and the retrievals that list a
    collection because the identifier they are given is not truthy.
    With each, the method, the path and the payload. *)
Definition on_collection (op : operation)
    : option (http_method * string * gmap string json) :=
  match op with
  | Account_retrieve => Some (GET, "account", ∅)
  | Balance_retrieve => Some (GET, "balance", ∅)
  | Token_create kwargs => Some (POST, "tokens", Token.transformed_args kwargs)
  | Charge_create kwargs => Some (POST, "charges", kwargs)
  | Customer_create kwargs => Some (POST, "customers", kwargs)
  | Transfer_create kwargs => Some (POST, "transfers", kwargs)
  | Charge_retrieve charge_id =>
      if truthy charge_id then None else Some (GET, "charges", ∅)
  | Transfer_retrieve transfer_id =>
      if truthy transfer_id then None else Some (GET, "transfers", ∅)
  | Transaction_retrieve transaction_id =>
      if truthy transaction_id then None else Some (GET, "transactions", ∅)
  | _ => None
  end.

(** The field of the record an operation builds its path from. *)
Definition path_field (op : operation) : option (loc * string) :=
  match op with
  | Token_reload self | Charge_reload self | Charge_update self _
  | Charge_capture self | Charge_refund self _ | Customer_reload self
  | Customer_update self _ | Customer_destroy self | Transfer_reload self
  | Transfer_update self _ | Transfer_destroy self
  | Transaction_reload self => Some (self, "id")
  | Card_reload self | Card_update self _ | Card_destroy self
  | Refund_reload self => Some (self, "location")
  | _ => None
  end.

(** What is raised when that field is missing: [KeyError] by the
    subscript [self._attributes[...]], [AttributeError] by the attribute
    access [self.id] of [Transfer.update] and [Transfer.destroy]. *)
Definition missing_field (op : operation) (field : string) : exn :=
  match op with
  | Transfer_update _ _ | Transfer_destroy _ => AttributeError (JStr field)
  | _ => KeyError (JStr field)
  end.

(** The most calls an operation hands to the transport: two for
    [Charge.refund], which reloads the charge after the refund, one for
    every other operation. *)
Definition most_calls (op : operation) : nat :=
  match op with
  | Charge_refund _ _ => 2
  | _ => 1
  end.

(** ** Vocabulary for effects, continued *)

(** A call authenticated with the key [k] alone and verified against
    the certificates that come with the module. *)
Definition authenticated (k : option string) (call : http_call) : Prop :=
  ∃ key, k = Some key ∧ call_auth call = (key, None)
         ∧ call_verify call = ca_certificates.

(** A computation that hands at most [n] calls to the transport, each
    authenticated with the setting [key], and leaves the settings and the
    calls made before alone. *)
Definition emits {A} (key : world → option string) (n : nat) (m : M A)
    : Prop :=
  ∀ w, api_secret (m w).2 = api_secret w
       ∧ api_public (m w).2 = api_public w
       ∧ ∃ calls, wire (m w).2 = wire w ++ calls
                  ∧ (length calls ≤ n)%nat
                  ∧ Forall (authenticated (key w)) calls.

(** A computation that touches no instance that exists, whatever it
    returns or raises. *)
Definition gentle {A} (m : M A) : Prop :=
  ∀ w, heap w ⊆ heap (m w).2.

(** A computation that, when it raises, has touched no instance that
    exists. *)
Definition careful {A} (m : M A) : Prop :=
  ∀ w e w', m w = (Raise e, w') → heap w ⊆ heap w'.

(** A record whose dirty names are all names of fields it has. *)
Definition tracked (i : instance) : Prop :=
  _changes i ⊆ dom (_attributes i).

(** The discriminator that stands for a class in decoded data: the
    class name in lower case, and [list] for [Collection]. *)
Definition discriminator (c : cls) : string :=
  match c with
  | Collection => "list"
  | _ => lower (__name__ c)
  end.

(** ** Vocabulary for records, continued *)

(** The data of the last load among [actions], or [data] when there is
    none. *)
Fixpoint last_loaded (data : gmap string json) (actions : list action)
    : gmap string json :=
  match actions with
  | [] => data
  | Reload data' :: rest => last_loaded data' rest
  | Write _ _ :: rest => last_loaded data rest
  end.

(** The number of mappings of a decoded value that are reached through
    lists alone: the mappings the factory turns into instances. *)
Fixpoint mappings (data : json) : nat :=
  match data with
  | JList l =>
      (fix each (l : list json) : nat :=
         match l with
         | [] => 0
         | i :: rest => mappings i + each rest
         end) l
  | JDict _ => 1
  | _ => 0
  end.

(** The name under which [Token.create] sends a field of the card. *)
Definition card_field (key : string) : string := "card[" +:+ key +:+ "]".

(** * Properties *)

(** ** The monad *)

Lemma bind_return {A B} (m : M A) (k : A → M B) w a w' :
  m w = (Return a, w') → bind m k w = k a w'.
Proof. unfold bind. by intros ->. Qed.

Lemma bind_raise {A B} (m : M A) (k : A → M B) w e w' :
  m w = (Raise e, w') → bind m k w = (Raise e, w').
Proof. unfold bind. by intros ->. Qed.

Lemma bind_assoc {A B C} (m : M A) (k : A → M B) (h : B → M C) w :
  bind (bind m k) h w = bind m (λ a, bind (k a) h) w.
Proof. unfold bind. by destruct (m w) as [[a|e] w']. Qed.

Lemma deref_some self i w :
  heap w !! self = Some i → deref self w = (Return i, w).
Proof. unfold deref. by intros ->. Qed.

Lemma with_heap_same w : with_heap w (heap w) = w.
Proof. by destruct w. Qed.

(** ** Loading and change tracking *)

(** The copy loop of [_reload_data] rebuilds the mapping it is given. *)
Lemma copy_entries (data : gmap string json) :
  map_fold (λ k v d, <[k := v]> d) ∅ data = data.
Proof.
  apply (map_fold_weak_ind (λ r m, r = m)); [done|].
  by intros k v m r _ ->.
Qed.

Lemma _reload_data_spec self i data w :
  heap w !! self = Some i →
  _reload_data self data w =
    (Return self,
     with_heap w (<[self := Instance (class_ i) data ∅ (__dict__ i)]> (heap w))).
Proof.
  intros Hi. unfold _reload_data.
  rewrite (bind_return _ _ _ _ _ (deref_some _ _ _ Hi)).
  by rewrite copy_entries.
Qed.

Lemma from_data_spec c d w :
  from_data c d w =
    (Return (fresh (dom (heap w))),
     with_heap w (<[fresh (dom (heap w)) := Instance c d ∅ ∅]> (heap w))).
Proof.
  unfold from_data, __init__, alloc, bind at 1. simpl.
  erewrite (bind_return (_reload_data _ _)).
  2:{ apply _reload_data_spec. simpl. apply lookup_insert_eq. }
  unfold ret, with_heap. simpl. by rewrite insert_insert_eq.
Qed.

Lemma __setattr___public self i key value w :
  heap w !! self = Some i → public key →
  __setattr__ self key value w =
    (Return tt,
     with_heap w (<[self := Instance (class_ i) (<[key := value]> (_attributes i))
                                     ({[key]} ∪ _changes i) (__dict__ i)]>
                    (heap w))).
Proof.
  intros Hi Hk. destruct key as [|c key]; [done|]. simpl in Hk.
  unfold __setattr__.
  rewrite (bind_return _ _ _ _ _ (deref_some _ _ _ Hi)).
  by rewrite bool_decide_false.
Qed.

Lemma changes_spec self i w :
  heap w !! self = Some i → changes self w = (Return (pending i), w).
Proof.
  intros Hi. unfold changes.
  by rewrite (bind_return _ _ _ _ _ (deref_some _ _ _ Hi)).
Qed.

Lemma lookup_pending i k :
  pending i !! k =
    if decide (k ∈ _changes i) then Some (default JNone (_attributes i !! k))
    else None.
Proof.
  unfold pending. case_decide as Hk.
  - apply lookup_set_to_map; [by intros ???? [=]|]. eauto.
  - apply eq_None_not_Some. intros [x Hx].
    apply lookup_set_to_map in Hx as (y & Hy & [= -> _]); [done|].
    by intros ???? [=].
Qed.

(** Writing a public field adds exactly that binding to the dirty
    mapping. *)
Lemma pending_write i key value :
  pending (Instance (class_ i) (<[key := value]> (_attributes i))
                    ({[key]} ∪ _changes i) (__dict__ i))
  = <[key := value]> (pending i).
Proof.
  apply map_eq. intros k. rewrite lookup_pending. simpl.
  destruct (decide (k = key)) as [->|Hne].
  - rewrite lookup_insert_eq, decide_True by set_solver.
    by rewrite lookup_insert_eq.
  - rewrite !lookup_insert_ne by done. rewrite lookup_pending.
    repeat case_decide; set_solver.
Qed.

Lemma pending_reload c data d : pending (Instance c data ∅ d) = ∅.
Proof.
  apply map_eq. intros k. rewrite lookup_pending, lookup_empty. simpl.
  by rewrite decide_False by set_solver.
Qed.

(** The specification's mapping, read back: a name is bound exactly when
    it was written since the last load, and it is bound to the value of
    the last such write. *)
Lemma dirty_fields_names actions k :
  is_Some (dirty_fields actions !! k) ↔ k ∈ (written_since_load actions).*1.
Proof.
  unfold dirty_fields. rewrite <-elem_of_dom, dom_list_to_map_L.
  rewrite elem_of_list_to_set, fmap_reverse. apply elem_of_reverse.
Qed.

Lemma dirty_fields_last_written actions k v :
  dirty_fields actions !! k = Some v ↔
  ∃ before after,
    written_since_load actions = before ++ (k, v) :: after ∧ k ∉ after.*1.
Proof.
  unfold dirty_fields. generalize (written_since_load actions) as ws.
  induction ws as [|[k' v'] ws IH] using rev_ind.
  - simpl. rewrite lookup_empty. split; [done|].
    intros (before & after & Heq & _). by destruct before.
  - rewrite reverse_snoc. simpl. destruct (decide (k' = k)) as [->|Hne].
    + rewrite lookup_insert_eq. split.
      * intros [= ->]. exists ws, []. split; [done|]. simpl. apply not_elem_of_nil.
      * intros (before & after & Heq & Hnotin).
        destruct after as [|a after _] using rev_ind.
        -- apply app_inj_tail in Heq as [_ [= ->]]. done.
        -- rewrite app_comm_cons, app_assoc in Heq.
           apply app_inj_tail in Heq as [_ <-].
           rewrite fmap_app in Hnotin. simpl in Hnotin. set_solver.
    + rewrite lookup_insert_ne by done. rewrite IH. split.
      * intros (before & after & -> & Hnotin).
        exists before, (after ++ [(k', v')]). split.
        -- by rewrite <-app_assoc.
        -- rewrite fmap_app. simpl. set_solver.
      * intros (before & after & Heq & Hnotin).
        destruct after as [|a after _] using rev_ind.
        -- apply app_inj_tail in Heq as [_ [= ? _]]. done.
        -- rewrite app_comm_cons, app_assoc in Heq.
           apply app_inj_tail in Heq as [-> <-].
           exists before, after. split; [done|].
           rewrite fmap_app in Hnotin. set_solver.
Qed.

Lemma dirty_fields_write_last key value rest m :
  existsb is_reload rest = false →
  dirty_fields (Write key value :: rest) ∪ m
  = dirty_fields rest ∪ <[key := value]> m.
Proof.
  intros Hrest. unfold dirty_fields. simpl. rewrite Hrest.
  rewrite reverse_cons, list_to_map_app. simpl.
  rewrite <-(assoc_L (∪)). f_equal.
  by rewrite insert_empty, <-insert_union_singleton_l.
Qed.

Lemma dirty_fields_skip a rest :
  existsb is_reload rest = true ∨ is_reload a = true →
  dirty_fields (a :: rest) = dirty_fields rest.
Proof.
  unfold dirty_fields. destruct a as [key value|data]; simpl; [|done].
  intros [->|[=]]. done.
Qed.

(** Playing a sequence of public writes and loads never fails, and leaves
    the record with the dirty mapping the specification describes. *)
Lemma play_spec self actions :
  writes_public actions →
  ∀ i w, heap w !! self = Some i →
  ∃ i' w',
    play self actions w = (Return tt, w') ∧
    heap w' !! self = Some i' ∧
    class_ i' = class_ i ∧
    wire w' = wire w ∧
    pending i' =
      dirty_fields actions
      ∪ (if existsb is_reload actions then ∅ else pending i).
Proof.
  induction 1 as [|a rest Ha _ IH]; intros i w Hi.
  - exists i, w. repeat split; [done|]. simpl. unfold dirty_fields. simpl.
    by rewrite (left_id_L ∅ (∪)).
  - destruct a as [key value|data]; simpl.
    + pose proof (__setattr___public self i key value w Hi Ha) as Hset.
      set (i1 := Instance _ _ _ _) in Hset. set (w1 := with_heap _ _) in Hset.
      destruct (IH i1 w1) as (i' & w' & Hplay & Hi' & Hc & Hw & Hp).
      { unfold w1. simpl. apply lookup_insert_eq. }
      exists i', w'. rewrite (bind_return _ _ _ _ _ Hset).
      repeat split; [done..|]. rewrite Hp. unfold i1.
      rewrite pending_write.
      destruct (existsb is_reload rest) eqn:Hrest.
      * by rewrite dirty_fields_skip by auto.
      * by rewrite dirty_fields_write_last.
    + pose proof (_reload_data_spec self i data w Hi) as Hload.
      set (i1 := Instance _ _ _ _) in Hload. set (w1 := with_heap _ _) in Hload.
      destruct (IH i1 w1) as (i' & w' & Hplay & Hi' & Hc & Hw & Hp).
      { unfold w1. simpl. apply lookup_insert_eq. }
      exists i', w'. unfold bind at 1. unfold bind at 1. rewrite Hload.
      simpl. repeat split; [done..|]. rewrite Hp. unfold i1.
      rewrite pending_reload, dirty_fields_skip by auto.
      by destruct (existsb is_reload rest).
Qed.

(** C3. [load] ([_reload_data]) replaces the whole field mapping of the
    record by the entries of the mapping it is given, empties the dirty
    set and returns the record itself; and after any interleaving of
    writes to non-underscore fields and loads, [changes] is exactly the
    mapping of the names written since the last load, each to the raw
    value written last (when the interleaving contains no load, the
    fields that were already dirty stay dirty; a record that comes from
    [from_data] starts with none). *)
Theorem change_tracking self i w data actions :
  heap w !! self = Some i →
  writes_public actions →
  _reload_data self data w =
    (Return self,
     with_heap w (<[self := Instance (class_ i) data ∅ (__dict__ i)]> (heap w)))
  ∧ changes self (snd (_reload_data self data w)) =
      (Return ∅, snd (_reload_data self data w))
  ∧ (∃ w',
      play self actions w = (Return tt, w') ∧
      changes self w' =
        (Return (dirty_fields actions
                 ∪ (if existsb is_reload actions then ∅ else pending i)),
         w'))
  ∧ ∀ c, ∃ w',
      (record <- from_data c data ;;
       play record actions ;;;
       changes record) w = (Return (dirty_fields actions), w').
Proof.
  intros Hi Hpub. split; [|split; [|split]].
  - by apply _reload_data_spec.
  - rewrite (_reload_data_spec _ _ _ _ Hi). simpl.
    erewrite changes_spec by apply lookup_insert_eq.
    by rewrite pending_reload.
  - destruct (play_spec self actions Hpub i w Hi)
      as (i' & w' & Hplay & Hi' & _ & _ & Hp).
    exists w'. split; [done|]. by rewrite (changes_spec _ _ _ Hi'), Hp.
  - intros c. rewrite (bind_return _ _ _ _ _ (from_data_spec c data w)).
    set (record := fresh (dom (heap w))). set (w1 := with_heap w _).
    destruct (play_spec record actions Hpub (Instance c data ∅ ∅) w1)
      as (i' & w' & Hplay & Hi' & _ & _ & Hp).
    { unfold w1. simpl. apply lookup_insert_eq. }
    exists w'. rewrite (bind_return _ _ _ _ _ Hplay).
    rewrite (changes_spec _ _ _ Hi'), Hp, pending_reload.
    destruct (existsb is_reload actions); by rewrite (right_id_L ∅ (∪)).
Qed.

Lemma change_tracking_witness :
  ∃ w',
    play 0 [Write "description" (JStr "first"); Reload charge_2;
            Write "description" (JStr "second"); Write "amount" (JInt 1);
            Write "description" (JStr "third")] one_charge
    = (Return tt, w') ∧
    changes 0 w' =
      (Return {[ "description" := JStr "third"; "amount" := JInt 1 ]}, w').
Proof.
  destruct (change_tracking 0 (Instance Charge charge_1 ∅ ∅) one_charge ∅
              [Write "description" (JStr "first"); Reload charge_2;
               Write "description" (JStr "second"); Write "amount" (JInt 1);
               Write "description" (JStr "third")])
    as (_ & _ & (w' & Hplay & Hchanges) & _).
  - reflexivity.
  - repeat constructor; simpl; discriminate.
  - exists w'. split; [exact Hplay|].
    rewrite Hchanges. f_equal.
Defined.

(** ** The object factory *)

Lemma bind_ext {A B} (m m' : M A) (k k' : A → M B) w :
  m w = m' w → (∀ a w', k a w' = k' a w') → bind m k w = bind m' k' w.
Proof. unfold bind. intros -> Hk. destruct (m' w) as [[a|e] w']; auto. Qed.

Lemma traverse_threaded {A B} (f : A → M B) l w ys w' :
  traverse f l w = (Return ys, w') ↔ threaded f l w ys w'.
Proof.
  revert w ys. induction l as [|x l IH]; intros w ys; simpl.
  - split.
    + intros [= <- <-]. constructor.
    + inversion 1. done.
  - unfold bind at 1. destruct (f x w) as [[y|e] w1] eqn:Hx.
    + unfold bind at 1. destruct (traverse f l w1) as [[ys1|e] w2] eqn:Hl.
      * split.
        -- intros [= <- <-]. econstructor; [done|]. by apply IH.
        -- inversion 1 as [|? ? ? ? ? ? ? Hx' Hl']; subst.
           rewrite Hx in Hx'. injection Hx' as <- <-.
           apply IH in Hl'. rewrite Hl in Hl'. by injection Hl' as <- <-.
      * split; [done|].
        inversion 1 as [|? ? ? ? ? ? ? Hx' Hl']; subst.
        rewrite Hx in Hx'. injection Hx' as <- <-.
        apply IH in Hl'. by rewrite Hl in Hl'.
    + split; [done|].
      inversion 1 as [|? ? ? ? ? ? ? Hx' Hl']; subst. by rewrite Hx in Hx'.
Qed.

Lemma threaded_length {A B} (f : A → M B) l w ys w' :
  threaded f l w ys w' → length ys = length l.
Proof. induction 1; simpl; auto. Qed.

(** A list is materialized element by element, in order. *)
Lemma _as_object_list l w :
  _as_object (JList l) w = (objs <- traverse _as_object l ;; ret (PyList objs)) w.
Proof.
  simpl. apply bind_ext; [|done]. revert w.
  induction l as [|x l IH]; intros w; simpl; [done|].
  apply bind_ext; [done|]. intros o w1.
  apply bind_ext; [apply IH|done].
Qed.

Lemma _get_class_for_hashable type w :
  hashable type → _get_class_for type w = (Return (registered type), w).
Proof. by destruct type. Qed.

(** A mapping with a hashable discriminator becomes a new, clean instance
    of the registered class, or of [Base]. *)
Lemma _as_object_dict d type w :
  d !! "object" = Some type → hashable type →
  _as_object (JDict d) w =
    (Return (Ref (fresh (dom (heap w)))),
     with_heap w (<[fresh (dom (heap w)) :=
                      Instance (default Base (registered type)) d ∅ ∅]>
                    (heap w))).
Proof.
  intros Hd Hh. simpl. unfold getitem. rewrite Hd.
  unfold bind at 1. unfold ret at 1.
  rewrite (bind_return _ _ _ _ _ (_get_class_for_hashable _ _ Hh)).
  rewrite (bind_return _ _ _ _ _ (from_data_spec _ _ _)).
  by destruct (registered type).
Qed.

Lemma _as_object_no_discriminator d w :
  d !! "object" = None →
  _as_object (JDict d) w = (Raise (KeyError (JStr "object")), w).
Proof. intros Hd. simpl. unfold getitem. by rewrite Hd. Qed.

Lemma _as_object_other v w :
  ¬ is_list v → ¬ is_dict v → _as_object v w = (Return (Plain v), w).
Proof.
  intros Hl Hd. destruct v; try done.
  - destruct Hl. by eexists.
  - destruct Hd. by eexists.
Qed.

(** Induction on decoded values, through the lists they contain. *)
Lemma json_list_ind (P : json → Prop) :
  (∀ l, Forall P l → P (JList l)) →
  (∀ v, ¬ is_list v → P v) →
  ∀ v, P v.
Proof.
  intros Hlist Hother. fix IH 1. intros v.
  destruct v as [| b | n | s | l | d];
    try (apply Hother; by intros [? [=]]).
  apply Hlist. induction l as [|x l IHl]; constructor; [apply IH|apply IHl].
Qed.

Lemma extends_refl w : extends w w.
Proof. by repeat split. Qed.

Lemma extends_trans w1 w2 w3 : extends w1 w2 → extends w2 w3 → extends w1 w3.
Proof.
  intros (? & ? & ? & ?) (? & ? & ? & ?).
  repeat split; [by etrans|congruence..].
Qed.

Lemma extends_alloc w i :
  extends w (with_heap w (<[fresh (dom (heap w)) := i]> (heap w))).
Proof.
  repeat split. simpl. apply insert_subseteq, not_elem_of_dom, is_fresh.
Qed.

Lemma view_list h l :
  view h (PyList l) = Sequence <$> mapM (view h) l.
Proof.
  reflexivity.
Qed.

Lemma pyobj_list_ind (P : pyobj → Prop) :
  (∀ j, P (Plain j)) →
  (∀ l, Forall P l → P (PyList l)) →
  (∀ l, P (Ref l)) →
  ∀ o, P o.
Proof.
  intros Hplain Hlist Href. fix IH 1.
  intros [j | l | l]; [apply Hplain| |apply Href].
  apply Hlist. induction l as [|x l IHl]; constructor; [apply IH|apply IHl].
Qed.

Lemma view_mono h h' o s : h ⊆ h' → view h o = Some s → view h' o = Some s.
Proof.
  intros Hsub. revert s.
  induction o as [j | l IH | l] using pyobj_list_ind; intros s.
  - done.
  - rewrite !view_list. intros Hs.
    destruct (mapM (view h) l) as [ss|] eqn:Hss; [|done].
    injection Hs as <-. cut (mapM (view h') l = Some ss); [by intros ->|].
    apply mapM_Some. apply mapM_Some in Hss.
    revert IH. induction Hss as [|o s l ss Ho _ IHl]; [constructor|].
    intros [Ho' Hl']%Forall_cons. constructor; auto.
  - simpl. destruct (h !! l) as [i|] eqn:Hi; [|done].
    by rewrite (lookup_weaken _ _ _ _ Hi Hsub).
Qed.

Lemma refs_list l : refs (PyList l) = concat (refs <$> l).
Proof. simpl. induction l as [|o l IH]; [done|]. simpl. by rewrite IH. Qed.

Lemma extends_dom w w' l : extends w w' → l ∈ dom (heap w) → l ∈ dom (heap w').
Proof. intros [Hsub _]. apply subseteq_dom in Hsub. set_solver. Qed.

(** Whatever it is given, the factory sends nothing and touches no
    existing instance; when it returns, its result is a materialization
    of its argument. *)
Lemma _as_object_effect v w :
  match _as_object v w with
  | (Return o, w') => extends w w' ∧ materializes v w o w'
  | (Raise _, w') => extends w w'
  end.
Proof.
  revert w. induction v as [l IH | v Hv] using json_list_ind; intros w.
  - rewrite _as_object_list.
    assert (match traverse _as_object l w with
            | (Return os, w') =>
                extends w w' ∧ materializes (JList l) w (PyList os) w'
            | (Raise _, w') => extends w w'
            end) as Hl.
    { revert w. induction IH as [|x l Hx _ IHl]; intros w.
      - split; [apply extends_refl|].
        split; [done|split; [apply NoDup_nil_2|by intros ? ?%elem_of_nil]].
      - simpl. unfold bind. specialize (Hx w).
        destruct (_as_object x w) as [[o|e] w1]; [|done].
        destruct Hx as (Hext1 & Hview & Hnd & Hnew).
        specialize (IHl w1).
        destruct (traverse _as_object l w1) as [[os|e] w2];
          [|by eapply extends_trans].
        destruct IHl as (Hext2 & Hviews & Hnds & Hnews). simpl.
        split; [by eapply extends_trans|]. split; [|split].
        + rewrite view_list in Hviews. rewrite view_list.
          destruct (mapM (view (heap w2)) os) as [ss|] eqn:Hss; [|done].
          injection Hviews as Hviews.
          assert (mapM (view (heap w2)) (o :: os)
                  = Some (materialized x :: ss)) as ->.
          { apply mapM_Some. constructor; [|by apply mapM_Some].
            eapply view_mono; [apply Hext2|done]. }
          simpl. by rewrite Hviews.
        + rewrite refs_list in Hnds, Hnews. rewrite refs_list. simpl.
          apply NoDup_app. split; [done|]. split; [|done].
          intros l' Hl' Hl''. apply Hnews in Hl'' as [Hfresh _].
          apply Hnew in Hl' as [_ Hin]. done.
        + rewrite refs_list in Hnews. rewrite refs_list. simpl.
          intros l' [Hl'|Hl']%elem_of_app.
          * apply Hnew in Hl' as [? ?]. split; [done|].
            by eapply extends_dom.
          * apply Hnews in Hl' as [Hfresh ?]. split; [|done].
            intros ?. apply Hfresh. by eapply extends_dom. }
    unfold bind. by destruct (traverse _as_object l w) as [[os|e] w'].
  - destruct v as [| b | n | s | l | d];
      try (split; [apply extends_refl|];
           split; [done|split; [apply NoDup_nil_2|by intros ? ?%elem_of_nil]]).
    { destruct Hv. by eexists. }
    destruct (d !! "object") as [type|] eqn:Hd.
    2:{ rewrite (_as_object_no_discriminator _ _ Hd). apply extends_refl. }
    destruct type as [| b | n | s | l | d'];
      try (rewrite (_as_object_dict _ _ _ Hd I); split;
           [apply extends_alloc|];
           (split; [|split]);
           [ simpl; by rewrite lookup_insert_eq, Hd
           | apply NoDup_singleton
           | intros ? ->%list_elem_of_singleton; split;
             [apply is_fresh | apply elem_of_dom; simpl; by rewrite lookup_insert_eq] ]).
    + simpl. unfold getitem. rewrite Hd. apply extends_refl.
    + simpl. unfold getitem. rewrite Hd. apply extends_refl.
Qed.

Lemma _as_object_unhashable d type w :
  d !! "object" = Some type → ¬ hashable type →
  ∃ msg, _as_object (JDict d) w = (Raise (TypeError msg), w).
Proof.
  intros Hd Hh. simpl. unfold getitem. rewrite Hd.
  destruct type; try (by destruct Hh); by eexists.
Qed.

Lemma registry_has_no_Base s : registry !! s ≠ Some Base.
Proof.
  intros Hs. apply elem_of_list_to_map_2 in Hs.
  repeat (apply elem_of_cons in Hs as [[=]|Hs]).
  by apply elem_of_nil in Hs.
Qed.

Lemma registered_not_Base type : registered type ≠ Some Base.
Proof. destruct type; try done. apply registry_has_no_Base. Qed.

(** C4 (as amended).  The factory maps a list to a new list of the
    materializations of its elements, made one after the other in the
    order of the list (and raises when one of them raises); it maps a
    mapping whose ["object"] entry is present and hashable to a new
    instance of the class registered for that discriminator, or of
    [Base] when the discriminator is not in the registry, loaded with the
    mapping; it raises [KeyError] on a mapping without an ["object"]
    entry and [TypeError] on one whose ["object"] entry is a list or a
    mapping; it returns any other value unchanged.  Whenever it returns,
    no instance that existed before is touched, the instances the result
    refers to are new and distinct, and the result has the shape the
    specification gives to the materialization of the argument. *)
Theorem factory_cases :
  (∀ l w o w',
     _as_object (JList l) w = (Return o, w') ↔
     ∃ objs, o = PyList objs ∧ threaded _as_object l w objs w')
  ∧ (∀ l w e w',
     _as_object (JList l) w = (Raise e, w') ↔
     traverse _as_object l w = (Raise e, w'))
  ∧ (∀ d type w,
     d !! "object" = Some type → hashable type →
     _as_object (JDict d) w =
       (Return (Ref (fresh (dom (heap w)))),
        with_heap w (<[fresh (dom (heap w)) :=
                         Instance (default Base (registered type)) d ∅ ∅]>
                       (heap w))))
  ∧ (∀ d w,
     d !! "object" = None →
     _as_object (JDict d) w = (Raise (KeyError (JStr "object")), w))
  ∧ (∀ d type w,
     d !! "object" = Some type → ¬ hashable type →
     ∃ msg, _as_object (JDict d) w = (Raise (TypeError msg), w))
  ∧ (∀ v w,
     ¬ is_list v → ¬ is_dict v → _as_object v w = (Return (Plain v), w))
  ∧ (∀ data w o w',
     _as_object data w = (Return o, w') →
     extends w w' ∧ materializes data w o w').
Proof.
  split; [|split; [|split; [|split; [|split; [|split]]]]].
  - intros l w o w'. rewrite _as_object_list. unfold bind.
    destruct (traverse _as_object l w) as [[objs|e] w1] eqn:Hl.
    + apply traverse_threaded in Hl. split.
      * intros [= <- <-]. eauto.
      * intros (objs' & -> & Hl'). apply traverse_threaded in Hl, Hl'.
        rewrite Hl in Hl'. by injection Hl' as -> ->.
    + split; [done|]. intros (objs' & -> & Hl').
      apply traverse_threaded in Hl'. by rewrite Hl in Hl'.
  - intros l w e w'. rewrite _as_object_list. unfold bind.
    destruct (traverse _as_object l w) as [[objs|e'] w1]; simpl.
    + unfold ret. split; by intros [=].
    + split; by intros [= -> ->].
  - apply _as_object_dict.
  - apply _as_object_no_discriminator.
  - apply _as_object_unhashable.
  - apply _as_object_other.
  - intros data w o w' Hrun. pose proof (_as_object_effect data w) as Heff.
    by rewrite Hrun in Heff.
Qed.

Lemma factory_cases_witness :
  _as_object (JDict charge_1) one_charge =
    (Return (Ref 1),
     with_heap one_charge
       (<[1 := Instance Charge charge_1 ∅ ∅]> (heap one_charge)))
  ∧ _as_object (JDict {[ "object" := JStr "dispute" ]}) one_charge =
    (Return (Ref 1),
     with_heap one_charge
       (<[1 := Instance Base {[ "object" := JStr "dispute" ]} ∅ ∅]>
          (heap one_charge)))
  ∧ _as_object (JInt 7) one_charge = (Return (Plain (JInt 7)), one_charge).
Proof.
  destruct factory_cases as (_ & _ & Hdict & _ & _ & Hother & _).
  split; [|split].
  - apply (Hdict charge_1 (JStr "charge") one_charge); [reflexivity|exact I].
  - apply (Hdict {[ "object" := JStr "dispute" ]} (JStr "dispute") one_charge);
      [reflexivity|exact I].
  - apply (Hother (JInt 7) one_charge); intros [? [=]].
Defined.

(** C4, as stated, fails: a discriminator that is a list is not in the
    registry, yet the factory raises instead of falling back to [Base];
    and a mapping with no discriminator at all is not mapped to an
    instance either. *)
Lemma factory_not_total_on_dicts :
  registered (JList []) = None
  ∧ _as_object (JDict {[ "object" := JList [] ]}) one_charge =
      (Raise (TypeError "unhashable type: 'list'"), one_charge)
  ∧ _as_object (JDict {[ "id" := JStr "chrg_1" ]}) one_charge =
      (Raise (KeyError (JStr "object")), one_charge).
Proof. repeat split. Qed.

(** C10.  On a mapping without the ["object"] key the factory raises
    [KeyError] and never produces the generic record; an instance of
    [Base] comes out only when the key is present and its value is not in
    the registry. *)
Theorem missing_discriminator :
  (∀ d w,
     d !! "object" = None →
     _as_object (JDict d) w = (Raise (KeyError (JStr "object")), w))
  ∧ (∀ d w l w' i,
     _as_object (JDict d) w = (Return (Ref l), w') →
     heap w' !! l = Some i →
     class_ i = Base →
     ∃ type, d !! "object" = Some type ∧ registered type = None).
Proof.
  split; [apply _as_object_no_discriminator|].
  intros d w l w' i Hrun Hl Hclass.
  destruct (d !! "object") as [type|] eqn:Hd.
  2:{ by rewrite (_as_object_no_discriminator _ _ Hd) in Hrun. }
  exists type. split; [done|].
  assert (hashable type) as Hh.
  { destruct type; try done; simpl in Hrun; unfold getitem in Hrun;
      by rewrite Hd in Hrun. }
  rewrite (_as_object_dict _ _ _ Hd Hh) in Hrun.
  injection Hrun as <- <-. simpl in Hl. rewrite lookup_insert_eq in Hl.
  injection Hl as <-. simpl in Hclass.
  destruct (registered type) as [c|] eqn:Hreg; [|done].
  simpl in Hclass. subst c. by apply registered_not_Base in Hreg.
Qed.

Lemma missing_discriminator_witness :
  _as_object (JDict {[ "id" := JStr "chrg_1" ]}) one_charge =
    (Raise (KeyError (JStr "object")), one_charge)
  ∧ ∃ type, ({[ "object" := JStr "dispute" ]} : gmap string json) !! "object"
            = Some type ∧ registered type = None.
Proof.
  destruct missing_discriminator as [Habsent Honly]. split.
  - apply (Habsent {[ "id" := JStr "chrg_1" ]} one_charge). reflexivity.
  - apply (Honly {[ "object" := JStr "dispute" ]} one_charge 1
             (with_heap one_charge
                (<[1 := Instance Base {[ "object" := JStr "dispute" ]} ∅ ∅]>
                   (heap one_charge)))
             (Instance Base {[ "object" := JStr "dispute" ]} ∅ ∅));
      reflexivity.
Defined.

(** ** Reading a field *)

Lemma __getattr___public self i key w :
  heap w !! self = Some i → public key →
  __getattr__ self key w =
    except_KeyError_raise_AttributeError
      (value <- getitem (_attributes i) key ;;
       match value with
       | JDict _ => _as_object value
       | _ => ret (Plain value)
       end) w.
Proof.
  intros Hi Hk. destruct key as [|c key]; [done|]. simpl in Hk.
  unfold __getattr__. rewrite bool_decide_false by done.
  unfold except_KeyError_raise_AttributeError.
  by rewrite (bind_return _ _ _ _ _ (deref_some _ _ _ Hi)).
Qed.

Lemma __getattr___dict self i key d w :
  heap w !! self = Some i → public key →
  _attributes i !! key = Some (JDict d) →
  __getattr__ self key w =
    except_KeyError_raise_AttributeError (_as_object (JDict d)) w.
Proof.
  intros Hi Hk Hd. rewrite (__getattr___public _ _ _ _ Hi Hk).
  unfold except_KeyError_raise_AttributeError, getitem. rewrite Hd.
  by unfold bind at 1, ret at 1.
Qed.

Lemma __getattr___materializes self i key d type w :
  heap w !! self = Some i → public key →
  _attributes i !! key = Some (JDict d) →
  d !! "object" = Some type → hashable type →
  __getattr__ self key w =
    (Return (Ref (fresh (dom (heap w)))),
     with_heap w (<[fresh (dom (heap w)) :=
                      Instance (default Base (registered type)) d ∅ ∅]>
                    (heap w))).
Proof.
  intros Hi Hk Hd Ht Hh. rewrite (__getattr___dict _ _ _ _ _ Hi Hk Hd).
  unfold except_KeyError_raise_AttributeError.
  by rewrite (_as_object_dict _ _ _ Ht Hh).
Qed.

(** A name that is neither a method nor a property of the class is
    looked up by [__getattr__]. *)
Lemma getattr_field self i key w :
  heap w !! self = Some i → public key →
  key ∉ methods (class_ i) → key ∉ properties (class_ i) →
  getattr self key w = (value <- __getattr__ self key ;; ret (Value value)) w.
Proof.
  intros Hi Hpublic Hmethod Hproperty. unfold getattr.
  rewrite (bind_return _ _ _ _ _ (deref_some _ _ _ Hi)).
  rewrite bool_decide_false by done.
  rewrite bool_decide_false.
  2:{ intros ->. apply Hproperty. unfold properties. set_solver. }
  rewrite bool_decide_false by done.
  destruct key as [|c key]; [done|]. simpl in Hpublic.
  by rewrite bool_decide_false.
Qed.

(** C5 (as amended).  Reading, as an attribute, a name that does not
    start with an underscore and is neither a method nor a property of
    the class of the record: an absent name raises [AttributeError]; a
    stored mapping goes through the factory at every read, so that two
    reads in a row give two different new instances of the same shape
    while the record keeps the raw mapping; any other stored value, a
    list of mappings included, is returned as it is stored. *)
Theorem field_read self i key w :
  heap w !! self = Some i →
  public key →
  key ∉ methods (class_ i) →
  key ∉ properties (class_ i) →
  (_attributes i !! key = None →
     getattr self key w = (Raise (AttributeError (JStr key)), w))
  ∧ (∀ d, _attributes i !! key = Some (JDict d) →
       getattr self key w =
         (value <- except_KeyError_raise_AttributeError (_as_object (JDict d)) ;;
          ret (Value value)) w
       ∧ ∀ type, d !! "object" = Some type → hashable type →
           ∃ l1 w1 l2 w2,
             getattr self key w = (Return (Value (Ref l1)), w1)
             ∧ getattr self key w1 = (Return (Value (Ref l2)), w2)
             ∧ (l1 ∉ dom (heap w)) ∧ (l2 ∉ dom (heap w1)) ∧ l1 ≠ l2
             ∧ heap w2 !! self = Some i
             ∧ view (heap w2) (Ref l1) = Some (materialized (JDict d))
             ∧ view (heap w2) (Ref l2) = Some (materialized (JDict d)))
  ∧ (∀ v, _attributes i !! key = Some v → ¬ is_dict v →
       getattr self key w = (Return (Value (Plain v)), w)).
Proof.
  intros Hi Hk Hmethod Hproperty. split; [|split].
  - intros Hnone. rewrite (getattr_field _ _ _ _ Hi Hk Hmethod Hproperty).
    erewrite bind_raise; [reflexivity|].
    rewrite (__getattr___public _ _ _ _ Hi Hk).
    unfold except_KeyError_raise_AttributeError, getitem. by rewrite Hnone.
  - intros d Hd. split.
    { rewrite (getattr_field _ _ _ _ Hi Hk Hmethod Hproperty).
      apply bind_ext; [|done]. by apply (__getattr___dict self i). }
    intros type Ht Hh.
    pose proof (__getattr___materializes self i key d type w Hi Hk Hd Ht Hh)
      as H1.
    set (l1 := fresh (dom (heap w))) in *.
    set (w1 := with_heap w _) in *.
    assert (l1 ∉ dom (heap w)) as Hl1 by apply is_fresh.
    assert (l1 ≠ self) as Hne.
    { intros ->. apply Hl1, elem_of_dom. eauto. }
    assert (heap w1 !! self = Some i) as Hi1.
    { unfold w1. simpl. by rewrite lookup_insert_ne. }
    pose proof (__getattr___materializes self i key d type w1 Hi1 Hk Hd Ht Hh)
      as H2.
    set (l2 := fresh (dom (heap w1))) in *.
    set (w2 := with_heap w1 _) in *.
    assert (l2 ∉ dom (heap w1)) as Hl2 by apply is_fresh.
    assert (l1 ∈ dom (heap w1)) as Hin.
    { unfold w1. simpl. apply elem_of_dom. rewrite lookup_insert_eq. eauto. }
    assert (l2 ≠ l1) as Hne12 by (by intros ->).
    assert (l2 ≠ self) as Hne2.
    { intros ->. apply Hl2, elem_of_dom. eauto. }
    exists l1, w1, l2, w2.
    rewrite (getattr_field _ _ _ _ Hi Hk Hmethod Hproperty).
    rewrite (getattr_field _ _ _ _ Hi1 Hk Hmethod Hproperty).
    rewrite (bind_return _ _ _ _ _ H1), (bind_return _ _ _ _ _ H2).
    repeat split; try done.
    + unfold w2. simpl. by rewrite lookup_insert_ne.
    + unfold w2, w1. simpl.
      rewrite lookup_insert_ne, lookup_insert_eq by done. simpl. by rewrite Ht.
    + unfold w2. simpl. rewrite lookup_insert_eq. simpl. by rewrite Ht.
  - intros v Hv Hnd. rewrite (getattr_field _ _ _ _ Hi Hk Hmethod Hproperty).
    erewrite bind_return; [reflexivity|].
    rewrite (__getattr___public _ _ _ _ Hi Hk).
    unfold except_KeyError_raise_AttributeError, getitem. rewrite Hv.
    unfold bind at 1, ret at 1.
    destruct v; try done. destruct Hnd. by eexists.
Qed.

Lemma field_read_witness :
  getattr 0 "phone" one_customer
    = (Raise (AttributeError (JStr "phone")), one_customer)
  ∧ (∃ l1 w1 l2 w2,
       getattr 0 "default_card" one_customer = (Return (Value (Ref l1)), w1)
       ∧ getattr 0 "default_card" w1 = (Return (Value (Ref l2)), w2)
       ∧ l1 ≠ l2
       ∧ view (heap w2) (Ref l1) = Some (Record_ Card card_1 ∅)
       ∧ view (heap w2) (Ref l2) = Some (Record_ Card card_1 ∅))
  ∧ getattr 0 "history" one_customer
    = (Return (Value (Plain (JList [JDict card_1]))), one_customer).
Proof.
  assert (heap one_customer !! 0 = Some (Instance Customer customer_1 ∅ ∅))
    as Hi by reflexivity.
  assert (∀ key, key ∈ ["phone"; "default_card"; "history"] →
                 public key
                 ∧ (key ∉ methods Customer) ∧ (key ∉ properties Customer))
    as Hfield.
  { intros key Hkey.
    repeat (apply elem_of_cons in Hkey as [->|Hkey];
            [split; [discriminate|];
             split; intros Hin;
             repeat (apply elem_of_cons in Hin as [[=]|Hin]);
             by apply elem_of_nil in Hin|]).
    by apply elem_of_nil in Hkey. }
  split; [|split].
  - destruct (Hfield "phone") as (Hp & Hm & Hq); [set_solver|].
    by apply (field_read 0 _ "phone" one_customer Hi Hp Hm Hq).
  - destruct (Hfield "default_card") as (Hp & Hm & Hq); [set_solver|].
    destruct (field_read 0 _ "default_card" one_customer Hi Hp Hm Hq)
      as (_ & Hdict & _).
    destruct (Hdict card_1 eq_refl) as [_ Hfresh].
    destruct (Hfresh (JStr "card") eq_refl I)
      as (l1 & w1 & l2 & w2 & H1 & H2 & _ & _ & Hne & _ & Hv1 & Hv2).
    exists l1, w1, l2, w2. repeat split; assumption.
  - destruct (Hfield "history") as (Hp & Hm & Hq); [set_solver|].
    apply (field_read 0 _ "history" one_customer Hi Hp Hm Hq);
      [reflexivity|intros [? [=]]].
Defined.

(** C5, as stated, fails: a name that the class of the record defines
    is found on the class, and [__getattr__] is never asked.  A charge
    that holds the field [capture] gives its method [capture], not the
    stored value; and a record without a field [changes] gives its
    dirty mapping instead of raising. *)
Lemma field_read_finds_class_attribute :
  public "capture"
  ∧ (∃ i, heap one_flagged_charge !! 0 = Some i
          ∧ _attributes i !! "capture" = Some (JBool true))
  ∧ getattr 0 "capture" one_flagged_charge
    = (Return (Method "capture"), one_flagged_charge)
  ∧ public "changes"
  ∧ (∃ i, heap one_charge !! 0 = Some i ∧ _attributes i !! "changes" = None)
  ∧ getattr 0 "changes" one_charge
    = (Return (Value (Plain (JDict ∅))), one_charge).
Proof.
  split; [discriminate|]. split; [by eexists|]. split; [reflexivity|].
  split; [discriminate|]. split; [by eexists|]. reflexivity.
Qed.

(** ** Strings and URLs *)

Lemma contains_forallb c s p :
  (∀ a, p a = true → Ascii.eqb a c = false) →
  forallb_string p s = true → contains c s = false.
Proof.
  intros Hp. induction s as [|a s IH]; simpl; [done|].
  intros [Ha Hs]%andb_prop. by rewrite (Hp _ Ha), IH.
Qed.

Lemma cut_absent c s : contains c s = false → cut c s = (s, None).
Proof.
  induction s as [|a s IH]; simpl; [done|].
  intros [-> Hs]%orb_false_elim. by rewrite IH.
Qed.

Lemma span_host stop host tail :
  forallb_string (λ c, negb (stop c)) host = true →
  match tail with "" => True | String c _ => stop c = true end →
  span stop (host +:+ tail) = (host, tail).
Proof.
  intros Hhost Htail. induction host as [|a host IH].
  - destruct tail as [|c tail]; [done|]. simpl. by rewrite Htail.
  - simpl in Hhost. apply andb_prop in Hhost as [Ha Hhost].
    change (String a host +:+ tail) with (String a (host +:+ tail)).
    simpl. apply negb_true_iff in Ha. by rewrite Ha, IH.
Qed.

Lemma forallb_string_app p s t :
  forallb_string p (s +:+ t) = forallb_string p s && forallb_string p t.
Proof.
  induction s as [|a s IH]; [done|].
  change (String a s +:+ t) with (String a (s +:+ t)).
  simpl. by rewrite IH, andb_assoc.
Qed.

Lemma forallb_string_weaken (p q : ascii → bool) s :
  (∀ a, p a = true → q a = true) →
  forallb_string p s = true → forallb_string q s = true.
Proof.
  intros Hpq. induction s as [|a s IH]; simpl; [done|].
  intros [Ha Hs]%andb_prop. by rewrite (Hpq _ Ha), IH.
Qed.

(** Joining pieces that hold no slash and splitting again gives the
    pieces back. *)
Lemma split_piece c s :
  contains c s = false → split c s = [s].
Proof.
  induction s as [|a s IH]; simpl; [done|].
  intros [-> Hs]%orb_false_elim. by rewrite IH.
Qed.

Lemma split_app c s t :
  contains c s = false →
  split c (s +:+ String c t) = s :: split c t.
Proof.
  induction s as [|a s IH]; intros Hs.
  - change ("" +:+ String c t) with (String c t). simpl.
    by rewrite Ascii.eqb_refl.
  - simpl in Hs. apply orb_false_elim in Hs as [Ha Hs].
    change (String a s +:+ String c t) with (String a (s +:+ String c t)).
    simpl. by rewrite Ha, IH.
Qed.

Lemma split_concat c pieces :
  pieces ≠ [] →
  Forall (λ s, contains c s = false) pieces →
  split c (String.concat (String c "") pieces) = pieces.
Proof.
  intros Hne Hall. induction Hall as [|s pieces Hs Hall IH]; [done|].
  destruct pieces as [|s' pieces].
  - simpl. by apply split_piece.
  - change (String.concat (String c "") (s :: s' :: pieces))
      with (s +:+ String c (String.concat (String c "") (s' :: pieces))).
    rewrite split_app by done. by rewrite IH.
Qed.

Lemma forallb_string_concat p sep pieces :
  forallb_string p sep = true →
  Forall (λ s, forallb_string p s = true) pieces →
  forallb_string p (String.concat sep pieces) = true.
Proof.
  intros Hsep. induction 1 as [|s pieces Hs Hall IH]; [done|].
  destruct pieces as [|s' pieces]; [done|].
  change (String.concat sep (s :: s' :: pieces))
    with (s +:+ sep +:+ String.concat sep (s' :: pieces)).
  by rewrite !forallb_string_app, Hs, Hsep, IH.
Qed.

Lemma path_char_not c a :
  path_char a = true →
  c ∈ [":"; "?"; "#"; ";"]%char → Ascii.eqb a c = false.
Proof.
  unfold path_char. intros Ha Hc.
  repeat (apply elem_of_cons in Hc as [->|Hc];
          [by repeat (destruct (Ascii.eqb a _); try done)|]).
  by apply elem_of_nil in Hc.
Qed.

Lemma split_scheme_absent url :
  contains ":" url = false → urlparse.split_scheme url = None.
Proof.
  intros Hurl. unfold urlparse.split_scheme. rewrite (cut_absent _ _ Hurl).
  by destruct url.
Qed.

Lemma urlsplit_relative_path url scheme :
  forallb_string path_char url = true →
  starts_with_slashes url = false →
  urlparse.urlsplit url scheme =
    Return {| urlparse.s_scheme := scheme; urlparse.s_netloc := "";
              urlparse.s_path := url; urlparse.s_query := "";
              urlparse.s_fragment := "" |}.
Proof.
  intros Hurl Hslashes.
  assert (∀ c, c ∈ [":"; "?"; "#"; ";"]%char → contains c url = false)
    as Habsent.
  { intros c Hc. apply (contains_forallb c url path_char); [|done].
    intros a Ha. by apply path_char_not. }
  unfold urlparse.urlsplit.
  rewrite split_scheme_absent by (apply Habsent; set_solver).
  rewrite Hslashes. simpl.
  rewrite !cut_absent by (apply Habsent; set_solver). done.
Qed.

Lemma urlparse_relative_path url scheme :
  forallb_string path_char url = true →
  starts_with_slashes url = false →
  urlparse.urlparse url scheme =
    Return {| urlparse.scheme := scheme; urlparse.netloc := "";
              urlparse.path := url; urlparse.params := "";
              urlparse.query := ""; urlparse.fragment := "" |}.
Proof.
  intros Hurl Hslashes. unfold urlparse.urlparse.
  rewrite urlsplit_relative_path by done. simpl.
  rewrite (contains_forallb ";" url path_char); [|by intros; apply path_char_not; [|set_solver]|done].
  by rewrite andb_false_r.
Qed.

Lemma split_scheme_https rest :
  urlparse.split_scheme ("https://" +:+ rest) = Some ("https", "//" +:+ rest).
Proof. reflexivity. Qed.

Lemma split_scheme_http rest :
  urlparse.split_scheme ("http://" +:+ rest) = Some ("http", "//" +:+ rest).
Proof. reflexivity. Qed.

Lemma host_char_not c a :
  host_char a = true →
  c ∈ ["/"; "?"; "#"; "["; "]"]%char → Ascii.eqb a c = false.
Proof.
  unfold host_char. intros Ha Hc.
  repeat (apply elem_of_cons in Hc as [->|Hc];
          [by repeat (destruct (Ascii.eqb a _); try done)|]).
  by apply elem_of_nil in Hc.
Qed.

Lemma _splitnetloc_host host tail :
  plain_host host → tail = "" ∨ tail = "/" →
  urlparse._splitnetloc ("//" +:+ host +:+ tail) = (host, tail).
Proof.
  intros [_ Hhost] Htail.
  change ("//" +:+ host +:+ tail) with (String "/" (String "/" (host +:+ tail))).
  unfold urlparse._splitnetloc. apply span_host.
  - eapply forallb_string_weaken; [|done]. intros a Ha. simpl.
    rewrite !(host_char_not _ a Ha) by set_solver. done.
  - by destruct Htail as [-> | ->].
Qed.

(** Parsing a base made of a scheme, a host and at most a final slash. *)
Lemma urlparse_base scheme host tail :
  scheme = "http" ∨ scheme = "https" →
  plain_host host → tail = "" ∨ tail = "/" →
  urlparse.urlparse (scheme +:+ "://" +:+ host +:+ tail) "" =
    Return {| urlparse.scheme := scheme; urlparse.netloc := host;
              urlparse.path := tail; urlparse.params := "";
              urlparse.query := ""; urlparse.fragment := "" |}.
Proof.
  intros Hscheme Hhost Htail.
  assert (urlparse.split_scheme (scheme +:+ "://" +:+ host +:+ tail)
          = Some (scheme, "//" +:+ host +:+ tail)) as Hsplit.
  { destruct Hscheme as [-> | ->];
      [apply split_scheme_http|apply split_scheme_https]. }
  unfold urlparse.urlparse, urlparse.urlsplit. rewrite Hsplit.
  change (starts_with_slashes ("//" +:+ host +:+ tail)) with true.
  cbn iota beta. rewrite (_splitnetloc_host _ _ Hhost Htail).
  destruct Hhost as [_ Hhost].
  assert (∀ c, c ∈ ["["; "]"]%char → contains c host = false) as Habsent.
  { intros c Hc. apply (contains_forallb c host host_char); [|done].
    intros a Ha. apply host_char_not; [done|set_solver]. }
  rewrite !Habsent by set_solver.
  destruct Htail as [-> | ->]; simpl.
  - by destruct Hscheme as [-> | ->].
  - by destruct Hscheme as [-> | ->].
Qed.

Lemma segment_char_path_char a : segment_char a = true → path_char a = true.
Proof.
  unfold segment_char, path_char.
  by destruct (Ascii.eqb a ":"), (Ascii.eqb a "/"), (Ascii.eqb a "?"),
       (Ascii.eqb a "#"), (Ascii.eqb a ";").
Qed.

Lemma segment_char_not_slash a : segment_char a = true → Ascii.eqb a "/" = false.
Proof.
  unfold segment_char. by destruct (Ascii.eqb a ":"), (Ascii.eqb a "/").
Qed.

Lemma resolve_plain pieces :
  Forall (λ s, s ≠ "." ∧ s ≠ "..") pieces →
  urlparse.resolve pieces = pieces.
Proof.
  unfold urlparse.resolve. intros Hall.
  cut (∀ acc, fold_left
                (λ resolved_path seg,
                   if String.eqb seg ".." then tail resolved_path
                   else if String.eqb seg "." then resolved_path
                   else seg :: resolved_path) pieces acc
              = rev pieces ++ acc).
  { intros ->. by rewrite app_nil_r, rev_involutive. }
  induction Hall as [|s pieces [Hdot Hdots] _ IH]; intros acc; [done|].
  simpl. apply String.eqb_neq in Hdot, Hdots. rewrite Hdot, Hdots, IH.
  by rewrite <-app_assoc.
Qed.

Lemma filter_all {A} (P : A → Prop) `{∀ x, Decision (P x)} (l : list A) :
  Forall P l → filter P l = l.
Proof.
  induction 1 as [|x l Hx _ IH]; [done|]. by rewrite filter_cons_True, IH.
Qed.

Lemma drop_empty_inner_plain front pieces :
  front = [""] ∨ front = [""; ""] →
  pieces ≠ [] → Forall (λ s, s ≠ "") pieces →
  urlparse.drop_empty_inner (front ++ pieces) = "" :: pieces.
Proof.
  intros Hfront Hne Hall.
  assert (filter (λ s, s ≠ "") (removelast pieces) ++ [List.last pieces ""]
          = pieces) as Hkeep.
  { rewrite filter_all; [symmetry; by apply app_removelast_last|].
    clear Hne. induction Hall as [|s [|s' pieces] Hs Hall IH]; [done..|].
    change (removelast (s :: s' :: pieces))
      with (s :: removelast (s' :: pieces)). by constructor. }
  destruct pieces as [|p pieces]; [done|].
  destruct Hfront as [-> | ->].
  - change (urlparse.drop_empty_inner ([""] ++ p :: pieces))
      with ("" :: filter (λ s, s ≠ "") (removelast (p :: pieces))
               ++ [List.last (p :: pieces) ""]).
    by rewrite Hkeep.
  - change (urlparse.drop_empty_inner ([""; ""] ++ p :: pieces))
      with ("" :: filter (λ s, s ≠ "") ("" :: removelast (p :: pieces))
               ++ [List.last (p :: pieces) ""]).
    rewrite filter_cons_False by naive_solver. by rewrite Hkeep.
Qed.

Lemma concat_cons_cons sep s s' pieces :
  String.concat sep (s :: s' :: pieces)
  = s +:+ sep +:+ String.concat sep (s' :: pieces).
Proof. reflexivity. Qed.

Lemma concat_rooted pieces :
  pieces ≠ [] →
  String.concat "/" ("" :: pieces) = "/" +:+ String.concat "/" pieces.
Proof. by destruct pieces. Qed.

(** The text of a non-empty list of plain segments joined by slashes. *)
Lemma joined_plain pieces :
  pieces ≠ [] → Forall plain_segment pieces →
  ∃ a rest,
    String.concat "/" pieces = String a rest
    ∧ Ascii.eqb a "/" = false
    ∧ forallb_string path_char (String.concat "/" pieces) = true
    ∧ split "/" (String.concat "/" pieces) = pieces.
Proof.
  intros Hne Hall.
  assert (∃ a rest, String.concat "/" pieces = String a rest
                    ∧ Ascii.eqb a "/" = false) as (a & rest & Heq & Ha).
  { destruct Hall as [|s pieces (Hs & _ & _ & Hchars) _]; [done|].
    destruct s as [|a s]; [done|]. simpl in Hchars.
    apply andb_prop in Hchars as [Ha _]. apply segment_char_not_slash in Ha.
    destruct pieces as [|s' pieces]; [by exists a, s|].
    rewrite concat_cons_cons. by eexists a, _. }
  exists a, rest. repeat split; [done..| |].
  - apply forallb_string_concat; [done|].
    eapply Forall_impl; [done|]. intros s (_ & _ & _ & Hchars).
    eapply forallb_string_weaken; [|done]. apply segment_char_path_char.
  - apply (split_concat "/"); [done|].
    eapply Forall_impl; [done|]. intros s (_ & _ & _ & Hchars).
    eapply contains_forallb; [|done]. apply segment_char_not_slash.
Qed.

(** Resolving a non-empty list of plain segments against a base made of
    a scheme, a host and at most a final slash: the segments follow the
    host, each behind exactly one slash. *)
Lemma urljoin_plain scheme host tail pieces :
  scheme = "http" ∨ scheme = "https" →
  plain_host host → tail = "" ∨ tail = "/" →
  pieces ≠ [] → Forall plain_segment pieces →
  urlparse.urljoin (scheme +:+ "://" +:+ host +:+ tail)
                   (String.concat "/" pieces)
  = Return (scheme +:+ "://" +:+ host +:+ "/" +:+ String.concat "/" pieces).
Proof.
  intros Hscheme Hhost Htail Hne Hall.
  destruct (joined_plain pieces Hne Hall) as (a & rest & Hurl & Ha & Hchars & Hsplit).
  unfold urlparse.urljoin.
  assert (String.eqb (scheme +:+ "://" +:+ host +:+ tail) "" = false) as ->.
  { by destruct Hscheme as [-> | ->]. }
  assert (String.eqb (String.concat "/" pieces) "" = false) as Hnonempty.
  { by rewrite Hurl. }
  rewrite Hnonempty.
  rewrite (urlparse_base _ _ _ Hscheme Hhost Htail).
  rewrite urlparse_relative_path; [|done|].
  2:{ rewrite Hurl. simpl. by rewrite Ha. }
  cbn [urlparse.scheme urlparse.netloc urlparse.path urlparse.params
       urlparse.query urlparse.fragment].
  rewrite String.eqb_refl.
  assert (urlparse.member scheme urlparse.uses_relative = true) as ->.
  { by destruct Hscheme as [-> | ->]. }
  assert (urlparse.member scheme urlparse.uses_netloc = true) as ->.
  { by destruct Hscheme as [-> | ->]. }
  rewrite Hnonempty. cbn [negb orb andb String.eqb].
  assert (starts_with_slash (String.concat "/" pieces) = false) as ->.
  { rewrite Hurl. simpl. done. }
  rewrite Hsplit.
  assert (Forall (λ s, s ≠ "") pieces) as Hfull.
  { eapply Forall_impl; [exact Hall|]. by intros s (? & _). }
  assert (Forall (λ s, s ≠ "." ∧ s ≠ "..") ("" :: pieces)) as Hnodots.
  { constructor; [done|]. eapply Forall_impl; [exact Hall|].
    by intros s (_ & ? & ? & _). }
  assert ((if String.eqb (List.last (split "/" tail) "") "" then split "/" tail
           else removelast (split "/" tail)) = split "/" tail
          ∧ (split "/" tail = [""] ∨ split "/" tail = [""; ""])) as [-> Hfront].
  { destruct Htail as [-> | ->]; simpl; auto. }
  rewrite (drop_empty_inner_plain _ _ Hfront Hne Hfull).
  rewrite (resolve_plain _ Hnodots).
  assert (String.eqb (List.last ("" :: pieces) "") "." = false
          ∧ String.eqb (List.last ("" :: pieces) "") ".." = false) as [-> ->].
  { destruct (exists_last Hne) as (init & final & ->).
    rewrite app_comm_cons, last_last.
    apply Forall_app in Hall as [_ Hfinal].
    apply Forall_singleton in Hfinal as (_ & ? & ? & _).
    split; by apply String.eqb_neq. }
  cbn [orb]. rewrite (concat_rooted _ Hne).
  change (String.eqb ("/" +:+ String.concat "/" pieces) "") with false.
  cbn iota. unfold urlparse.urlunparse, urlparse.urlunsplit.
  cbn [urlparse.scheme urlparse.netloc urlparse.path urlparse.params
       urlparse.query urlparse.fragment urlparse.s_scheme urlparse.s_netloc
       urlparse.s_path urlparse.s_query urlparse.s_fragment].
  destruct Hhost as [Hhost _]. apply String.eqb_neq in Hhost. rewrite Hhost.
  rewrite String.eqb_refl. cbn [negb orb andb].
  change (String.eqb ("/" +:+ String.concat "/" pieces) "") with false.
  change (starts_with_slash ("/" +:+ String.concat "/" pieces)) with true.
  cbn [negb orb andb].
  by destruct Hscheme as [-> | ->].
Qed.

(** *** Bases with directories *)

Lemma plain_segment_chars s :
  plain_segment s →
  s ≠ "" ∧ forallb_string path_char s = true ∧ contains "/" s = false.
Proof.
  intros (Hs & _ & _ & Hchars). split; [done|]. split.
  - eapply forallb_string_weaken; [|done]. apply segment_char_path_char.
  - eapply contains_forallb; [|done]. apply segment_char_not_slash.
Qed.

Lemma directory_nonempty dirs : ∃ rest, directory dirs = String "/" rest.
Proof.
  unfold directory. destruct (dirs ++ [""]) as [|d ds] eqn:Heq.
  { by destruct dirs. }
  rewrite concat_cons_cons. by eexists.
Qed.

Lemma directory_chars dirs :
  Forall plain_segment dirs →
  forallb_string path_char (directory dirs) = true.
Proof.
  intros Hdirs. apply forallb_string_concat; [done|].
  constructor; [done|]. apply Forall_app. split; [|by constructor].
  eapply Forall_impl; [done|]. by intros s (_ & ? & _)%plain_segment_chars.
Qed.

Lemma directory_split dirs :
  Forall plain_segment dirs →
  split "/" (directory dirs) = "" :: dirs ++ [""].
Proof.
  intros Hdirs. apply (split_concat "/"); [done|].
  constructor; [done|]. apply Forall_app. split; [|by constructor].
  eapply Forall_impl; [done|]. by intros s (_ & _ & ?)%plain_segment_chars.
Qed.

Lemma _splitnetloc_directory host dirs :
  plain_host host →
  urlparse._splitnetloc ("//" +:+ host +:+ directory dirs)
  = (host, directory dirs).
Proof.
  intros [_ Hhost].
  change ("//" +:+ host +:+ directory dirs)
    with (String "/" (String "/" (host +:+ directory dirs))).
  unfold urlparse._splitnetloc. apply span_host.
  - eapply forallb_string_weaken; [|done]. intros a Ha. simpl.
    rewrite !(host_char_not _ a Ha) by set_solver. done.
  - by destruct (directory_nonempty dirs) as [rest ->].
Qed.

Lemma urlparse_base_directory scheme host dirs :
  scheme = "http" ∨ scheme = "https" →
  plain_host host → Forall plain_segment dirs →
  urlparse.urlparse (scheme +:+ "://" +:+ host +:+ directory dirs) "" =
    Return {| urlparse.scheme := scheme; urlparse.netloc := host;
              urlparse.path := directory dirs; urlparse.params := "";
              urlparse.query := ""; urlparse.fragment := "" |}.
Proof.
  intros Hscheme Hhost Hdirs.
  assert (urlparse.split_scheme (scheme +:+ "://" +:+ host +:+ directory dirs)
          = Some (scheme, "//" +:+ host +:+ directory dirs)) as Hsplit.
  { destruct Hscheme as [-> | ->];
      [apply split_scheme_http|apply split_scheme_https]. }
  unfold urlparse.urlparse, urlparse.urlsplit. rewrite Hsplit.
  change (starts_with_slashes ("//" +:+ host +:+ directory dirs)) with true.
  cbn iota beta. rewrite (_splitnetloc_directory _ _ Hhost).
  destruct Hhost as [_ Hhost].
  assert (∀ c, c ∈ ["["; "]"]%char → contains c host = false) as Habsent.
  { intros c Hc. apply (contains_forallb c host host_char); [|done].
    intros a Ha. apply host_char_not; [done|set_solver]. }
  rewrite !Habsent by set_solver.
  pose proof (directory_chars dirs Hdirs) as Hchars.
  assert (∀ c, c ∈ [":"; "?"; "#"; ";"]%char →
               contains c (directory dirs) = false) as Hnone.
  { intros c Hc. apply (contains_forallb c _ path_char); [|done].
    intros a Ha. by apply path_char_not. }
  cbn [xorb]. rewrite !cut_absent by (apply Hnone; set_solver).
  cbn [urlparse.s_scheme urlparse.s_path urlparse.s_netloc urlparse.s_query
       urlparse.s_fragment].
  rewrite Hnone by set_solver. by rewrite andb_false_r.
Qed.

Lemma drop_empty_inner_directory dirs pieces :
  pieces ≠ [] →
  Forall (λ s, s ≠ "") dirs → Forall (λ s, s ≠ "") pieces →
  urlparse.drop_empty_inner (("" :: dirs ++ [""]) ++ pieces)
  = "" :: dirs ++ pieces.
Proof.
  intros Hne Hdirs Hpieces.
  destruct (exists_last Hne) as (init & final & ->).
  apply Forall_app in Hpieces as [Hinit _].
  replace (("" :: dirs ++ [""]) ++ init ++ [final])
    with ("" :: (dirs ++ "" :: init) ++ [final])
    by (simpl; by rewrite <-!app_assoc).
  unfold urlparse.drop_empty_inner.
  destruct ((dirs ++ "" :: init) ++ [final]) as [|x rest] eqn:Heq.
  { by destruct (dirs ++ "" :: init). }
  rewrite <-Heq. rewrite removelast_last, last_last.
  rewrite filter_app, filter_cons_False by naive_solver.
  rewrite !filter_all by done. by rewrite <-app_assoc.
Qed.

Lemma append_assoc (s t u : string) : (s +:+ t) +:+ u = s +:+ t +:+ u.
Proof.
  induction s as [|a s IH]; [done|].
  change (String a ((s +:+ t) +:+ u) = String a (s +:+ t +:+ u)). by f_equal.
Qed.

Lemma concat_cons_nonempty sep s pieces :
  pieces ≠ [] →
  String.concat sep (s :: pieces) = s +:+ sep +:+ String.concat sep pieces.
Proof. by destruct pieces. Qed.

Lemma concat_after_directories dirs pieces :
  pieces ≠ [] →
  String.concat "/" (dirs ++ pieces)
  = String.concat "/" (dirs ++ [""]) +:+ String.concat "/" pieces.
Proof.
  intros Hne. induction dirs as [|d dirs IH]; [done|].
  change ((d :: dirs) ++ pieces) with (d :: dirs ++ pieces).
  change ((d :: dirs) ++ [""]) with (d :: dirs ++ [""]).
  rewrite !concat_cons_nonempty, IH.
  - by rewrite !append_assoc.
  - by destruct dirs.
  - intros [_ ?]%app_eq_nil. done.
Qed.

Lemma directory_then_path dirs pieces :
  pieces ≠ [] →
  "/" +:+ String.concat "/" (dirs ++ pieces)
  = directory dirs +:+ String.concat "/" pieces.
Proof.
  intros Hne. unfold directory.
  rewrite concat_rooted by (by destruct dirs).
  by rewrite concat_after_directories, append_assoc.
Qed.

(** Resolving plain segments against a base that ends in a slash after
    its directories: the segments follow the directories. *)
Lemma urljoin_directory scheme host dirs pieces :
  scheme = "http" ∨ scheme = "https" →
  plain_host host → Forall plain_segment dirs →
  pieces ≠ [] → Forall plain_segment pieces →
  urlparse.urljoin (scheme +:+ "://" +:+ host +:+ directory dirs)
                   (String.concat "/" pieces)
  = Return (scheme +:+ "://" +:+ host +:+ directory dirs
            +:+ String.concat "/" pieces).
Proof.
  intros Hscheme Hhost Hdirs Hne Hall.
  destruct (joined_plain pieces Hne Hall) as (a & rest & Hurl & Ha & Hchars & Hsplit).
  unfold urlparse.urljoin.
  assert (String.eqb (scheme +:+ "://" +:+ host +:+ directory dirs) "" = false)
    as ->.
  { by destruct Hscheme as [-> | ->]. }
  assert (String.eqb (String.concat "/" pieces) "" = false) as Hnonempty.
  { by rewrite Hurl. }
  rewrite Hnonempty.
  rewrite (urlparse_base_directory _ _ _ Hscheme Hhost Hdirs).
  rewrite urlparse_relative_path; [|done|].
  2:{ rewrite Hurl. simpl. by rewrite Ha. }
  cbn [urlparse.scheme urlparse.netloc urlparse.path urlparse.params
       urlparse.query urlparse.fragment].
  rewrite String.eqb_refl.
  assert (urlparse.member scheme urlparse.uses_relative = true) as ->.
  { by destruct Hscheme as [-> | ->]. }
  assert (urlparse.member scheme urlparse.uses_netloc = true) as ->.
  { by destruct Hscheme as [-> | ->]. }
  rewrite Hnonempty. cbn [negb orb andb String.eqb].
  assert (starts_with_slash (String.concat "/" pieces) = false) as ->.
  { rewrite Hurl. simpl. done. }
  rewrite Hsplit, (directory_split _ Hdirs).
  assert (List.last ("" :: dirs ++ [""]) "" = "") as Hlast.
  { by rewrite app_comm_cons, last_last. }
  rewrite Hlast. cbn [String.eqb].
  assert (Forall (λ s, s ≠ "") dirs) as Hdirs'.
  { eapply Forall_impl; [exact Hdirs|]. by intros s (? & _). }
  assert (Forall (λ s, s ≠ "") pieces) as Hfull.
  { eapply Forall_impl; [exact Hall|]. by intros s (? & _). }
  rewrite (drop_empty_inner_directory _ _ Hne Hdirs' Hfull).
  assert (Forall (λ s, s ≠ "." ∧ s ≠ "..") ("" :: dirs ++ pieces)) as Hnodots.
  { constructor; [done|]. apply Forall_app. split.
    - eapply Forall_impl; [exact Hdirs|]. by intros s (_ & ? & ? & _).
    - eapply Forall_impl; [exact Hall|]. by intros s (_ & ? & ? & _). }
  rewrite (resolve_plain _ Hnodots).
  assert (String.eqb (List.last ("" :: dirs ++ pieces) "") "." = false
          ∧ String.eqb (List.last ("" :: dirs ++ pieces) "") ".." = false)
    as [-> ->].
  { destruct (exists_last Hne) as (init & final & ->).
    rewrite app_comm_cons, app_assoc, last_last.
    apply Forall_app in Hall as [_ Hfinal].
    apply Forall_singleton in Hfinal as (_ & ? & ? & _).
    split; by apply String.eqb_neq. }
  cbn [orb].
  assert (dirs ++ pieces ≠ []) as Hne'.
  { intros [_ ?]%app_eq_nil. done. }
  rewrite (concat_rooted _ Hne').
  change (String.eqb ("/" +:+ String.concat "/" (dirs ++ pieces)) "") with false.
  cbn iota. unfold urlparse.urlunparse, urlparse.urlunsplit.
  cbn [urlparse.scheme urlparse.netloc urlparse.path urlparse.params
       urlparse.query urlparse.fragment urlparse.s_scheme urlparse.s_netloc
       urlparse.s_path urlparse.s_query urlparse.s_fragment].
  destruct Hhost as [Hhost _]. apply String.eqb_neq in Hhost. rewrite Hhost.
  rewrite String.eqb_refl. cbn [negb orb andb].
  change (String.eqb ("/" +:+ String.concat "/" (dirs ++ pieces)) "") with false.
  change (starts_with_slash ("/" +:+ String.concat "/" (dirs ++ pieces)))
    with true.
  cbn [negb orb andb]. rewrite (directory_then_path _ _ Hne).
  by destruct Hscheme as [-> | ->].
Qed.

(** Resolving a rooted path of plain segments: it replaces whatever path
    the base has. *)
Lemma urljoin_rooted base scheme host directories pieces :
  scheme = "http" ∨ scheme = "https" →
  host ≠ "" →
  urlparse.urlparse base "" =
    Return {| urlparse.scheme := scheme; urlparse.netloc := host;
              urlparse.path := directories; urlparse.params := "";
              urlparse.query := ""; urlparse.fragment := "" |} →
  pieces ≠ [] → Forall plain_segment pieces →
  urlparse.urljoin base ("/" +:+ String.concat "/" pieces)
  = Return (scheme +:+ "://" +:+ host +:+ "/" +:+ String.concat "/" pieces).
Proof.
  intros Hscheme Hhost Hbase Hne Hall.
  destruct (joined_plain pieces Hne Hall) as (a & rest & Hurl & Ha & Hchars & Hsplit).
  unfold urlparse.urljoin.
  destruct (String.eqb base "") eqn:Hempty.
  { apply String.eqb_eq in Hempty. subst base.
    by destruct Hscheme as [-> | ->]. }
  change (String.eqb ("/" +:+ String.concat "/" pieces) "") with false.
  cbn iota. rewrite Hbase.
  rewrite urlparse_relative_path.
  2:{ change ("/" +:+ ?s) with (String "/" s). simpl. exact Hchars. }
  2:{ rewrite Hurl. change ("/" +:+ ?s) with (String "/" s). simpl.
      by rewrite Ha. }
  cbn [urlparse.scheme urlparse.netloc urlparse.path urlparse.params
       urlparse.query urlparse.fragment].
  rewrite String.eqb_refl.
  assert (urlparse.member scheme urlparse.uses_relative = true) as ->.
  { by destruct Hscheme as [-> | ->]. }
  assert (urlparse.member scheme urlparse.uses_netloc = true) as ->.
  { by destruct Hscheme as [-> | ->]. }
  change (String.eqb ("/" +:+ String.concat "/" pieces) "") with false.
  cbn [negb orb andb String.eqb].
  change (starts_with_slash ("/" +:+ String.concat "/" pieces)) with true.
  cbn iota.
  assert (split "/" ("/" +:+ String.concat "/" pieces) = "" :: pieces) as ->.
  { change ("/" +:+ ?s) with (String "/" s). simpl. by rewrite Hsplit. }
  assert (Forall (λ s, s ≠ "." ∧ s ≠ "..") ("" :: pieces)) as Hnodots.
  { constructor; [done|]. eapply Forall_impl; [exact Hall|].
    by intros s (_ & ? & ? & _). }
  rewrite (resolve_plain _ Hnodots).
  assert (String.eqb (List.last ("" :: pieces) "") "." = false
          ∧ String.eqb (List.last ("" :: pieces) "") ".." = false) as [-> ->].
  { destruct (exists_last Hne) as (init & final & ->).
    rewrite app_comm_cons, last_last.
    apply Forall_app in Hall as [_ Hfinal].
    apply Forall_singleton in Hfinal as (_ & ? & ? & _).
    split; by apply String.eqb_neq. }
  cbn [orb]. rewrite (concat_rooted _ Hne).
  change (String.eqb ("/" +:+ String.concat "/" pieces) "") with false.
  cbn iota. unfold urlparse.urlunparse, urlparse.urlunsplit.
  cbn [urlparse.scheme urlparse.netloc urlparse.path urlparse.params
       urlparse.query urlparse.fragment urlparse.s_scheme urlparse.s_netloc
       urlparse.s_path urlparse.s_query urlparse.s_fragment].
  apply String.eqb_neq in Hhost. rewrite Hhost.
  rewrite String.eqb_refl. cbn [negb orb andb].
  change (String.eqb ("/" +:+ String.concat "/" pieces) "") with false.
  change (starts_with_slash ("/" +:+ String.concat "/" pieces)) with true.
  cbn [negb orb andb].
  by destruct Hscheme as [-> | ->].
Qed.

(** With an empty text on either side, [urljoin] returns the other
    side. *)
Lemma urljoin_empty_url base : urlparse.urljoin base "" = Return base.
Proof.
  unfold urlparse.urljoin. destruct (String.eqb base "") eqn:Hbase; [|done].
  by apply String.eqb_eq in Hbase as ->.
Qed.

Lemma urljoin_empty_base url : urlparse.urljoin "" url = Return url.
Proof. reflexivity. Qed.

(** Parsing a reference that names a host of its own: two slashes, the
    host, and a rooted path of plain segments. *)
Lemma urlparse_network_path scheme host pieces :
  scheme = "http" ∨ scheme = "https" →
  plain_host host → contains ":" host = false →
  pieces ≠ [] → Forall plain_segment pieces →
  urlparse.urlparse ("//" +:+ host +:+ "/" +:+ String.concat "/" pieces)
                    scheme =
    Return {| urlparse.scheme := scheme; urlparse.netloc := host;
              urlparse.path := "/" +:+ String.concat "/" pieces;
              urlparse.params := ""; urlparse.query := "";
              urlparse.fragment := "" |}.
Proof.
  intros Hscheme [Hhost Hchars] Hcolon Hne Hall.
  destruct (joined_plain pieces Hne Hall) as (a & rest & Hurl & Ha & Hpath & _).
  set (tail := "/" +:+ String.concat "/" pieces).
  assert (forallb_string path_char tail = true) as Htail.
  { unfold tail. change ("/" +:+ ?s) with (String "/" s). simpl. exact Hpath. }
  assert (∀ c, c ∈ [":"; "?"; "#"; ";"]%char → contains c tail = false)
    as Hnone.
  { intros c Hc. apply (contains_forallb c _ path_char); [|done].
    intros b Hb. by apply path_char_not. }
  assert (contains ":" ("//" +:+ host +:+ tail) = false) as Hnocolon.
  { change ("//" +:+ host +:+ tail) with (String "/" (String "/" (host +:+ tail))).
    simpl. clear -Hcolon Hnone. induction host as [|b host IH].
    - apply Hnone. set_solver.
    - simpl in Hcolon. apply orb_false_elim in Hcolon as [Hb Hcolon].
      change (String b host +:+ tail) with (String b (host +:+ tail)).
      simpl. by rewrite Hb, IH. }
  unfold urlparse.urlparse, urlparse.urlsplit.
  rewrite (split_scheme_absent _ Hnocolon).
  change (starts_with_slashes ("//" +:+ host +:+ tail)) with true.
  cbn iota beta.
  assert (urlparse._splitnetloc ("//" +:+ host +:+ tail) = (host, tail)) as ->.
  { change ("//" +:+ host +:+ tail)
      with (String "/" (String "/" (host +:+ tail))).
    unfold urlparse._splitnetloc. apply span_host; [|done].
    eapply forallb_string_weaken; [|done]. intros b Hb. simpl.
    rewrite !(host_char_not _ b Hb) by set_solver. done. }
  assert (∀ c, c ∈ ["["; "]"]%char → contains c host = false) as Habsent.
  { intros c Hc. apply (contains_forallb c host host_char); [|done].
    intros b Hb. apply host_char_not; [done|set_solver]. }
  rewrite !Habsent by set_solver.
  cbn [xorb]. rewrite !cut_absent by (apply Hnone; set_solver).
  cbn [urlparse.s_scheme urlparse.s_path urlparse.s_netloc urlparse.s_query
       urlparse.s_fragment].
  rewrite Hnone by set_solver. by rewrite andb_false_r.
Qed.

(** Resolving such a reference: it keeps the scheme of the base and
    nothing else of it. *)
Lemma urljoin_network_path base scheme host directories host' pieces :
  scheme = "http" ∨ scheme = "https" →
  urlparse.urlparse base "" =
    Return {| urlparse.scheme := scheme; urlparse.netloc := host;
              urlparse.path := directories; urlparse.params := "";
              urlparse.query := ""; urlparse.fragment := "" |} →
  plain_host host' → contains ":" host' = false →
  pieces ≠ [] → Forall plain_segment pieces →
  urlparse.urljoin base
    ("//" +:+ host' +:+ "/" +:+ String.concat "/" pieces)
  = Return (scheme +:+ "://" +:+ host' +:+ "/" +:+ String.concat "/" pieces).
Proof.
  intros Hscheme Hbase Hhost Hcolon Hne Hall. unfold urlparse.urljoin.
  destruct (String.eqb base "") eqn:Hempty.
  { apply String.eqb_eq in Hempty. subst base.
    by destruct Hscheme as [-> | ->]. }
  change (String.eqb ("//" +:+ ?s) "") with false. cbn iota.
  rewrite Hbase.
  cbn [urlparse.scheme urlparse.netloc urlparse.path urlparse.params
       urlparse.query urlparse.fragment].
  rewrite (urlparse_network_path _ _ _ Hscheme Hhost Hcolon Hne Hall).
  cbn [urlparse.scheme urlparse.netloc urlparse.path urlparse.params
       urlparse.query urlparse.fragment].
  rewrite String.eqb_refl.
  assert (urlparse.member scheme urlparse.uses_relative = true) as ->.
  { by destruct Hscheme as [-> | ->]. }
  assert (urlparse.member scheme urlparse.uses_netloc = true) as ->.
  { by destruct Hscheme as [-> | ->]. }
  destruct Hhost as [Hhost _]. apply String.eqb_neq in Hhost. rewrite Hhost.
  cbn [negb orb andb].
  unfold urlparse.urlunparse, urlparse.urlunsplit.
  cbn [urlparse.scheme urlparse.netloc urlparse.path urlparse.params
       urlparse.query urlparse.fragment urlparse.s_scheme urlparse.s_netloc
       urlparse.s_path urlparse.s_query urlparse.s_fragment].
  rewrite Hhost, String.eqb_refl. cbn [negb orb andb].
  change (String.eqb ("/" +:+ String.concat "/" pieces) "") with false.
  change (starts_with_slash ("/" +:+ String.concat "/" pieces)) with true.
  cbn [negb orb andb].
  by destruct Hscheme as [-> | ->].
Qed.

(** [urljoin] on a few inputs, with the results of the standard library. *)
Example urljoin_examples :
  urlparse.urljoin "https://api.omise.co" "charges/chrg_1/capture"
    = Return "https://api.omise.co/charges/chrg_1/capture"
  ∧ urlparse.urljoin "https://api.omise.co/" "charges"
    = Return "https://api.omise.co/charges"
  ∧ urlparse.urljoin "https://api.omise.co/v1/x"
      "charges//chrg_1/../capture?limit=1#top"
    = Return "https://api.omise.co/v1/charges/capture?limit=1#top"
  ∧ urlparse.urljoin "https://api.omise.co/v1/" "customers/cust_1"
    = Return "https://api.omise.co/v1/customers/cust_1"
  ∧ urlparse.urljoin "https://api.omise.co/v1" "customers/cust_1"
    = Return "https://api.omise.co/customers/cust_1"
  ∧ urlparse.urljoin "https://api.omise.co" "/customers/cust_1/cards/card_1"
    = Return "https://api.omise.co/customers/cust_1/cards/card_1"
  ∧ urlparse.urljoin "https://api.omise.co/v1/x" "//vault.omise.co/tokens"
    = Return "https://vault.omise.co/tokens"
  ∧ urlparse.urljoin "https://api.omise.co" "mailto:a@b"
    = Return "mailto:a@b"
  ∧ urlparse.urljoin "https://api.omise.co/a/b;p?q" "?r"
    = Return "https://api.omise.co/a/b;p?r"
  ∧ urlparse.urljoin "https://api.omise.co/a/b" ".."
    = Return "https://api.omise.co/"
  ∧ urlparse.urljoin "" "charges" = Return "charges"
  ∧ urlparse.urljoin "https://api.omise.co" ""
    = Return "https://api.omise.co"
  ∧ urlparse.urljoin "http://[::1/" "charges"
    = Raise (ValueError "Invalid IPv6 URL").
Proof. repeat split. Qed.

(** ** The requestor *)

Section requestor.
Context {externals : Externals}.

Lemma _build_path_spec self path w :
  Request._build_path self path w = (request_url self path, w).
Proof. reflexivity. Qed.

Lemma is_error_test response :
  eq_str (default JNone (response !! "object")) "error" = true
  ↔ is_error response.
Proof.
  unfold is_error. destruct (response !! "object") as [v|]; [|done].
  destruct v; simpl; try done. rewrite String.eqb_eq. naive_solver.
Qed.

(** [send] step by step: no call when the URL cannot be built; otherwise
    exactly one call, whose answer is returned unless the transport
    raises or the answer is an error body. *)
Lemma send_spec self method path payload headers w :
  Request.send self method path payload headers w =
    match request_url self path with
    | Raise e => (Raise e, w)
    | Return url =>
        let call := request_call self method url payload headers in
        match requests (wire w) call with
        | Raise e => raise e
        | Return response =>
            if eq_str (default JNone (response !! "object")) "error"
            then errors._raise_from_data response ;;; ret response
            else ret response
        end (sent w call)
    end.
Proof.
  unfold Request.send. unfold bind at 1. rewrite _build_path_spec.
  destruct (request_url self path) as [url|e]; [|done].
  unfold bind at 1, Request.perform.
  fold (request_call self method url payload headers).
  set (call := request_call _ _ _ _ _).
  destruct (requests (wire w) call) as [response|e]; [|done].
  fold (with_wire w (wire w ++ [call])). fold (sent w call).
  by destruct (eq_str _ _).
Qed.

Lemma send_returns_body self method path payload headers w url response :
  request_url self path = Return url →
  requests (wire w) (request_call self method url payload headers)
    = Return response →
  ¬ is_error response →
  Request.send self method path payload headers w =
    (Return response, sent w (request_call self method url payload headers)).
Proof.
  intros Hurl Hresponse Herr. rewrite send_spec, Hurl. cbn zeta.
  rewrite Hresponse.
  destruct (eq_str _ _) eqn:Htest; [|done]. by apply is_error_test in Htest.
Qed.

Lemma send_raises_on_error self method path payload headers w url response :
  request_url self path = Return url →
  requests (wire w) (request_call self method url payload headers)
    = Return response →
  is_error response →
  Request.send self method path payload headers w =
    (Raise (ApiError (default JNone (response !! "code"))
                     (default JNone (response !! "message"))),
     sent w (request_call self method url payload headers)).
Proof.
  intros Hurl Hresponse Herr. rewrite send_spec, Hurl. cbn zeta.
  rewrite Hresponse. by apply is_error_test in Herr as ->.
Qed.

Lemma main_request_set key method path payload headers w :
  api_secret w = Some key →
  _MainResource._request method path payload headers w =
    Request.send (Request.New key api_main) method path payload headers w.
Proof.
  intros Hkey. unfold _MainResource._request, get_api_secret, bind at 1.
  by rewrite Hkey.
Qed.

Lemma main_request_unset method path payload headers w :
  api_secret w = None →
  _MainResource._request method path payload headers w =
    (Raise (AttributeError (JStr "API key is not set.")), w).
Proof.
  intros Hkey. unfold _MainResource._request, get_api_secret, bind at 1.
  by rewrite Hkey.
Qed.

Lemma vault_request_set key method path payload headers w :
  api_public w = Some key →
  _VaultResource._request method path payload headers w =
    Request.send (Request.New key api_vault) method path payload headers w.
Proof.
  intros Hkey. unfold _VaultResource._request, get_api_public, bind at 1.
  by rewrite Hkey.
Qed.

Lemma vault_request_unset method path payload headers w :
  api_public w = None →
  _VaultResource._request method path payload headers w =
    (Raise (AttributeError (JStr "API key is not set.")), w).
Proof.
  intros Hkey. unfold _VaultResource._request, get_api_public, bind at 1.
  by rewrite Hkey.
Qed.

Lemma segments_list l : segments (JList l) = l.
Proof. reflexivity. Qed.






(** C8.  Whatever the caller supplies, the headers [send] uses hold
    [Accept: application/json] and the [User-Agent] made of the library
    version and the API compatibility date; every other entry is the
    caller's; and these are the headers of the call that goes out. *)
Theorem baseline_headers headers :
  let used := Request._build_headers headers in
  used !! "Accept" = Some "application/json"
  ∧ used !! "User-Agent"
    = Some ("OmisePython/" +:+ __VERSION__ +:+ " OmiseAPI/" +:+ "2014-07-27")
  ∧ (∀ name, name ≠ "Accept" → name ≠ "User-Agent" →
       used !! name = default ∅ headers !! name)
  ∧ (∀ self method path payload w,
       match request_url self path with
       | Return url =>
           ∃ call,
             wire (Request.send self method path payload headers w).2
             = wire w ++ [call]
             ∧ call_url call = url ∧ call_headers call = used
       | Raise _ =>
           wire (Request.send self method path payload headers w).2 = wire w
       end).
Proof.
  unfold Request._build_headers. cbn zeta. split; [|split; [|split]].
  - by rewrite lookup_insert_ne, lookup_insert_eq.
  - by rewrite lookup_insert_eq.
  - intros name Haccept Hagent. rewrite !lookup_insert_ne by done.
    by destruct headers.
  - intros self method path payload w. rewrite send_spec.
    destruct (request_url self path) as [url|e]; [|done].
    exists (request_call self method url payload headers).
    split; [|done]. cbn zeta.
    destruct (requests _ _) as [response|e]; [|done].
    by destruct (eq_str _ _).
Qed.

(** C1.  Once the URL is built and the transport has answered with a
    decoded body: when the body's ["object"] field is ["error"], [send]
    raises what the error translator raises on that body and returns
    nothing; for any other body it returns the body as it is.  In both
    cases exactly this one call has gone out. *)
Theorem send_error_or_body self method path payload headers w url response :
  request_url self path = Return url →
  requests (wire w) (request_call self method url payload headers)
    = Return response →
  let w' := sent w (request_call self method url payload headers) in
  (is_error response →
     ∃ e, errors._raise_from_data response w' = (Raise e, w')
          ∧ Request.send self method path payload headers w = (Raise e, w'))
  ∧ (¬ is_error response →
     Request.send self method path payload headers w = (Return response, w')).
Proof.
  intros Hurl Hresponse w'. split.
  - intros Herr. eexists. split; [reflexivity|].
    by apply send_raises_on_error.
  - intros Herr. by apply send_returns_body.
Qed.

End requestor.

Section requestor_examples.
#[local] Existing Instance double.



Lemma baseline_headers_witness :
  Request._build_headers
    (Some {[ "Accept" := "text/html"; "X-Request-Id" := "42" ]})
  = {[ "Accept" := "application/json";
       "User-Agent" := "OmisePython/0.5.1 OmiseAPI/2014-07-27";
       "X-Request-Id" := "42" ]}.
Proof.
  destruct (baseline_headers
              (Some {[ "Accept" := "text/html"; "X-Request-Id" := "42" ]}))
    as (Haccept & Hagent & Hother & _).
  apply map_eq. intros name.
  destruct (decide (name = "Accept")) as [->|Hne1]; [by rewrite Haccept|].
  destruct (decide (name = "User-Agent")) as [->|Hne2]; [by rewrite Hagent|].
  rewrite (Hother name Hne1 Hne2). simpl.
  by rewrite !lookup_insert_ne by done.
Defined.

Lemma send_error_or_body_witness :
  Request.send (Request.New "skey_test" api_main) POST (JStr "charges")
    None None one_customer
  = (Raise (ApiError (JStr "invalid_card") (JStr "card number invalid")),
     sent one_customer
       (request_call (Request.New "skey_test" api_main) POST
          "https://api.omise.co/charges" None None))
  ∧ Request.send (Request.New "skey_test" api_main) GET
      (JList [JStr "charges"; JStr "chrg_2"]) None None one_customer
  = (Return charge_2,
     sent one_customer
       (request_call (Request.New "skey_test" api_main) GET
          "https://api.omise.co/charges/chrg_2" None None)).
Proof.
  split.
  - destruct (send_error_or_body (externals := double)
                (Request.New "skey_test" api_main) POST
                (JStr "charges") None None one_customer
                "https://api.omise.co/charges" error_body eq_refl eq_refl)
      as [Herror _].
    destruct (Herror eq_refl) as (e & Hraise & ->).
    by injection Hraise as <-.
  - apply (send_error_or_body (externals := double)
             (Request.New "skey_test" api_main) GET
             (JList [JStr "charges"; JStr "chrg_2"]) None None one_customer
             "https://api.omise.co/charges/chrg_2" charge_2 eq_refl eq_refl).
    discriminate.
Defined.

End requestor_examples.

(** ** Operations without their credential *)

Lemma quiet_ret {A} (a : A) : quiet (ret a).
Proof. by intros w. Qed.

Lemma quiet_raise {A} e : quiet (raise e : M A).
Proof. by intros w. Qed.

Lemma quiet_bind {A B} (m : M A) (k : A → M B) :
  quiet m → (∀ a, quiet (k a)) → quiet (bind m k).
Proof.
  intros Hm Hk w. unfold bind. specialize (Hm w).
  destruct (m w) as [[a|e] w1]; [|done]. simpl in Hm.
  destruct Hm as (Hw & Hs & Hp). destruct (Hk a w1) as (Hw' & Hs' & Hp').
  repeat split; congruence.
Qed.

Lemma quiet_deref self : quiet (deref self).
Proof. intros w. unfold deref. by destruct (heap w !! self). Qed.

Lemma quiet_getitem d key : quiet (getitem d key).
Proof. intros w. unfold getitem. by destruct (d !! key). Qed.

Lemma quiet_attribute self key : quiet (attribute self key).
Proof.
  apply quiet_bind; [apply quiet_deref|]. intros i. apply quiet_getitem.
Qed.

Lemma quiet_changes self : quiet (changes self).
Proof.
  apply quiet_bind; [apply quiet_deref|]. intros i. apply quiet_ret.
Qed.

Lemma quiet_changed_with self kwargs : quiet (changed_with self kwargs).
Proof.
  apply quiet_bind; [apply quiet_changes|]. intros c. apply quiet_ret.
Qed.

Lemma quiet__as_object v : quiet (_as_object v).
Proof.
  intros w. pose proof (_as_object_effect v w) as Heff.
  destruct (_as_object v w) as [[o|e] w'].
  - by destruct Heff as [(_ & ? & ? & ?) _].
  - by destruct Heff as (_ & ? & ? & ?).
Qed.

Lemma quiet_except {A} (m : M A) :
  quiet m → quiet (except_KeyError_raise_AttributeError m).
Proof.
  intros Hm w. unfold except_KeyError_raise_AttributeError.
  specialize (Hm w). destruct (m w) as [[a|e] w']; [done|]. by destruct e.
Qed.

Lemma quiet___getattr__ self key : quiet (__getattr__ self key).
Proof.
  unfold __getattr__. destruct key as [|c key]; [apply quiet_raise|].
  case_bool_decide; [apply quiet_raise|].
  apply quiet_except. apply quiet_bind; [apply quiet_deref|]. intros i.
  apply quiet_bind; [apply quiet_getitem|]. intros v.
  destruct v; first [apply quiet__as_object | apply quiet_ret].
Qed.

Section operations.
Context {externals : Externals}.

Lemma quiet_as_segment o : quiet (as_segment o).
Proof.
  destruct o as [j | l | l]; [apply quiet_ret|apply quiet_raise|].
  apply quiet_bind; [|intros; apply quiet_ret].
  apply quiet_bind; [apply quiet_deref|]. intros i. apply quiet_ret.
Qed.

Lemma doomed_main method path payload headers A (k : _ → M A) :
  doomed api_secret
    (response <- _MainResource._request method path payload headers ;;
     k response).
Proof.
  intros w Hkey. unfold bind. rewrite main_request_unset by done. eauto.
Qed.

Lemma doomed_vault method path payload headers A (k : _ → M A) :
  doomed api_public
    (response <- _VaultResource._request method path payload headers ;;
     k response).
Proof.
  intros w Hkey. unfold bind. rewrite vault_request_unset by done. eauto.
Qed.

Lemma doomed_after {A B} key (m : M A) (k : A → M B) :
  (key = api_secret ∨ key = api_public) →
  quiet m → (∀ a, doomed key (k a)) → doomed key (bind m k).
Proof.
  intros Hkey Hm Hk w Hunset. unfold bind. specialize (Hm w).
  destruct (m w) as [[a|e] w1]; simpl in Hm; [|split; [tauto|eauto]].
  destruct Hm as (Hw & Hs & Hp). destruct (Hk a w1) as [Hw' He].
  { destruct Hkey as [-> | ->]; congruence. }
  split; [congruence|done].
Qed.

Lemma doomed_first {A B} key (m : M A) (k : A → M B) :
  doomed key m → doomed key (bind m k).
Proof.
  intros Hm w Hunset. unfold bind. destruct (Hm w Hunset) as [Hw [e He]].
  destruct (m w) as [[a|e'] w1]; simpl in *; [done|eauto].
Qed.

Lemma doomed_if {A} key (b : bool) (m1 m2 : M A) :
  doomed key m1 → doomed key m2 → doomed key (if b then m1 else m2).
Proof. by destruct b. Qed.

Lemma attribute_holds self key i v w :
  heap w !! self = Some i → _attributes i !! key = Some v →
  attribute self key w = (Return v, w).
Proof.
  intros Hi Hv. unfold attribute.
  rewrite (bind_return _ _ _ _ _ (deref_some _ _ _ Hi)).
  unfold getitem. by rewrite Hv.
Qed.

Lemma attribute_missing self key i w :
  heap w !! self = Some i → _attributes i !! key = None →
  attribute self key w = (Raise (KeyError (JStr key)), w).
Proof.
  intros Hi Hv. unfold attribute.
  rewrite (bind_return _ _ _ _ _ (deref_some _ _ _ Hi)).
  unfold getitem. by rewrite Hv.
Qed.

Lemma changed_with_spec self kwargs i w :
  heap w !! self = Some i →
  changed_with self kwargs w = (Return (kwargs ∪ pending i), w).
Proof.
  intros Hi. unfold changed_with.
  by rewrite (bind_return _ _ _ _ _ (changes_spec _ _ _ Hi)).
Qed.

Lemma read_plain_id self i v w :
  heap w !! self = Some i → _attributes i !! "id" = Some v → ¬ is_dict v →
  (id <- __getattr__ self "id" ;; as_segment id) w = (Return v, w).
Proof.
  intros Hi Hv Hplain.
  rewrite (bind_return _ _ w (Plain v) w); [done|].
  rewrite (__getattr___public _ _ _ _ Hi) by done.
  unfold except_KeyError_raise_AttributeError, getitem. rewrite Hv.
  unfold bind at 1, ret at 1. destruct v; try done. destruct Hplain. by eexists.
Qed.

End operations.

Create HintDb quiet.
#[export] Hint Resolve quiet_ret quiet_raise quiet_deref quiet_getitem
  quiet_attribute quiet_changes quiet_changed_with quiet__as_object
  quiet___getattr__ quiet_as_segment : quiet.

(** Peel an operation down to its request, which is doomed. *)
Ltac doom :=
  repeat first
    [ apply doomed_main
    | apply doomed_vault
    | apply doomed_if
    | apply doomed_after; [by auto | solve [auto with quiet] | intros ?]
    | apply doomed_first ].

Section unset_credentials.
Context {externals : Externals}.

Lemma run_doomed op : doomed (credential op) (run op).
Proof.
  destruct op; unfold run, as_ref, credential;
    unfold Account.retrieve, Account.reload, Balance.retrieve, Balance.reload,
      Token.create, Token.retrieve, Token.reload,
      Card.reload, Card.update, Card.destroy,
      Charge.create, Charge.retrieve, Charge.reload, Charge.update,
      Charge.capture, Charge.refund,
      Customer.create, Customer.retrieve, Customer.reload, Customer.update,
      Customer.destroy, Refund.reload,
      Transfer.create, Transfer.retrieve, Transfer.reload, Transfer.update,
      Transfer.destroy, Transaction.retrieve, Transaction.reload;
    doom.
Qed.

(** With its arguments at hand, the operation gets as far as building
    the requestor, and no further. *)
Lemma run_key_not_set op w :
  credential op w = None → settled op w → run op w = (Raise key_not_set, w).
Proof.
  intros Hkey Hready.
  destruct op; unfold credential in Hkey; simpl in Hready;
    try destruct Hready as (i & v & Hi & Hv & Hplain);
    try destruct Hready as (i & v & Hi & Hv);
    unfold run, as_ref;
    unfold Account.retrieve, Account.reload, Balance.retrieve, Balance.reload,
      Token.create, Token.retrieve, Token.reload,
      Card.reload, Card.update, Card.destroy,
      Charge.create, Charge.retrieve, Charge.reload, Charge.update,
      Charge.capture, Charge.refund,
      Customer.create, Customer.retrieve, Customer.reload, Customer.update,
      Customer.destroy, Refund.reload,
      Transfer.create, Transfer.retrieve, Transfer.reload, Transfer.update,
      Transfer.destroy, Transaction.retrieve, Transaction.reload;
    try match goal with |- context [truthy ?x] => destruct (truthy x) end;
    unfold bind;
    rewrite ?(changed_with_spec _ _ _ _ Hi);
    rewrite ?(attribute_holds _ _ _ _ _ Hi Hv);
    rewrite ?main_request_unset, ?vault_request_unset by done;
    try done.
  - pose proof (read_plain_id self i v w Hi Hv Hplain) as Hid.
    unfold bind in Hid.
    destruct (__getattr__ self "id" w) as [[o|e] w1]; [|done].
    rewrite Hid. by rewrite main_request_unset.
  - pose proof (read_plain_id self i v w Hi Hv Hplain) as Hid.
    unfold bind in Hid.
    destruct (__getattr__ self "id" w) as [[o|e] w1]; [|done].
    rewrite Hid. by rewrite main_request_unset.
Qed.

(** Reading an [id] that is a mapping the factory accepts: a new
    instance is made, and its text becomes the segment; the settings
    are as they were. *)
Lemma read_nested_id self i d type w :
  heap w !! self = Some i → _attributes i !! "id" = Some (JDict d) →
  d !! "object" = Some type → hashable type →
  ∃ s w1,
    (id <- __getattr__ self "id" ;; as_segment id) w = (Return (JStr s), w1)
    ∧ api_secret w1 = api_secret w.
Proof.
  intros Hi Hid Htype Hhashable.
  pose proof (__getattr___materializes self i "id" d type w Hi
                ltac:(done) Hid Htype Hhashable) as Hread.
  eexists _, _. split.
  - rewrite (bind_return _ _ _ _ _ Hread). unfold as_segment, __repr__.
    erewrite bind_return; [reflexivity|].
    erewrite bind_return; [reflexivity|].
    apply deref_some. simpl. apply lookup_insert_eq.
  - done.
Qed.

Lemma run_key_not_set_nested op self i d type w :
  (∃ kwargs, op = Transfer_update self kwargs) ∨ op = Transfer_destroy self →
  api_secret w = None →
  heap w !! self = Some i → _attributes i !! "id" = Some (JDict d) →
  d !! "object" = Some type → hashable type →
  (run op w).1 = Raise key_not_set.
Proof.
  intros Hop Hkey Hi Hid Htype Hhashable.
  destruct (read_nested_id self i d type w Hi Hid Htype Hhashable)
    as (s & w1 & Hread & Hkey1).
  rewrite Hkey in Hkey1.
  destruct Hop as [[kwargs ->] | ->]; unfold run, as_ref.
  - unfold Transfer.update.
    erewrite bind_raise; [done|].
    rewrite (bind_return _ _ _ _ _ (changed_with_spec _ _ _ _ Hi)).
    unfold bind at 1 in Hread. unfold bind at 1.
    destruct (__getattr__ self "id" w) as [[o|e] w2]; [|done].
    rewrite (bind_return _ _ _ _ _ Hread).
    erewrite bind_raise; [reflexivity|]. by apply main_request_unset.
  - unfold Transfer.destroy.
    erewrite bind_raise; [done|].
    unfold bind at 1 in Hread. unfold bind at 1.
    destruct (__getattr__ self "id" w) as [[o|e] w2]; [|done].
    rewrite (bind_return _ _ _ _ _ Hread).
    erewrite bind_raise; [reflexivity|]. by apply main_request_unset.
Qed.

Lemma settled_or_nested op w :
  ready op w →
  settled op w
  ∨ ∃ self i d type,
      ((∃ kwargs, op = Transfer_update self kwargs) ∨ op = Transfer_destroy self)
      ∧ heap w !! self = Some i ∧ _attributes i !! "id" = Some (JDict d)
      ∧ d !! "object" = Some type ∧ hashable type.
Proof.
  destruct op; try (by left); simpl;
    intros (i & v & Hi & Hv & [Hplain | (d & type & -> & Htype & Hhashable)]);
    try (left; by exists i, v);
    right; exists self, i, d, type; eauto 10.
Qed.

Lemma as_ref_return (m : M loc) self w w' :
  m w = (Return self, w') → as_ref m w = (Return (Ref self), w').
Proof. intros Hm. unfold as_ref. by rewrite (bind_return _ _ _ _ _ Hm). Qed.

Lemma as_ref_raise (m : M loc) e w w' :
  m w = (Raise e, w') → as_ref m w = (Raise e, w').
Proof. intros Hm. unfold as_ref. by rewrite (bind_raise _ _ _ _ _ Hm). Qed.

Lemma __getattr___missing self i key w :
  heap w !! self = Some i → public key → _attributes i !! key = None →
  __getattr__ self key w = (Raise (AttributeError (JStr key)), w).
Proof.
  intros Hi Hk Hnone. rewrite (__getattr___public _ _ _ _ Hi Hk).
  unfold except_KeyError_raise_AttributeError, getitem. by rewrite Hnone.
Qed.

(** Without the field its path is built from, an operation fails while
    it evaluates the arguments of its request. *)
Lemma run_without_path_field op self field i w :
  path_field op = Some (self, field) →
  heap w !! self = Some i →
  _attributes i !! field = None →
  run op w = (Raise (missing_field op field), w).
Proof.
  intros Hop Hi Hnone.
  pose proof (attribute_missing self field i w Hi Hnone) as Hmissing.
  destruct op; try discriminate Hop; injection Hop as -> <-;
    unfold missing_field, run;
    unfold Token.reload, Card.reload, Card.update, Card.destroy,
      Charge.reload, Charge.update, Charge.capture, Charge.refund,
      Customer.reload, Customer.update, Customer.destroy, Refund.reload,
      Transfer.reload, Transfer.update, Transfer.destroy, Transaction.reload;
    try apply as_ref_raise;
    rewrite ?(bind_return _ _ _ _ _ (changed_with_spec _ _ _ _ Hi));
    try (by rewrite (bind_raise _ _ _ _ _ Hmissing)).
  - rewrite (bind_raise _ _ w (AttributeError (JStr "id")) w); [done|].
    by apply (__getattr___missing self i).
  - rewrite (bind_raise _ _ w (AttributeError (JStr "id")) w); [done|].
    by apply (__getattr___missing self i).
Qed.

(** C2 (as amended).  When the credential an operation requires is
    unset, the operation fails and nothing is handed to the transport.
    When the arguments of its request can be evaluated (always, for an
    operation that does not build its path from a field of the record;
    otherwise when the record holds the field, with a mapping the
    factory accepts where the field is read as an attribute) the failure
    is the configuration error raised while the requestor is built; and
    the world is untouched unless a mapping had to be materialized on
    the way.  On a record that lacks the field its path is built from,
    the operation fails earlier: with [KeyError] naming the field, and
    with [AttributeError] for [Transfer.update] and [Transfer.destroy];
    the world is untouched. *)
Theorem unset_credential op w :
  credential op w = None →
  wire (run op w).2 = wire w
  ∧ (∃ e, (run op w).1 = Raise e)
  ∧ (ready op w → (run op w).1 = Raise key_not_set)
  ∧ (settled op w → run op w = (Raise key_not_set, w))
  ∧ (∀ self field i,
       path_field op = Some (self, field) →
       heap w !! self = Some i →
       _attributes i !! field = None →
       run op w = (Raise (missing_field op field), w)).
Proof.
  intros Hkey. destruct (run_doomed op w Hkey) as [Hwire Hfails].
  split; [done|]. split; [done|]. split; [|split].
  - intros [Hsettled | (self & i & d & type & Hop & Hi & Hid & Htype & Hh)]
      %settled_or_nested.
    + by rewrite (run_key_not_set op w Hkey Hsettled).
    + eapply run_key_not_set_nested; [done| |done..].
      by destruct Hop as [[kwargs ->] | ->].
  - by apply run_key_not_set.
  - intros self field i. apply run_without_path_field.
Qed.

End unset_credentials.

Section unset_credentials_examples.
#[local] Existing Instance double.

Lemma unset_credential_witness :
  run (Charge_retrieve (JStr "chrg_1")) one_charge
    = (Raise key_not_set, one_charge)
  ∧ run (Charge_update 0 {[ "description" := JStr "x" ]}) one_charge
    = (Raise key_not_set, one_charge)
  ∧ run (Token_create ∅) one_charge = (Raise key_not_set, one_charge)
  ∧ wire (run (Charge_reload 0) one_anonymous_charge).2 = []
  ∧ (run (Transfer_update 0 ∅) one_nested_transfer).1 = Raise key_not_set
  ∧ run (Charge_reload 0) one_anonymous_charge
    = (Raise (KeyError (JStr "id")), one_anonymous_charge)
  ∧ run (Transfer_destroy 0) one_anonymous_charge
    = (Raise (AttributeError (JStr "id")), one_anonymous_charge).
Proof.
  split; [|split; [|split; [|split; [|split; [|split]]]]].
  - destruct (unset_credential (externals := double)
                (Charge_retrieve (JStr "chrg_1")) one_charge eq_refl)
      as (_ & _ & _ & Hsettled & _).
    apply Hsettled. exact I.
  - destruct (unset_credential (externals := double)
                (Charge_update 0 {[ "description" := JStr "x" ]}) one_charge
                eq_refl) as (_ & _ & _ & Hsettled & _).
    apply Hsettled.
    by exists (Instance Charge charge_1 ∅ ∅), (JStr "chrg_1").
  - destruct (unset_credential (externals := double)
                (Token_create ∅) one_charge eq_refl)
      as (_ & _ & _ & Hsettled & _).
    apply Hsettled. exact I.
  - apply (unset_credential (externals := double)
             (Charge_reload 0) one_anonymous_charge eq_refl).
  - destruct (unset_credential (externals := double)
                (Transfer_update 0 ∅) one_nested_transfer eq_refl)
      as (_ & _ & Hready & _).
    apply Hready. eexists _, _. split; [reflexivity|]. split; [reflexivity|].
    right. eexists _, _. split; [reflexivity|]. split; [reflexivity|exact I].
  - destruct (unset_credential (externals := double)
                (Charge_reload 0) one_anonymous_charge eq_refl)
      as (_ & _ & _ & _ & Hmissing).
    apply (Hmissing 0 "id" (Instance Charge anonymous_charge ∅ ∅));
      reflexivity.
  - destruct (unset_credential (externals := double)
                (Transfer_destroy 0) one_anonymous_charge eq_refl)
      as (_ & _ & _ & _ & Hmissing).
    apply (Hmissing 0 "id" (Instance Charge anonymous_charge ∅ ∅));
      reflexivity.
Defined.

(** C2, as stated, fails: reloading a charge that has no ["id"] while the
    secret key is unset raises [KeyError] while the path is being built,
    not the configuration error. *)
Lemma unset_credential_not_always_reported :
  credential (Charge_reload 0) one_anonymous_charge = None
  ∧ run (Charge_reload 0) one_anonymous_charge
    = (Raise (KeyError (JStr "id")), one_anonymous_charge).
Proof. split; reflexivity. Qed.

End unset_credentials_examples.

(** ** Updates *)

Section updates.
Context {externals : Externals}.

(** The request and the reload that end every [update]. *)
Lemma patch_and_reload self i path payload w :
  heap w !! self = Some i →
  (response <- _MainResource._request PATCH path (Some payload) None ;;
   _reload_data self response) w
  = patch self i path payload w.
Proof.
  intros Hi. unfold patch, bind.
  destruct (api_secret w) as [key|] eqn:Hkey.
  2:{ by rewrite main_request_unset. }
  rewrite (main_request_set key) by done. rewrite send_spec.
  destruct (request_url _ path) as [url|e]; [|done]. cbn zeta.
  destruct (requests _ _) as [response|e]; [|done].
  destruct (eq_str _ _); [done|]. unfold ret.
  rewrite (_reload_data_spec self i) by done.
  unfold with_heap, sent, with_wire. simpl. by rewrite Hkey.
Qed.

Lemma update_refines_patch self i w kwargs update path :
  heap w !! self = Some i →
  update_method (class_ i) = Some update →
  instance_path i = Some path →
  update self kwargs w = patch self i path (kwargs ∪ pending i) w.
Proof.
  intros Hi Hupdate Hpath. unfold update_method, instance_path in *.
  destruct (class_ i) eqn:Hclass; try done; injection Hupdate as <-.
  - (* Card *)
    unfold Card.update.
    rewrite (bind_return _ _ _ _ _ (changed_with_spec _ _ _ _ Hi)).
    rewrite (bind_return _ _ _ _ _ (attribute_holds _ _ _ _ _ Hi Hpath)).
    by apply patch_and_reload.
  - (* Charge *)
    destruct (_attributes i !! "id") as [id|] eqn:Hid; [|done].
    injection Hpath as <-. unfold Charge.update.
    rewrite (bind_return _ _ _ _ _ (changed_with_spec _ _ _ _ Hi)).
    rewrite (bind_return _ _ _ _ _ (attribute_holds _ _ _ _ _ Hi Hid)).
    by apply patch_and_reload.
  - (* Customer *)
    destruct (_attributes i !! "id") as [id|] eqn:Hid; [|done].
    injection Hpath as <-. unfold Customer.update.
    rewrite (bind_return _ _ _ _ _ (changed_with_spec _ _ _ _ Hi)).
    rewrite (bind_return _ _ _ _ _ (attribute_holds _ _ _ _ _ Hi Hid)).
    by apply patch_and_reload.
  - (* Transfer *)
    destruct (_attributes i !! "id") as [id|] eqn:Hid; [|done].
    assert (¬ is_dict id ∧ path = JList (Transfer._instance_path id))
      as [Hplain ->].
    { destruct id; try done; by (split; [intros [? [=]]|injection Hpath]). }
    unfold Transfer.update.
    rewrite (bind_return _ _ _ _ _ (changed_with_spec _ _ _ _ Hi)).
    pose proof (read_plain_id self i id w Hi Hid Hplain) as Hread.
    unfold bind at 1 in Hread. unfold bind at 1.
    destruct (__getattr__ self "id" w) as [[o|e] w1]; [|done].
    rewrite (bind_return _ _ _ _ _ Hread).
    by apply patch_and_reload.
Qed.

(** C9.  An [update] on a record of a class that has one, holding what
    its instance path is built from, is one [PATCH] of that path whose
    payload is the dirty fields merged with the fields passed, the fields
    passed winning; it fails as every request fails (no secret key, no
    URL, transport error, error body) and otherwise replaces the whole
    state of the record by the answer, empties the dirty set and returns
    the record itself. *)
Theorem update_sends_merge self i w kwargs update path :
  heap w !! self = Some i →
  update_method (class_ i) = Some update →
  instance_path i = Some path →
  let payload := kwargs ∪ pending i in
  (∀ name, payload !! name =
           match kwargs !! name with
           | Some v => Some v
           | None => pending i !! name
           end)
  ∧ update self kwargs w = patch self i path payload w
  ∧ (∀ key url response,
       api_secret w = Some key →
       request_url (Request.New key api_main) path = Return url →
       requests (wire w)
         (request_call (Request.New key api_main) PATCH url (Some payload) None)
         = Return response →
       ¬ is_error response →
       update self kwargs w =
         (Return self,
          World (api_secret w) (api_public w)
                (<[self := Instance (class_ i) response ∅ (__dict__ i)]>
                   (heap w))
                (wire w ++ [request_call (Request.New key api_main) PATCH url
                              (Some payload) None]))).
Proof.
  intros Hi Hupdate Hpath payload. split; [|split].
  - intros name. unfold payload. rewrite lookup_union.
    by destruct (kwargs !! name), (pending i !! name).
  - by apply update_refines_patch.
  - intros key url response Hkey Hurl Hresponse Herr.
    rewrite (update_refines_patch _ _ _ _ _ _ Hi Hupdate Hpath).
    unfold patch. rewrite Hkey, Hurl. cbn zeta. fold payload.
    rewrite Hresponse.
    destruct (eq_str _ _) eqn:Htest; [|done]. by apply is_error_test in Htest.
Qed.

End updates.

Section updates_examples.
#[local] Existing Instance double.

Lemma update_sends_merge_witness :
  let headers : gmap string string :=
    {[ "Accept" := "application/json";
       "User-Agent" := "OmisePython/0.5.1 OmiseAPI/2014-07-27" ]} in
  Customer.update 0 {[ "email" := JStr "john.smith@example.com" ]}
    dirty_customer
  = (Return 0,
     World (Some "skey_test") (Some "pkey_test")
       {[ 0 := Instance Customer charge_2 ∅ ∅ ]}
       [HttpCall PATCH "https://api.omise.co/customers/cust_1"
          {[ "email" := JStr "john.smith@example.com";
             "description" := JStr "vip" ]}
          headers ("skey_test", None) ca_certificates])
  ∧ Charge.update 0 {[ "description" := JStr "final" ]} one_paid_charge
  = (Return 0,
     World (Some "skey_test") (Some "pkey_test")
       {[ 0 := Instance Charge charge_2 ∅ ∅ ]}
       [HttpCall PATCH "https://api.omise.co/charges/chrg_1"
          {[ "description" := JStr "final" ]}
          headers ("skey_test", None) ca_certificates])
  ∧ Card.update 0 ∅ one_card
  = (Return 0,
     World (Some "skey_test") (Some "pkey_test")
       {[ 0 := Instance Card charge_2 ∅ ∅ ]}
       [HttpCall PATCH "https://api.omise.co/customers/cust_1/cards/card_1"
          {[ "name" := JStr "J. Doe" ]}
          headers ("skey_test", None) ca_certificates])
  ∧ Transfer.update 0 {[ "amount" := JInt 900 ]} one_transfer
  = (Return 0,
     World (Some "skey_test") (Some "pkey_test")
       {[ 0 := Instance Transfer charge_2 ∅ ∅ ]}
       [HttpCall PATCH "https://api.omise.co/transfers/trsf_1"
          {[ "amount" := JInt 900 ]}
          headers ("skey_test", None) ca_certificates]).
Proof.
  intros headers. split; [|split; [|split]].
  - destruct (update_sends_merge (externals := double) 0
                (Instance Customer
                   (<["email" := JStr "draft@example.com"]>
                      (<["description" := JStr "vip"]> customer_1))
                   {[ "email"; "description" ]} ∅)
                dirty_customer {[ "email" := JStr "john.smith@example.com" ]}
                Customer.update (JList [JStr "customers"; JStr "cust_1"])
                eq_refl eq_refl eq_refl) as (_ & _ & Hdone).
    rewrite (Hdone "skey_test" "https://api.omise.co/customers/cust_1" charge_2
               eq_refl eq_refl eq_refl); [|discriminate].
    f_equal.
  - destruct (update_sends_merge (externals := double) 0
                (Instance Charge (<["description" := JStr "draft"]> charge_1)
                   {[ "description" ]} ∅)
                one_paid_charge {[ "description" := JStr "final" ]}
                Charge.update (JList [JStr "charges"; JStr "chrg_1"])
                eq_refl eq_refl eq_refl) as (_ & _ & Hdone).
    rewrite (Hdone "skey_test" "https://api.omise.co/charges/chrg_1" charge_2
               eq_refl eq_refl eq_refl); [|discriminate].
    f_equal.
  - destruct (update_sends_merge (externals := double) 0
                (Instance Card
                   (<["name" := JStr "J. Doe"]>
                      (<["location" := JStr "/customers/cust_1/cards/card_1"]>
                         card_1))
                   {[ "name" ]} ∅)
                one_card ∅ Card.update
                (JStr "/customers/cust_1/cards/card_1")
                eq_refl eq_refl eq_refl) as (_ & _ & Hdone).
    rewrite (Hdone "skey_test"
               "https://api.omise.co/customers/cust_1/cards/card_1" charge_2
               eq_refl eq_refl eq_refl); [|discriminate].
    f_equal.
  - destruct (update_sends_merge (externals := double) 0
                (Instance Transfer
                   {[ "object" := JStr "transfer"; "id" := JStr "trsf_1";
                      "amount" := JInt 500 ]}
                   {[ "amount" ]} ∅)
                one_transfer {[ "amount" := JInt 900 ]} Transfer.update
                (JList [JStr "transfers"; JStr "trsf_1"])
                eq_refl eq_refl eq_refl) as (_ & _ & Hdone).
    rewrite (Hdone "skey_test" "https://api.omise.co/transfers/trsf_1" charge_2
               eq_refl eq_refl eq_refl); [|discriminate].
    f_equal.
Defined.

End updates_examples.

(** ** Collections *)

Lemma index_in_range {A} (seq : list A) k x w :
  seq !! k = Some x → index seq (Z.of_nat k) w = (Return x, w).
Proof.
  intros Hk. unfold index.
  assert ((Z.of_nat k <? 0)%Z = false) as Hpos by (apply Z.ltb_ge; lia).
  rewrite Hpos. cbn zeta. by rewrite Hpos, Nat2Z.id, Hk.
Qed.

Lemma index_from_end {A} (seq : list A) k x w :
  seq !! k = Some x →
  index seq (Z.of_nat k - Z.of_nat (length seq)) w = (Return x, w).
Proof.
  intros Hk. pose proof (lookup_lt_Some _ _ _ Hk) as Hlt. unfold index.
  assert ((Z.of_nat k - Z.of_nat (length seq) <? 0)%Z = true) as ->
    by (apply Z.ltb_lt; lia).
  replace (Z.of_nat k - Z.of_nat (length seq) + Z.of_nat (length seq))%Z
    with (Z.of_nat k) by lia.
  assert ((Z.of_nat k <? 0)%Z = false) as -> by (apply Z.ltb_ge; lia).
  by rewrite Nat2Z.id, Hk.
Qed.

Lemma index_out_of_range {A} (seq : list A) (item : Z) w :
  (item < - Z.of_nat (length seq) ∨ Z.of_nat (length seq) ≤ item)%Z →
  index seq item w = (Raise (IndexError "index out of range"), w).
Proof.
  intros Hitem. unfold index.
  destruct (Z.ltb_spec item 0) as [Hneg|Hpos].
  - destruct (Z.ltb_spec (item + Z.of_nat (length seq)) 0); [done|lia].
  - destruct (Z.ltb_spec item 0); [lia|].
    rewrite lookup_ge_None_2; [done|]. lia.
Qed.

(** [list(g)] is [next(g)] called until the generator stops. *)
Lemma list__unfold g w :
  Collection.list_ g w =
    (r <- Collection.__next__ g ;;
     match r with
     | None => ret []
     | Some (o, g') => os <- Collection.list_ g' ;; ret (o :: os)
     end) w.
Proof.
  assert (∀ rest w,
            traverse _as_object rest w =
              (r <- match rest with
                    | [] => ret None
                    | obj :: rest =>
                        o <- _as_object obj ;;
                        ret (Some (o, Collection.Suspended rest))
                    end ;;
               match r with
               | None => ret []
               | Some (o, g') => os <- Collection.list_ g' ;; ret (o :: os)
               end) w) as Hresume.
  { intros [|obj rest] w'; [done|]. simpl. unfold bind.
    by destruct (_as_object obj w') as [[o|e] w1]. }
  destruct g as [self | rest | ]; simpl; [|apply Hresume|done].
  rewrite bind_assoc. apply bind_ext; [done|]. intros data w1.
  rewrite bind_assoc. apply bind_ext; [done|]. intros elements w2.
  apply Hresume.
Qed.

Lemma iter_list l w : iter (JList l) w = (Return l, w).
Proof. reflexivity. Qed.

Lemma eq_str_true v s : eq_str v s = true ↔ v = JStr s.
Proof.
  destruct v; simpl; try (split; [done|by intros [=]]).
  rewrite String.eqb_eq. naive_solver.
Qed.

Lemma find_match before d after object_id w :
  Forall (identified_otherwise object_id) before →
  d !! "id" = Some (JStr object_id) →
  Collection.find (before ++ JDict d :: after) object_id w
  = _as_object (JDict d) w.
Proof.
  intros Hbefore Hd. induction Hbefore as [|x before (d' & v & -> & Hv & Hne) _ IH].
  - simpl. unfold getitem. rewrite Hd. unfold bind at 1, ret at 1.
    simpl. by rewrite String.eqb_refl.
  - simpl. unfold getitem. rewrite Hv. unfold bind at 1, ret at 1.
    destruct (eq_str v object_id) eqn:Hv'; [|done].
    by apply eq_str_true in Hv'.
Qed.

Lemma find_no_match data object_id w :
  Forall (identified_otherwise object_id) data →
  Collection.find data object_id w = (Return (Plain JNone), w).
Proof.
  induction 1 as [|x data (d' & v & -> & Hv & Hne) _ IH]; [done|].
  simpl. unfold getitem. rewrite Hv. unfold bind at 1, ret at 1.
  destruct (eq_str v object_id) eqn:Hv'; [|done].
  by apply eq_str_true in Hv'.
Qed.

(** C6 (as amended).  For a collection whose ["data"] is a list: its
    length is the length of the list; iterating materializes the elements
    one by one in the order of the list, and [list] of it is the list of
    all of them; indexing materializes the element at the index, an
    object of the same shape as the one an iteration yields at that
    position; [retrieve(id)] materializes the first element whose raw
    ["id"] is [id], provided every element before it is a mapping with
    an ["id"], and returns [None] when every element is a mapping with
    another ["id"]; [retrieve()] returns the list of all materialized
    elements. *)
Theorem collection_access self i l w :
  heap w !! self = Some i →
  _attributes i !! "data" = Some (JList l) →
  Collection.__len__ self w = (Return (length l), w)
  ∧ Collection.__next__ (Collection.__iter__ self) w
    = Collection.__next__ (Collection.Suspended l) w
  ∧ (∀ obj rest w1,
       Collection.__next__ (Collection.Suspended (obj :: rest)) w1
       = (o <- _as_object obj ;; ret (Some (o, Collection.Suspended rest))) w1)
  ∧ (∀ w1, Collection.__next__ (Collection.Suspended []) w1 = (Return None, w1))
  ∧ Collection.list_ (Collection.__iter__ self) w = traverse _as_object l w
  ∧ (∀ k obj,
       l !! k = Some obj →
       Collection.__getitem__ self (Z.of_nat k) w = _as_object obj w
       ∧ ∀ o1 w1 w2 o2 g w2',
           Collection.__getitem__ self (Z.of_nat k) w = (Return o1, w1) →
           Collection.__next__ (Collection.Suspended (drop k l)) w2
             = (Return (Some (o2, g)), w2') →
           view (heap w1) o1 = Some (materialized obj)
           ∧ view (heap w2') o2 = Some (materialized obj)
           ∧ g = Collection.Suspended (drop (S k) l))
  ∧ (∀ object_id before d after,
       l = before ++ JDict d :: after →
       Forall (identified_otherwise object_id) before →
       d !! "id" = Some (JStr object_id) →
       Collection.retrieve self (Some object_id) w = _as_object (JDict d) w)
  ∧ (∀ object_id,
       Forall (identified_otherwise object_id) l →
       Collection.retrieve self (Some object_id) w = (Return (Plain JNone), w))
  ∧ Collection.retrieve self None w
    = (objs <- traverse _as_object l ;; ret (PyList objs)) w.
Proof.
  intros Hi Hdata.
  pose proof (attribute_holds self "data" i (JList l) w Hi Hdata) as Hattr.
  assert (∀ k obj, l !! k = Some obj →
            Collection.__getitem__ self (Z.of_nat k) w = _as_object obj w)
    as Hgetitem.
  { intros k obj Hk. unfold Collection.__getitem__.
    rewrite (bind_return _ _ _ _ _ Hattr). simpl.
    by rewrite (bind_return _ _ _ _ _ (index_in_range _ _ _ _ Hk)). }
  split; [|split; [|split; [|split; [|split; [|split; [|split; [|split]]]]]]].
  - unfold Collection.__len__. by rewrite (bind_return _ _ _ _ _ Hattr).
  - unfold Collection.__next__, Collection.__iter__.
    rewrite (bind_return _ _ _ _ _ Hattr).
    by rewrite (bind_return _ _ _ _ _ (iter_list _ _)).
  - done.
  - done.
  - unfold Collection.list_, Collection.__iter__.
    rewrite (bind_return _ _ _ _ _ Hattr).
    by rewrite (bind_return _ _ _ _ _ (iter_list _ _)).
  - intros k obj Hk. split; [by apply Hgetitem|].
    intros o1 w1 w2 o2 g w2' Hget Hnext.
    rewrite (Hgetitem _ _ Hk) in Hget.
    pose proof (_as_object_effect obj w) as Heff1. rewrite Hget in Heff1.
    rewrite (drop_S _ _ _ Hk) in Hnext. simpl in Hnext. unfold bind in Hnext.
    pose proof (_as_object_effect obj w2) as Heff2.
    destruct (_as_object obj w2) as [[o|e] w3]; [|done].
    injection Hnext as <- <- <-.
    destruct Heff1 as [_ [? _]], Heff2 as [_ [? _]]. done.
  - intros object_id before d after -> Hbefore Hd. unfold Collection.retrieve.
    rewrite (bind_return _ _ _ _ _ Hattr).
    rewrite (bind_return _ _ _ _ _ (iter_list _ _)). by apply find_match.
  - intros object_id Hall. unfold Collection.retrieve.
    rewrite (bind_return _ _ _ _ _ Hattr).
    rewrite (bind_return _ _ _ _ _ (iter_list _ _)). by apply find_no_match.
  - unfold Collection.retrieve, Collection.list_, Collection.__iter__.
    apply bind_ext; [|done]. rewrite (bind_return _ _ _ _ _ Hattr).
    by rewrite (bind_return _ _ _ _ _ (iter_list _ _)).
Qed.

Lemma collection_access_witness :
  Collection.__len__ 0 one_collection = (Return 2, one_collection)
  ∧ Collection.__getitem__ 0 1 one_collection
    = _as_object (JDict charge_2) one_collection
  ∧ Collection.retrieve 0 (Some "chrg_2") one_collection
    = (Return (Ref 1),
       with_heap one_collection
         (<[1 := Instance Charge charge_2 ∅ ∅]> (heap one_collection)))
  ∧ Collection.retrieve 0 (Some "chrg_9") one_collection
    = (Return (Plain JNone), one_collection).
Proof.
  destruct (collection_access 0 (Instance Collection charge_list ∅ ∅)
              [JDict charge_1; JDict charge_2] one_collection
              eq_refl eq_refl)
    as (Hlen & _ & _ & _ & _ & Hindex & Hfound & Hnone & _).
  split; [exact Hlen|]. split; [|split].
  - apply (Hindex 1 (JDict charge_2) eq_refl).
  - rewrite (Hfound "chrg_2" [JDict charge_1] charge_2 [] eq_refl);
      [reflexivity| |reflexivity].
    constructor; [|constructor].
    exists charge_1, (JStr "chrg_1"). repeat split. discriminate.
  - apply Hnone. constructor; [|constructor; [|constructor]].
    + exists charge_1, (JStr "chrg_1"). repeat split. discriminate.
    + exists charge_2, (JStr "chrg_2"). repeat split. discriminate.
Defined.

(** C6, as stated, fails: in a collection whose first element has no
    ["id"], [retrieve] raises [KeyError] both when no element matches
    (instead of finding nothing) and when a later element matches
    (instead of returning it). *)
Lemma retrieve_raises_on_unidentified_element :
  Collection.__len__ 0 one_ragged_collection = (Return 2, one_ragged_collection)
  ∧ Collection.retrieve 0 (Some "chrg_9") one_ragged_collection
    = (Raise (KeyError (JStr "id")), one_ragged_collection)
  ∧ Collection.retrieve 0 (Some "chrg_2") one_ragged_collection
    = (Raise (KeyError (JStr "id")), one_ragged_collection).
Proof. repeat split. Qed.

(** * Further properties of the code *)

(** ** Paths *)

Section paths.
Context {externals : Externals}.

(** X1.  Against a base URL that has directories and ends in a slash,
    [_build_path] puts the joined segments right behind the base: the
    directories of the base are kept, and no slash is added or lost. *)
Theorem build_path_under_directories key scheme host dirs path w :
  scheme = "http" ∨ scheme = "https" →
  plain_host host →
  Forall plain_segment dirs →
  segments path ≠ [] →
  Forall (λ v, plain_segment (str v)) (segments path) →
  Request._build_path
    (Request.New key (scheme +:+ "://" +:+ host +:+ directory dirs)) path w =
    (Return (scheme +:+ "://" +:+ host +:+ directory dirs
             +:+ String.concat "/" (str <$> segments path)), w).
Proof.
  intros Hscheme Hhost Hdirs Hne Hall.
  rewrite _build_path_spec. unfold request_url. simpl.
  rewrite urljoin_directory; [done..| |].
  - by destruct (segments path).
  - by apply Forall_fmap.
Qed.

(** X2.  A path given as one text that starts with a slash, such as the
    [location] of a card, replaces the path of the base: whatever
    directories the base has, the request goes to the scheme and host of
    the base followed by that text. *)
Theorem build_path_of_location key scheme host base_path pieces w :
  scheme = "http" ∨ scheme = "https" →
  plain_host host →
  base_path = "" ∨ (∃ dirs, Forall plain_segment dirs
                            ∧ base_path = directory dirs) →
  pieces ≠ [] →
  Forall plain_segment pieces →
  Request._build_path
    (Request.New key (scheme +:+ "://" +:+ host +:+ base_path))
    (JStr ("/" +:+ String.concat "/" pieces)) w =
    (Return (scheme +:+ "://" +:+ host +:+ "/" +:+ String.concat "/" pieces),
     w).
Proof.
  intros Hscheme Hhost Hbase Hne Hall.
  rewrite _build_path_spec. unfold request_url. simpl.
  erewrite urljoin_rooted; [done..| | |done|done].
  - by destruct Hhost.
  - destruct Hbase as [-> | (dirs & Hdirs & ->)].
    + apply urlparse_base; auto.
    + by apply urlparse_base_directory.
Qed.

(** X3.  The two degenerate cases of [_build_path]: an empty sequence of
    segments, or an empty text, gives the base URL itself; and a
    requestor whose base is empty gives the joined segments as they
    are. *)
Theorem build_path_empty_sides :
  (∀ self w,
     Request._build_path self (JList []) w = (Return (Request.api_base self), w)
     ∧ Request._build_path self (JStr "") w
       = (Return (Request.api_base self), w))
  ∧ (∀ key path w,
       Request._build_path (Request.New key "") path w =
         (Return (String.concat "/" (str <$> segments path)), w)).
Proof.
  split.
  - intros self w. rewrite !_build_path_spec. unfold request_url. simpl.
    by rewrite urljoin_empty_url.
  - intros key path w. by rewrite _build_path_spec.
Qed.

(** X4.  The host of a request is not pinned to the base: a path given
    as one text that starts with two slashes and a host is resolved to
    that host, under the scheme of the base, and [send] hands the
    transport a call to it that carries the requestor's key. *)
Theorem build_path_to_other_host key scheme host base_path host' pieces w :
  scheme = "http" ∨ scheme = "https" →
  plain_host host →
  base_path = "" ∨ (∃ dirs, Forall plain_segment dirs
                            ∧ base_path = directory dirs) →
  plain_host host' →
  contains ":" host' = false →
  pieces ≠ [] →
  Forall plain_segment pieces →
  let self := Request.New key (scheme +:+ "://" +:+ host +:+ base_path) in
  let path := JStr ("//" +:+ host' +:+ "/" +:+ String.concat "/" pieces) in
  let url := scheme +:+ "://" +:+ host' +:+ "/" +:+ String.concat "/" pieces in
  Request._build_path self path w = (Return url, w)
  ∧ ∀ method payload headers,
      wire (Request.send self method path payload headers w).2
      = wire w ++ [HttpCall method url (default ∅ payload)
                     (Request._build_headers headers) (key, None)
                     ca_certificates].
Proof.
  intros Hscheme Hhost Hbase Hhost' Hcolon Hne Hall self path url.
  assert (request_url self path = Return url) as Hurl.
  { unfold request_url. simpl.
    eapply urljoin_network_path; [done| |done..].
    destruct Hbase as [-> | (dirs & Hdirs & ->)].
    - apply urlparse_base; auto.
    - by apply urlparse_base_directory. }
  split; [by rewrite _build_path_spec, Hurl|].
  intros method payload headers. rewrite send_spec, Hurl. cbn zeta.
  unfold request_call.
  assert (Request._build_payload payload = default ∅ payload) as ->
    by (by destruct payload).
  destruct (requests _ _) as [response|e]; [|done].
  by destruct (eq_str _ _).
Qed.

End paths.

Section paths_examples.
#[local] Existing Instance double.

Lemma build_path_under_directories_witness :
  Request._build_path (Request.New "skey_test" "https://api.omise.co/v1/beta/")
    (JList [JStr "customers"; JStr "cust_1"]) one_customer
  = (Return "https://api.omise.co/v1/beta/customers/cust_1", one_customer).
Proof.
  apply (build_path_under_directories (externals := double)
           "skey_test" "https" "api.omise.co" ["v1"; "beta"]
           (JList [JStr "customers"; JStr "cust_1"]) one_customer);
    try (by auto); try (by split).
  - repeat constructor; discriminate.
  - repeat constructor; discriminate.
Defined.

Lemma build_path_of_location_witness :
  Request._build_path (Request.New "skey_test" "https://api.omise.co/v1/")
    (JStr "/customers/cust_1/cards/card_1") one_customer
  = (Return "https://api.omise.co/customers/cust_1/cards/card_1",
     one_customer).
Proof.
  apply (build_path_of_location (externals := double)
           "skey_test" "https" "api.omise.co" "/v1/"
           ["customers"; "cust_1"; "cards"; "card_1"] one_customer);
    try (by auto); try (by split).
  - right. exists ["v1"]. split; [|reflexivity].
    repeat constructor; discriminate.
  - repeat constructor; discriminate.
Defined.

Lemma build_path_to_other_host_witness :
  Request._build_path (Request.New "skey_test" api_main)
    (JStr "//files.example.com/cards/card_1") one_customer
  = (Return "https://files.example.com/cards/card_1", one_customer).
Proof.
  apply (build_path_to_other_host (externals := double)
           "skey_test" "https" "api.omise.co" "" "files.example.com"
           ["cards"; "card_1"] one_customer);
    try (by auto); try (by split).
  repeat constructor; discriminate.
Defined.

End paths_examples.

(** ** Requests *)

Section requests.
Context {externals : Externals}.

(** X5.  [send] never touches a record or a setting.  When the URL
    cannot be built it raises without calling the transport; otherwise it
    hands the transport exactly one call: the method and URL asked for,
    the payload given or an empty mapping, the headers of
    [_build_headers], the key as user name with no password, and the
    certificates that come with the module; and what the transport
    raises, [send] raises. *)
Theorem send_effects self method path payload headers w :
  heap (Request.send self method path payload headers w).2 = heap w
  ∧ api_secret (Request.send self method path payload headers w).2
    = api_secret w
  ∧ api_public (Request.send self method path payload headers w).2
    = api_public w
  ∧ match request_url self path with
    | Raise e => Request.send self method path payload headers w = (Raise e, w)
    | Return url =>
        let call :=
          HttpCall method url (default ∅ payload)
                   (Request._build_headers headers)
                   (Request.api_key self, None) ca_certificates in
        wire (Request.send self method path payload headers w).2
        = wire w ++ [call]
        ∧ ∀ e, requests (wire w) call = Raise e →
               Request.send self method path payload headers w
               = (Raise e, sent w call)
    end.
Proof.
  rewrite send_spec. unfold request_call.
  assert (Request._build_payload payload = default ∅ payload) as ->
    by (by destruct payload).
  destruct (request_url self path) as [url|e]; [|done]. cbn zeta.
  destruct (requests _ _) as [response|e] eqn:Hresponse.
  - destruct (eq_str _ _); by repeat split.
  - repeat split. by intros ? [= ->].
Qed.

(** The request and the load that end every operation made in place. *)
Lemma main_request_and_load self i method path payload key url response w :
  heap w !! self = Some i →
  api_secret w = Some key →
  request_url (Request.New key api_main) path = Return url →
  requests (wire w)
    (request_call (Request.New key api_main) method url payload None)
    = Return response →
  ¬ is_error response →
  (response <- _MainResource._request method path payload None ;;
   _reload_data self response) w
  = (Return self,
     World (api_secret w) (api_public w)
           (<[self := Instance (class_ i) response ∅ (__dict__ i)]> (heap w))
           (wire w ++ [request_call (Request.New key api_main) method url
                         payload None])).
Proof.
  intros Hi Hkey Hurl Hresponse Herr.
  erewrite bind_return.
  2:{ rewrite (main_request_set key) by done. by apply send_returns_body. }
  by rewrite (_reload_data_spec self i).
Qed.

Lemma vault_request_and_load self i method path payload key url response w :
  heap w !! self = Some i →
  api_public w = Some key →
  request_url (Request.New key api_vault) path = Return url →
  requests (wire w)
    (request_call (Request.New key api_vault) method url payload None)
    = Return response →
  ¬ is_error response →
  (response <- _VaultResource._request method path payload None ;;
   _reload_data self response) w
  = (Return self,
     World (api_secret w) (api_public w)
           (<[self := Instance (class_ i) response ∅ (__dict__ i)]> (heap w))
           (wire w ++ [request_call (Request.New key api_vault) method url
                         payload None])).
Proof.
  intros Hi Hkey Hurl Hresponse Herr.
  erewrite bind_return.
  2:{ rewrite (vault_request_set key) by done. by apply send_returns_body. }
  by rewrite (_reload_data_spec self i).
Qed.

(** How an operation made in place runs when everything goes well. *)
Lemma in_place_run op self method i path key url response w :
  in_place op = Some (self, method) →
  heap w !! self = Some i →
  path_of op i = Some path →
  credential op w = Some key →
  request_url (Request.New key (api_base_of op)) path = Return url →
  requests (wire w)
    (request_call (Request.New key (api_base_of op)) method url None None)
    = Return response →
  ¬ is_error response →
  run op w =
    (Return (Ref self),
     World (api_secret w) (api_public w)
           (<[self := Instance (class_ i) response ∅ (__dict__ i)]> (heap w))
           (wire w ++ [request_call (Request.New key (api_base_of op)) method
                         url None None])).
Proof.
  intros Hop Hi Hpath Hkey Hurl Hresponse Herr.
  destruct op; try discriminate Hop; injection Hop as -> <-;
    unfold credential in Hkey; unfold api_base_of in *;
    unfold path_of in Hpath; cbn zeta in Hpath;
    unfold run; apply as_ref_return;
    unfold Account.reload, Balance.reload, Token.reload, Card.reload,
      Card.destroy, Charge.reload, Charge.capture, Customer.reload,
      Customer.destroy, Refund.reload, Transfer.reload, Transfer.destroy,
      Transaction.reload;
    try (destruct (_attributes i !! "id") as [id|] eqn:Hid; [|done]);
    try (injection Hpath as <-);
    try (rewrite (bind_return _ _ _ _ _ (attribute_holds _ _ _ _ _ Hi Hid)));
    try (rewrite (bind_return _ _ _ _ _ (attribute_holds _ _ _ _ _ Hi Hpath)));
    try (by apply main_request_and_load);
    try (by apply vault_request_and_load).
  (* Transfer.destroy reads the attribute *)
  assert (¬ is_dict id ∧ path = JList (Transfer._instance_path id))
    as [Hplain ->].
  { destruct id; try done; by (split; [intros [? [=]]|injection Hpath]). }
  pose proof (read_plain_id self i id w Hi Hid Hplain) as Hread.
  unfold bind at 1 in Hread. unfold bind at 1.
  destruct (__getattr__ self "id" w) as [[o|e] w1]; [|done].
  rewrite (bind_return _ _ _ _ _ Hread).
  by apply main_request_and_load.
Qed.

(** X6.  [reload], [destroy] and [capture] send one request without a
    payload (a [GET], a [DELETE], a [POST]) to the path built from the
    record; when the answer is not an error body, the whole state of the
    record becomes the answer, its dirty set becomes empty (changes that
    were never sent are dropped), no other record is touched, and the
    record itself is returned. *)
Theorem in_place_operation op self method i path key url response w :
  in_place op = Some (self, method) →
  heap w !! self = Some i →
  path_of op i = Some path →
  credential op w = Some key →
  request_url (Request.New key (api_base_of op)) path = Return url →
  requests (wire w)
    (HttpCall method url ∅ (Request._build_headers None) (key, None)
              ca_certificates)
    = Return response →
  ¬ is_error response →
  ∃ w',
    run op w = (Return (Ref self), w')
    ∧ heap w' = <[self := Instance (class_ i) response ∅ (__dict__ i)]> (heap w)
    ∧ wire w' = wire w ++ [HttpCall method url ∅ (Request._build_headers None)
                             (key, None) ca_certificates]
    ∧ changes self w' = (Return ∅, w').
Proof.
  intros Hop Hi Hpath Hkey Hurl Hresponse Herr.
  eexists. split; [by eapply in_place_run|]. split; [done|]. split; [done|].
  erewrite changes_spec by apply lookup_insert_eq.
  by rewrite pending_reload.
Qed.

(** X7.  After a [destroy] that went well, the [destroyed] property of
    the record is the [deleted] field of the server's answer, and is
    false when the answer has no such field. *)
Theorem destroyed_after_destroy op destroyed self i path key url response w :
  in_place op = Some (self, DELETE) →
  destroyed_of op = Some destroyed →
  heap w !! self = Some i →
  path_of op i = Some path →
  credential op w = Some key →
  request_url (Request.New key (api_base_of op)) path = Return url →
  requests (wire w)
    (HttpCall DELETE url ∅ (Request._build_headers None) (key, None)
              ca_certificates)
    = Return response →
  ¬ is_error response →
  ∃ w',
    (run op ;;; destroyed) w
    = (Return (default (JBool false) (response !! "deleted")), w')
    ∧ wire w' = wire w ++ [HttpCall DELETE url ∅ (Request._build_headers None)
                             (key, None) ca_certificates].
Proof.
  intros Hop Hdestroyed Hi Hpath Hkey Hurl Hresponse Herr.
  eexists. split.
  - erewrite bind_return by (by eapply in_place_run).
    destruct op; try discriminate Hdestroyed; injection Hdestroyed as <-;
      injection Hop as ->;
      unfold Card.destroyed, Customer.destroyed, Transfer.destroyed,
        get_deleted;
      (erewrite bind_return by (apply deref_some; apply lookup_insert_eq));
      reflexivity.
  - done.
Qed.

End requests.

Section requests_examples.
#[local] Existing Instance obliging.

Lemma in_place_operation_witness :
  ∃ w',
    run (Charge_reload 0) one_paid_charge = (Return (Ref 0), w')
    ∧ heap w' = {[ 0 := Instance Charge charge_2 ∅ ∅ ]}
    ∧ wire w' = [HttpCall GET "https://api.omise.co/charges/chrg_1" ∅
                   {[ "Accept" := "application/json";
                      "User-Agent" := "OmisePython/0.5.1 OmiseAPI/2014-07-27" ]}
                   ("skey_test", None) ca_certificates]
    ∧ changes 0 w' = (Return ∅, w').
Proof.
  destruct (in_place_operation (externals := obliging) (Charge_reload 0) 0 GET
              (Instance Charge (<["description" := JStr "draft"]> charge_1)
                 {[ "description" ]} ∅)
              (JList [JStr "charges"; JStr "chrg_1"]) "skey_test"
              "https://api.omise.co/charges/chrg_1" charge_2 one_paid_charge
              eq_refl eq_refl eq_refl eq_refl eq_refl eq_refl)
    as (w' & Hrun & Hheap & Hwire & Hchanges); [discriminate|].
  exists w'. split; [exact Hrun|]. split; [|split; [|exact Hchanges]].
  - rewrite Hheap. apply insert_singleton_eq.
  - rewrite Hwire. reflexivity.
Defined.

Lemma destroyed_after_destroy_witness :
  ∃ w',
    (run (Customer_destroy 0) ;;; Customer.destroyed 0) one_customer
    = (Return (JBool true), w').
Proof.
  destruct (destroyed_after_destroy (externals := obliging)
              (Customer_destroy 0) (Customer.destroyed 0) 0
              (Instance Customer customer_1 ∅ ∅)
              (JList [JStr "customers"; JStr "cust_1"]) "skey_test"
              "https://api.omise.co/customers/cust_1" deleted_customer
              one_customer eq_refl eq_refl eq_refl eq_refl eq_refl eq_refl
              eq_refl)
    as (w' & Hrun & _); [discriminate|].
  exists w'. exact Hrun.
Defined.

End requests_examples.

(** ** Operations on classes *)

Section class_operations.
Context {externals : Externals}.

(** The URL of plain segments under one of the two bases of the
    module. *)
Lemma api_url key base pieces :
  base = api_main ∨ base = api_vault →
  pieces ≠ [] → Forall plain_segment pieces →
  request_url (Request.New key base) (JList (JStr <$> pieces))
  = Return (base +:+ "/" +:+ String.concat "/" pieces).
Proof.
  intros Hbase Hne Hall. unfold request_url. rewrite segments_list.
  rewrite <-list_fmap_compose.
  assert (str ∘ JStr <$> pieces = pieces) as ->.
  { clear. induction pieces as [|p pieces IH]; [done|]. simpl. by f_equal. }
  destruct Hbase as [-> | ->]; simpl Request.api_base.
  - by apply (urljoin_plain "https" "api.omise.co" "");
      [right|split|left|..].
  - by apply (urljoin_plain "https" "vault.omise.co" "");
      [right|split|left|..].
Qed.

Lemma api_url_single key base name :
  base = api_main ∨ base = api_vault →
  plain_segment name →
  request_url (Request.New key base) (JStr name)
  = Return (base +:+ "/" +:+ name).
Proof.
  intros Hbase Hname.
  apply (api_url key base [name] Hbase); [done|].
  constructor; [done|constructor].
Qed.

Lemma main_request_returns method path payload key url response w :
  api_secret w = Some key →
  request_url (Request.New key api_main) path = Return url →
  requests (wire w)
    (request_call (Request.New key api_main) method url payload None)
    = Return response →
  ¬ is_error response →
  _MainResource._request method path payload None w =
    (Return response,
     sent w (request_call (Request.New key api_main) method url payload None)).
Proof.
  intros Hkey Hurl Hresponse Herr.
  rewrite (main_request_set key) by done. by apply send_returns_body.
Qed.

Lemma vault_request_returns method path payload key url response w :
  api_public w = Some key →
  request_url (Request.New key api_vault) path = Return url →
  requests (wire w)
    (request_call (Request.New key api_vault) method url payload None)
    = Return response →
  ¬ is_error response →
  _VaultResource._request method path payload None w =
    (Return response,
     sent w (request_call (Request.New key api_vault) method url payload None)).
Proof.
  intros Hkey Hurl Hresponse Herr.
  rewrite (vault_request_set key) by done. by apply send_returns_body.
Qed.

Lemma plain_segment_truthy id : plain_segment id → truthy (JStr id) = true.
Proof.
  intros (Hid & _). simpl. apply negb_true_iff. by apply String.eqb_neq.
Qed.

(** X8.  Retrieving an object by an identifier that is a plain text
    sends one [GET] to [<base>/<collection>/<id>], with the key the
    operation requires, and hands the answer to the object factory: the
    class of what comes back is the one registered for the answer's
    discriminator, whatever class the retrieval was asked of. *)
Theorem retrieve_by_id op collection id key response w :
  by_id op = Some (collection, JStr id) →
  plain_segment id →
  credential op w = Some key →
  requests (wire w)
    (HttpCall GET (api_base_of op +:+ "/" +:+ collection +:+ "/" +:+ id) ∅
              (Request._build_headers None) (key, None) ca_certificates)
    = Return response →
  ¬ is_error response →
  let w1 :=
    sent w (HttpCall GET
              (api_base_of op +:+ "/" +:+ collection +:+ "/" +:+ id) ∅
              (Request._build_headers None) (key, None) ca_certificates) in
  run op w = _as_object (JDict response) w1
  ∧ ∀ type, response !! "object" = Some type → hashable type →
      run op w =
        (Return (Ref (fresh (dom (heap w)))),
         with_heap w1 (<[fresh (dom (heap w)) :=
                           Instance (default Base (registered type)) response
                                    ∅ ∅]> (heap w))).
Proof.
  intros Hop Hid Hkey Hresponse Herr w1.
  assert (run op w = _as_object (JDict response) w1) as Hrun.
  { destruct op; try discriminate Hop; injection Hop as <- ->;
      unfold credential in Hkey; unfold api_base_of in *; unfold run;
      unfold Token.retrieve, Charge.retrieve, Customer.retrieve,
        Transfer.retrieve, Transaction.retrieve;
      rewrite ?(plain_segment_truthy _ Hid);
      (erewrite bind_return; [reflexivity|]);
      first [ eapply main_request_returns; [done| |exact Hresponse|done]
            | eapply vault_request_returns; [done| |exact Hresponse|done] ];
      (eapply (api_url _ _ [_; id]);
       [by auto|done|];
       constructor; [by repeat split|];
       constructor; [exact Hid|constructor]). }
  split; [done|]. intros type Htype Hhashable.
  rewrite Hrun. by rewrite (_as_object_dict _ _ _ Htype Hhashable).
Qed.

(** X9.  Creating an object, retrieving one of the two singletons, and
    retrieving with an identifier that is not truthy ([None], an empty
    text, zero) send one request to [<base>/<name>]: a [POST] carrying
    the fields given (for a token, each under the name [card[<name>]]),
    or a [GET] without a payload; the answer goes to the object
    factory. *)
Theorem collection_request op method name payload key response w :
  on_collection op = Some (method, name, payload) →
  credential op w = Some key →
  requests (wire w)
    (HttpCall method (api_base_of op +:+ "/" +:+ name) payload
              (Request._build_headers None) (key, None) ca_certificates)
    = Return response →
  ¬ is_error response →
  run op w =
    _as_object (JDict response)
      (sent w (HttpCall method (api_base_of op +:+ "/" +:+ name) payload
                 (Request._build_headers None) (key, None) ca_certificates)).
Proof.
  intros Hop Hkey Hresponse Herr.
  destruct op; try discriminate Hop; unfold on_collection in Hop;
    try (match type of Hop with
         | context [truthy ?x] => destruct (truthy x) eqn:Htruthy
         end; [discriminate Hop|]);
    injection Hop as <- <- <-;
    unfold credential in Hkey; unfold api_base_of in *; unfold run;
    unfold Account.retrieve, Balance.retrieve, Token.create, Charge.create,
      Charge.retrieve, Customer.create, Transfer.create, Transfer.retrieve,
      Transaction.retrieve;
    rewrite ?Htruthy;
    (erewrite bind_return; [reflexivity|]);
    first [ eapply main_request_returns; [done| |exact Hresponse|done]
          | eapply vault_request_returns; [done| |exact Hresponse|done] ];
    (eapply api_url_single; [by auto|by repeat split]).
Qed.

End class_operations.

Section class_operations_examples.
#[local] Existing Instance obliging.

Lemma retrieve_by_id_witness :
  run (Customer_retrieve (JStr "cust_9")) one_customer
  = (Return (Ref 1),
     World (Some "skey_test") (Some "pkey_test")
       (<[1 := Instance Charge charge_2 ∅ ∅]> (heap one_customer))
       [HttpCall GET "https://api.omise.co/customers/cust_9" ∅
          (Request._build_headers None) ("skey_test", None) ca_certificates]).
Proof.
  destruct (retrieve_by_id (externals := obliging)
              (Customer_retrieve (JStr "cust_9")) "customers" "cust_9"
              "skey_test" charge_2 one_customer eq_refl)
    as [_ Hclass]; [by repeat split|reflexivity|reflexivity|discriminate|].
  apply (Hclass (JStr "charge")); [reflexivity|exact I].
Defined.

Lemma collection_request_witness :
  run (Charge_retrieve (JStr "")) one_customer
  = (Return (Ref 1),
     World (Some "skey_test") (Some "pkey_test")
       (<[1 := Instance Collection charge_list ∅ ∅]> (heap one_customer))
       [HttpCall GET "https://api.omise.co/charges" ∅
          (Request._build_headers None) ("skey_test", None) ca_certificates]).
Proof.
  rewrite (collection_request (externals := obliging)
             (Charge_retrieve (JStr "")) GET "charges" ∅ "skey_test"
             charge_list one_customer eq_refl eq_refl eq_refl);
    [reflexivity|discriminate].
Defined.

End class_operations_examples.

(** ** Refunds *)

Section refunds.
Context {externals : Externals}.

(** X10.  [Charge.refund] makes two calls: it posts the refund under the
    charge, materializes the answer, and then reloads the charge.  When
    both go well the refund is returned as a new instance and the charge
    record holds the reloaded state.  When the reload is answered by an
    error body, [refund] raises that error although the refund was made,
    and the charge record is as it was. *)
Theorem refund_then_reload self i id kwargs key refund type charge w :
  heap w !! self = Some i →
  _attributes i !! "id" = Some (JStr id) →
  plain_segment id →
  api_secret w = Some key →
  let post :=
    HttpCall POST ("https://api.omise.co/charges/" +:+ id +:+ "/refunds")
             kwargs (Request._build_headers None) (key, None)
             ca_certificates in
  let get :=
    HttpCall GET ("https://api.omise.co/charges/" +:+ id) ∅
             (Request._build_headers None) (key, None) ca_certificates in
  let l := fresh (dom (heap w)) in
  let made := Instance (default Base (registered type)) refund ∅ ∅ in
  requests (wire w) post = Return refund →
  ¬ is_error refund →
  refund !! "object" = Some type →
  hashable type →
  requests (wire w ++ [post]) get = Return charge →
  (¬ is_error charge →
     Charge.refund self kwargs w =
       (Return (Ref l),
        World (api_secret w) (api_public w)
              (<[self := Instance (class_ i) charge ∅ (__dict__ i)]>
                 (<[l := made]> (heap w)))
              (wire w ++ [post; get])))
  ∧ (is_error charge →
     Charge.refund self kwargs w =
       (Raise (ApiError (default JNone (charge !! "code"))
                        (default JNone (charge !! "message"))),
        World (api_secret w) (api_public w) (<[l := made]> (heap w))
              (wire w ++ [post; get])))
  ∧ l ≠ self.
Proof.
  intros Hi Hid Hplain Hkey post get l made Hrefund Hok Htype Hhashable Hcharge.
  assert (l ≠ self) as Hne.
  { intros Heq. apply (is_fresh (dom (heap w))). fold l. rewrite Heq.
    apply elem_of_dom. eauto. }
  assert (request_url (Request.New key api_main)
            (JList (Charge._instance_path (JStr id) ++ [JStr "refunds"]))
          = Return ("https://api.omise.co/charges/" +:+ id +:+ "/refunds"))
    as Hurl1.
  { rewrite (api_url key api_main ["charges"; id; "refunds"]);
      [done|by left|done|].
    constructor; [by repeat split|].
    constructor; [done|]. constructor; [by repeat split|constructor]. }
  assert (request_url (Request.New key api_main)
            (JList (Charge._instance_path (JStr id)))
          = Return ("https://api.omise.co/charges/" +:+ id)) as Hurl2.
  { rewrite (api_url key api_main ["charges"; id]); [done|by left|done|].
    constructor; [by repeat split|]. constructor; [done|constructor]. }
  set (w2 := with_heap (sent w post) (<[l := made]> (heap w))).
  assert (heap w2 !! self = Some i) as Hi2.
  { unfold w2. simpl. by rewrite lookup_insert_ne. }
  assert (Charge.refund self kwargs w
          = (Charge.reload self ;;; ret (Ref l)) w2) as ->.
  { unfold Charge.refund.
    rewrite (bind_return _ _ _ _ _ (attribute_holds _ _ _ _ _ Hi Hid)).
    erewrite bind_return.
    2:{ eapply main_request_returns; [done|exact Hurl1|exact Hrefund|done]. }
    erewrite bind_return.
    2:{ by apply (_as_object_dict _ type). }
    done. }
  split; [|split; [|done]].
  - intros Hfine. erewrite bind_return.
    2:{ unfold Charge.reload.
        rewrite (bind_return _ _ _ _ _ (attribute_holds _ _ _ _ _ Hi2 Hid)).
        eapply (main_request_and_load self i GET); [done|done|exact Hurl2| |done].
        exact Hcharge. }
    unfold ret, w2, request_call. simpl. by rewrite <-app_assoc.
  - intros Herror. erewrite bind_raise; [reflexivity|].
    unfold Charge.reload.
    rewrite (bind_return _ _ _ _ _ (attribute_holds _ _ _ _ _ Hi2 Hid)).
    erewrite bind_raise; [reflexivity|].
    rewrite (main_request_set key) by done.
    erewrite send_raises_on_error; [|exact Hurl2|exact Hcharge|done].
    unfold w2, sent, with_wire, with_heap, request_call. simpl.
    by rewrite <-app_assoc.
Qed.

End refunds.

Section refunds_examples.
#[local] Existing Instance obliging.

Lemma refund_then_reload_witness :
  Charge.refund 0 {[ "amount" := JInt 100 ]} one_paid_charge
  = (Return (Ref 1),
     World (Some "skey_test") (Some "pkey_test")
       (<[0 := Instance Charge charge_2 ∅ ∅]>
          (<[1 := Instance Refund refund_1 ∅ ∅]> (heap one_paid_charge)))
       [HttpCall POST "https://api.omise.co/charges/chrg_1/refunds"
          {[ "amount" := JInt 100 ]} (Request._build_headers None)
          ("skey_test", None) ca_certificates;
        HttpCall GET "https://api.omise.co/charges/chrg_1" ∅
          (Request._build_headers None) ("skey_test", None) ca_certificates]).
Proof.
  destruct (refund_then_reload (externals := obliging) 0
              (Instance Charge (<["description" := JStr "draft"]> charge_1)
                 {[ "description" ]} ∅)
              "chrg_1" {[ "amount" := JInt 100 ]} "skey_test" refund_1
              (JStr "refund") charge_2 one_paid_charge eq_refl eq_refl)
    as (Hfine & _ & _);
    [by repeat split|reflexivity|reflexivity|discriminate|reflexivity|exact I
    |reflexivity|].
  apply Hfine. discriminate.
Defined.

End refunds_examples.

(** ** Operations on a record that lacks its path field *)

Section missing_fields.
Context {externals : Externals}.

(** X11.  An operation that builds its path from a field of the record
    ([id], or [location] for cards and refunds) and does not find that
    field fails before anything else happens: no requestor is built, so
    the credentials do not matter, nothing is sent, and nothing changes.
    It raises [KeyError] with the name of the field; [Transfer.update]
    and [Transfer.destroy], which read the field as an attribute, raise
    [AttributeError] instead. *)
Theorem operation_without_path_field op self field i w :
  path_field op = Some (self, field) →
  heap w !! self = Some i →
  _attributes i !! field = None →
  run op w = (Raise (missing_field op field), w).
Proof. apply run_without_path_field. Qed.

End missing_fields.

Section missing_fields_examples.
#[local] Existing Instance double.

Lemma operation_without_path_field_witness :
  run (Charge_capture 0) one_anonymous_charge
    = (Raise (KeyError (JStr "id")), one_anonymous_charge)
  ∧ run (Transfer_destroy 0) one_anonymous_charge
    = (Raise (AttributeError (JStr "id")), one_anonymous_charge)
  ∧ run (Card_update 0 ∅) one_customer
    = (Raise (KeyError (JStr "location")), one_customer).
Proof.
  split; [|split].
  - apply (operation_without_path_field (externals := double)
             (Charge_capture 0) 0 "id" (Instance Charge anonymous_charge ∅ ∅)
             one_anonymous_charge); reflexivity.
  - apply (operation_without_path_field (externals := double)
             (Transfer_destroy 0) 0 "id" (Instance Charge anonymous_charge ∅ ∅)
             one_anonymous_charge); reflexivity.
  - apply (operation_without_path_field (externals := double)
             (Card_update 0 ∅) 0 "location" (Instance Customer customer_1 ∅ ∅)
             one_customer); reflexivity.
Defined.

End missing_fields_examples.

(** ** What the operations send *)

Lemma quiet_assign self i : quiet (assign self i).
Proof. by intros w. Qed.

Lemma quiet__reload_data self data : quiet (_reload_data self data).
Proof.
  apply quiet_bind; [apply quiet_deref|]. intros i.
  apply quiet_bind; [apply quiet_assign|]. intros _. apply quiet_ret.
Qed.

Lemma emits_quiet {A} key (m : M A) : quiet m → emits key 0 m.
Proof.
  intros Hm w. destruct (Hm w) as (Hwire & Hsecret & Hpublic).
  split; [done|]. split; [done|]. exists []. rewrite app_nil_r.
  split; [done|]. split; [done|constructor].
Qed.

Lemma emits_bind {A B} key n1 n2 (m : M A) (k : A → M B) :
  key = api_secret ∨ key = api_public →
  emits key n1 m → (∀ a, emits key n2 (k a)) → emits key (n1 + n2) (bind m k).
Proof.
  intros Hkey Hm Hk w. unfold bind.
  destruct (Hm w) as (Hsecret & Hpublic & calls1 & Hwire & Hlen & Hall).
  destruct (m w) as [[a|e] w1]; simpl in *.
  - destruct (Hk a w1) as (Hsecret' & Hpublic' & calls2 & Hwire' & Hlen' & Hall').
    split; [congruence|]. split; [congruence|].
    exists (calls1 ++ calls2). rewrite Hwire', Hwire, <-app_assoc.
    split; [done|]. split; [rewrite length_app; lia|].
    apply Forall_app. split; [done|].
    by replace (key w) with (key w1) by (destruct Hkey as [-> | ->]; congruence).
  - split; [done|]. split; [done|]. exists calls1.
    split; [done|]. split; [lia|done].
Qed.

Lemma emits_after_quiet {A B} key n (m : M A) (k : A → M B) :
  key = api_secret ∨ key = api_public →
  quiet m → (∀ a, emits key n (k a)) → emits key n (bind m k).
Proof.
  intros Hkey Hm Hk. apply (emits_bind key 0 n); [done| |done].
  by apply emits_quiet.
Qed.

Lemma emits_before_quiet {A B} key n (m : M A) (k : A → M B) :
  key = api_secret ∨ key = api_public →
  emits key n m → (∀ a, quiet (k a)) → emits key n (bind m k).
Proof.
  intros Hkey Hm Hk. replace n with (n + 0) by lia.
  apply (emits_bind key n 0); [done..|]. intros a. by apply emits_quiet.
Qed.

Lemma emits_if {A} key n (b : bool) (m1 m2 : M A) :
  emits key n m1 → emits key n m2 → emits key n (if b then m1 else m2).
Proof. by destruct b. Qed.

Section emissions.
Context {externals : Externals}.

Lemma emits_send self method path payload headers key :
  key = api_secret ∨ key = api_public →
  ∀ w, key w = Some (Request.api_key self) →
  let r := Request.send self method path payload headers w in
  api_secret r.2 = api_secret w ∧ api_public r.2 = api_public w
  ∧ ∃ calls, wire r.2 = wire w ++ calls ∧ (length calls ≤ 1)%nat
             ∧ Forall (authenticated (key w)) calls.
Proof.
  intros Hkey w Hset. cbn zeta. rewrite send_spec.
  destruct (request_url self path) as [url|e].
  2:{ split; [done|]. split; [done|]. exists []. rewrite app_nil_r.
      split; [done|]. split; [simpl; lia|constructor]. }
  cbn zeta. set (call := request_call _ _ _ _ _).
  assert (authenticated (key w) call) as Hauth.
  { exists (Request.api_key self). by rewrite Hset. }
  destruct (requests (wire w) call) as [response|e];
    [destruct (eq_str _ _)|];
    (split; [done|]; split; [done|]; exists [call];
     split; [done|]; split; [simpl; lia|by constructor]).
Qed.

Lemma emits_main method path payload headers :
  emits api_secret 1 (_MainResource._request method path payload headers).
Proof.
  intros w.
  assert (∃ k, api_secret w = k) as [[key|] Hkey] by eauto.
  - rewrite (main_request_set key) by done.
    apply (emits_send (Request.New key api_main)); auto.
  - rewrite main_request_unset by done.
    split; [done|]. split; [done|]. exists []. rewrite app_nil_r.
    split; [done|]. split; [simpl; lia|constructor].
Qed.

Lemma emits_vault method path payload headers :
  emits api_public 1 (_VaultResource._request method path payload headers).
Proof.
  intros w.
  assert (∃ k, api_public w = k) as [[key|] Hkey] by eauto.
  - rewrite (vault_request_set key) by done.
    apply (emits_send (Request.New key api_vault)); auto.
  - rewrite vault_request_unset by done.
    split; [done|]. split; [done|]. exists []. rewrite app_nil_r.
    split; [done|]. split; [simpl; lia|constructor].
Qed.

(** One request followed by steps that send nothing. *)
Lemma emits_main_then {A} method path payload headers (k : _ → M A) :
  (∀ response, quiet (k response)) →
  emits api_secret 1
    (response <- _MainResource._request method path payload headers ;;
     k response).
Proof.
  intros Hk. apply emits_before_quiet; [by left|apply emits_main|done].
Qed.

Lemma emits_vault_then {A} method path payload headers (k : _ → M A) :
  (∀ response, quiet (k response)) →
  emits api_public 1
    (response <- _VaultResource._request method path payload headers ;;
     k response).
Proof.
  intros Hk. apply emits_before_quiet; [by right|apply emits_vault|done].
Qed.

Lemma emits_as_ref key n (m : M loc) :
  key = api_secret ∨ key = api_public →
  emits key n m → emits key n (as_ref m).
Proof.
  intros Hkey Hm. apply emits_before_quiet; [done..|].
  intros a. apply quiet_ret.
Qed.

End emissions.

#[export] Hint Resolve quiet_assign quiet__reload_data : quiet.

(** Peel an operation down to its one request. *)
Ltac emit :=
  repeat first
    [ apply emits_main_then; intros ?; solve [auto with quiet]
    | apply emits_vault_then; intros ?; solve [auto with quiet]
    | apply emits_if
    | apply emits_as_ref; [by auto|]
    | apply emits_after_quiet; [by auto | solve [auto with quiet] | intros ?] ].

Section emissions_of_operations.
Context {externals : Externals}.

Lemma run_emits op : emits (credential op) (most_calls op) (run op).
Proof.
  destruct op; unfold run, credential, most_calls;
    unfold Account.retrieve, Account.reload, Balance.retrieve, Balance.reload,
      Token.create, Token.retrieve, Token.reload,
      Card.reload, Card.update, Card.destroy,
      Charge.create, Charge.retrieve, Charge.update,
      Charge.capture, Charge.refund,
      Customer.create, Customer.retrieve, Customer.reload, Customer.update,
      Customer.destroy, Refund.reload,
      Transfer.create, Transfer.retrieve, Transfer.reload, Transfer.update,
      Transfer.destroy, Transaction.retrieve, Transaction.reload;
    try (unfold Charge.reload; emit; fail).
  (* Charge.refund: a request, and then the reload *)
  apply emits_after_quiet; [by left|auto with quiet|]. intros id.
  apply (emits_bind api_secret 1 1); [by left|apply emits_main|].
  intros response.
  apply emits_after_quiet; [by left|auto with quiet|]. intros refund.
  apply emits_before_quiet; [by left| |intros; apply quiet_ret].
  unfold Charge.reload. emit.
Qed.

(** X12.  Whatever an operation is given and whatever the transport
    answers, it hands the transport at most one call ([Charge.refund]:
    at most two); every call it makes carries the key the operation
    requires (the public key for the operations of [Token], the secret
    key for all others) as user name with no password, and is verified
    against the certificates that come with the module; the calls made
    before and the two settings are left as they were. *)
Theorem calls_carry_credential op w :
  ∃ calls,
    wire (run op w).2 = wire w ++ calls
    ∧ (length calls ≤ most_calls op)%nat
    ∧ Forall (λ call, ∃ key, credential op w = Some key
                             ∧ call_auth call = (key, None)
                             ∧ call_verify call = ca_certificates) calls
    ∧ api_secret (run op w).2 = api_secret w
    ∧ api_public (run op w).2 = api_public w.
Proof.
  destruct (run_emits op w) as (Hsecret & Hpublic & calls & Hwire & Hlen & Hall).
  exists calls. by repeat split.
Qed.

End emissions_of_operations.

(** ** What a failed operation leaves behind *)

Lemma gentle_ret {A} (a : A) : gentle (ret a).
Proof. by intros w. Qed.

Lemma gentle_raise {A} e : gentle (raise e : M A).
Proof. by intros w. Qed.

Lemma gentle_bind {A B} (m : M A) (k : A → M B) :
  gentle m → (∀ a, gentle (k a)) → gentle (bind m k).
Proof.
  intros Hm Hk w. unfold bind. specialize (Hm w).
  destruct (m w) as [[a|e] w1]; [|done]. simpl in Hm.
  etrans; [exact Hm|apply Hk].
Qed.

Lemma gentle_deref self : gentle (deref self).
Proof. intros w. unfold deref. by destruct (heap w !! self). Qed.

Lemma gentle_getitem d key : gentle (getitem d key).
Proof. intros w. unfold getitem. by destruct (d !! key). Qed.

Lemma gentle_attribute self key : gentle (attribute self key).
Proof.
  apply gentle_bind; [apply gentle_deref|]. intros i. apply gentle_getitem.
Qed.

Lemma gentle_changed_with self kwargs : gentle (changed_with self kwargs).
Proof.
  apply gentle_bind; [|intros; apply gentle_ret].
  apply gentle_bind; [apply gentle_deref|]. intros i. apply gentle_ret.
Qed.

Lemma gentle__as_object v : gentle (_as_object v).
Proof.
  intros w. pose proof (_as_object_effect v w) as Heff.
  destruct (_as_object v w) as [[o|e] w'].
  - by destruct Heff as [(? & _) _].
  - by destruct Heff as (? & _).
Qed.

Lemma gentle_except {A} (m : M A) :
  gentle m → gentle (except_KeyError_raise_AttributeError m).
Proof.
  intros Hm w. unfold except_KeyError_raise_AttributeError.
  specialize (Hm w). destruct (m w) as [[a|e] w']; [done|]. by destruct e.
Qed.

Lemma gentle___getattr__ self key : gentle (__getattr__ self key).
Proof.
  unfold __getattr__. destruct key as [|c key]; [apply gentle_raise|].
  case_bool_decide; [apply gentle_raise|].
  apply gentle_except. apply gentle_bind; [apply gentle_deref|]. intros i.
  apply gentle_bind; [apply gentle_getitem|]. intros v.
  destruct v; first [apply gentle__as_object | apply gentle_ret].
Qed.

Lemma careful_gentle {A} (m : M A) : gentle m → careful m.
Proof. intros Hm w e w' Hrun. specialize (Hm w). by rewrite Hrun in Hm. Qed.

Lemma careful_bind {A B} (m : M A) (k : A → M B) :
  gentle m → (∀ a, careful (k a)) → careful (bind m k).
Proof.
  intros Hm Hk w e w'. unfold bind. specialize (Hm w).
  destruct (m w) as [[a|e'] w1]; simpl in Hm.
  - intros Hrun. etrans; [exact Hm|by eapply Hk].
  - by intros [= _ <-].
Qed.

Lemma careful_then_ret {A B} (m : M A) (f : A → B) :
  careful m → careful (a <- m ;; ret (f a)).
Proof.
  intros Hm w e w'. unfold bind. specialize (Hm w).
  destruct (m w) as [[a|e'] w1]; [done|]. intros [= -> ->]. by eapply Hm.
Qed.

Lemma careful_if {A} (b : bool) (m1 m2 : M A) :
  careful m1 → careful m2 → careful (if b then m1 else m2).
Proof. by destruct b. Qed.

(** Loading is the one step that rewrites a record, and it does not
    fail on a record that exists. *)
Lemma careful__reload_data self data : careful (_reload_data self data).
Proof.
  intros w e w'. unfold _reload_data, bind, deref.
  destruct (heap w !! self); [done|]. by intros [= _ <-].
Qed.

Section failures.
Context {externals : Externals}.

Lemma gentle_as_segment o : gentle (as_segment o).
Proof.
  destruct o as [j | l | l]; [apply gentle_ret|apply gentle_raise|].
  apply gentle_bind; [|intros; apply gentle_ret].
  apply gentle_bind; [apply gentle_deref|]. intros i. apply gentle_ret.
Qed.

Lemma gentle_send self method path payload headers :
  gentle (Request.send self method path payload headers).
Proof.
  intros w. rewrite send_spec.
  destruct (request_url self path) as [url|e]; [|done]. cbn zeta.
  destruct (requests _ _) as [response|e]; [|done].
  by destruct (eq_str _ _).
Qed.

Lemma gentle_main method path payload headers :
  gentle (_MainResource._request method path payload headers).
Proof.
  intros w. assert (∃ k, api_secret w = k) as [[key|] Hkey] by eauto.
  - rewrite (main_request_set key) by done. apply gentle_send.
  - by rewrite main_request_unset.
Qed.

Lemma gentle_vault method path payload headers :
  gentle (_VaultResource._request method path payload headers).
Proof.
  intros w. assert (∃ k, api_public w = k) as [[key|] Hkey] by eauto.
  - rewrite (vault_request_set key) by done. apply gentle_send.
  - by rewrite vault_request_unset.
Qed.

End failures.

Create HintDb gentle.
#[export] Hint Resolve gentle_ret gentle_raise gentle_deref gentle_getitem
  gentle_attribute gentle_changed_with gentle__as_object gentle___getattr__
  gentle_as_segment gentle_main gentle_vault : gentle.

(** Peel an operation down to its load. *)
Ltac care :=
  repeat first
    [ apply careful__reload_data
    | apply careful_if
    | apply careful_then_ret
    | apply careful_gentle; solve [auto with gentle]
    | apply careful_bind; [solve [auto with gentle] | intros ?] ].

Section failures_of_operations.
Context {externals : Externals}.

Lemma run_careful op : careful (run op).
Proof.
  destruct op; unfold run, as_ref;
    unfold Account.retrieve, Account.reload, Balance.retrieve, Balance.reload,
      Token.create, Token.retrieve, Token.reload,
      Card.reload, Card.update, Card.destroy,
      Charge.create, Charge.retrieve, Charge.update,
      Charge.capture, Charge.refund,
      Customer.create, Customer.retrieve, Customer.reload, Customer.update,
      Customer.destroy, Refund.reload,
      Transfer.create, Transfer.retrieve, Transfer.reload, Transfer.update,
      Transfer.destroy, Transaction.retrieve, Transaction.reload;
    unfold Charge.reload; care.
Qed.

(** X13.  An operation that raises, for whatever reason (no key, no
    URL, an error of the transport, an error body, a missing field, an
    answer the factory rejects), leaves every record as it was: the
    fields and the dirty set of each instance that existed are
    untouched, so that the changes not yet sent are still there to be
    sent again. *)
Theorem failed_operation_keeps_records op w e w' :
  run op w = (Raise e, w') →
  ∀ self i,
    heap w !! self = Some i →
    heap w' !! self = Some i
    ∧ changes self w' = (Return (pending i), w').
Proof.
  intros Hrun self i Hi.
  pose proof (run_careful op w e w' Hrun) as Hsub.
  assert (heap w' !! self = Some i) as Hi'
    by (by eapply lookup_weaken).
  split; [done|]. by apply changes_spec.
Qed.

End failures_of_operations.

Section failures_examples.
#[local] Existing Instance double.

Lemma failed_operation_keeps_records_witness :
  let w' :=
    sent one_paid_charge
      (HttpCall POST "https://api.omise.co/charges/chrg_1/capture" ∅
         (Request._build_headers None) ("skey_test", None) ca_certificates) in
  run (Charge_capture 0) one_paid_charge
  = (Raise (ApiError (JStr "invalid_card") (JStr "card number invalid")), w')
  ∧ changes 0 w' = (Return {[ "description" := JStr "draft" ]}, w').
Proof.
  intros w'.
  assert (run (Charge_capture 0) one_paid_charge
          = (Raise (ApiError (JStr "invalid_card")
                             (JStr "card number invalid")), w')) as Hrun
    by reflexivity.
  split; [exact Hrun|].
  destruct (failed_operation_keeps_records (externals := double)
              (Charge_capture 0) one_paid_charge _ w' Hrun 0
              (Instance Charge (<["description" := JStr "draft"]> charge_1)
                 {[ "description" ]} ∅) eq_refl)
    as [_ Hchanges].
  rewrite Hchanges. f_equal.
Defined.

End failures_examples.

(** ** The state of a record *)

Lemma dirty_fields_dom_write key value rest :
  existsb is_reload rest = false →
  dom (dirty_fields (Write key value :: rest))
  = dom (dirty_fields rest) ∪ ({[key]} : gset string).
Proof.
  intros Hrest.
  pose proof (dirty_fields_write_last key value rest ∅ Hrest) as Heq.
  rewrite (right_id_L ∅ (∪)) in Heq. rewrite Heq.
  by rewrite dom_union_L, dom_insert_L, dom_empty_L, (right_id_L ∅ (∪)).
Qed.

Lemma last_loaded_reload data data' actions :
  existsb is_reload actions = true →
  last_loaded data actions = last_loaded data' actions.
Proof.
  revert data data'. induction actions as [|[key value|d] rest IH];
    intros data data' Hreload; [done|by apply IH|done].
Qed.

Lemma last_loaded_none data actions :
  existsb is_reload actions = false → last_loaded data actions = data.
Proof.
  induction actions as [|[key value|d] rest IH]; [done|by apply IH|done].
Qed.

(** Playing public writes and loads on a record: its fields end as the
    last load overridden by the writes made since, its dirty names are
    the names written since, and no other instance is touched. *)
Lemma play_state self actions :
  writes_public actions →
  ∀ i w, heap w !! self = Some i →
  play self actions w =
    (Return tt,
     with_heap w
       (<[self := Instance (class_ i)
                    (dirty_fields actions ∪ last_loaded (_attributes i) actions)
                    (dom (dirty_fields actions)
                     ∪ (if existsb is_reload actions then ∅ else _changes i))
                    (__dict__ i)]> (heap w))).
Proof.
  induction 1 as [|a rest Ha _ IH]; intros i w Hi.
  - simpl. unfold ret, dirty_fields. simpl.
    rewrite dom_empty_L, !(left_id_L ∅ (∪)).
    rewrite insert_id; [by rewrite with_heap_same|]. by destruct i.
  - destruct a as [key value|data]; simpl.
    + rewrite (bind_return _ _ _ _ _ (__setattr___public self i key value w Hi Ha)).
      rewrite (IH _ _ (lookup_insert_eq _ _ _)).
      unfold with_heap. simpl. rewrite insert_insert_eq. do 3 f_equal.
      simpl. destruct (existsb is_reload rest) eqn:Hrest.
      * rewrite (dirty_fields_skip (Write key value) rest) by auto.
        by rewrite (last_loaded_reload _ (_attributes i)).
      * rewrite dirty_fields_dom_write by done.
        rewrite !last_loaded_none by done.
        rewrite (dirty_fields_write_last key value rest) by done.
        f_equal. set_solver.
    + unfold bind at 1. unfold bind at 1.
      rewrite (_reload_data_spec self i data w Hi). unfold ret at 1.
      rewrite (IH _ _ (lookup_insert_eq _ _ _)).
      unfold with_heap. simpl. rewrite insert_insert_eq. do 3 f_equal.
      rewrite (dirty_fields_skip (Reload data) rest) by auto.
      destruct (existsb is_reload rest) eqn:Hrest; [done|].
      by rewrite (right_id_L ∅ (∪)).
Qed.

(** X14.  A record made by [from_data] and then written to and loaded
    any number of times holds, as its fields, the data of the last load
    (the data it was made from when there is none) overridden by the
    writes made since; writes made before a load are lost.  Its dirty
    names are exactly the names written since, so every dirty name is a
    field of the record, and [changes] is a part of its fields.  No other
    instance is touched. *)
Theorem record_state c data actions w :
  writes_public actions →
  let record := fresh (dom (heap w)) in
  let fields := dirty_fields actions ∪ last_loaded data actions in
  (r <- from_data c data ;; play r actions ;;; ret r) w =
    (Return record,
     with_heap w
       (<[record := Instance c fields (dom (dirty_fields actions)) ∅]>
          (heap w)))
  ∧ dirty_fields actions ⊆ fields
  ∧ tracked (Instance c fields (dom (dirty_fields actions)) ∅).
Proof.
  intros Hpublic record fields. split; [|split].
  - rewrite (bind_return _ _ _ _ _ (from_data_spec c data w)).
    erewrite bind_return.
    2:{ apply (play_state _ _ Hpublic (Instance c data ∅ ∅)).
        simpl. apply lookup_insert_eq. }
    unfold ret, with_heap. simpl. rewrite insert_insert_eq. do 3 f_equal.
    unfold fields.
    by destruct (existsb is_reload actions); rewrite (right_id_L ∅ (∪)).
  - apply map_union_subseteq_l.
  - unfold tracked, fields. simpl. rewrite dom_union_L. set_solver.
Qed.

Lemma record_state_witness :
  (r <- from_data Charge charge_1 ;;
   play r [Write "description" (JStr "first"); Reload charge_2;
           Write "amount" (JInt 1)] ;;;
   ret r) one_charge
  = (Return 1,
     with_heap one_charge
       (<[1 := Instance Charge (<["amount" := JInt 1]> charge_2)
                 {[ "amount" ]} ∅]> (heap one_charge))).
Proof.
  destruct (record_state Charge charge_1
              [Write "description" (JStr "first"); Reload charge_2;
               Write "amount" (JInt 1)] one_charge) as (Hrun & _ & _).
  - repeat constructor; simpl; discriminate.
  - rewrite Hrun. reflexivity.
Defined.

(** ** Writing and reading a field *)

(** X15.  Reading back a field just written: a value that is not a
    mapping comes back as it was written; a mapping comes back as a new
    record of the class registered for its discriminator (or of [Base]),
    loaded with the mapping, while the record keeps the mapping itself
    and counts the field as dirty. *)
Theorem write_then_read self i key value w :
  heap w !! self = Some i →
  public key →
  let written :=
    Instance (class_ i) (<[key := value]> (_attributes i))
             ({[key]} ∪ _changes i) (__dict__ i) in
  let w1 := with_heap w (<[self := written]> (heap w)) in
  (¬ is_dict value →
     (__setattr__ self key value ;;; __getattr__ self key) w
     = (Return (Plain value), w1))
  ∧ (∀ d type,
       value = JDict d → d !! "object" = Some type → hashable type →
       (__setattr__ self key value ;;; __getattr__ self key) w
       = (Return (Ref (fresh (dom (heap w1)))),
          with_heap w1
            (<[fresh (dom (heap w1)) :=
                 Instance (default Base (registered type)) d ∅ ∅]>
               (heap w1)))
       ∧ fresh (dom (heap w1)) ≠ self).
Proof.
  intros Hi Hpublic written w1.
  pose proof (__setattr___public self i key value w Hi Hpublic) as Hset.
  fold written in Hset. fold w1 in Hset.
  assert (heap w1 !! self = Some written) as Hi1.
  { unfold w1. simpl. apply lookup_insert_eq. }
  assert (_attributes written !! key = Some value) as Hvalue.
  { unfold written. simpl. apply lookup_insert_eq. }
  split.
  - intros Hplain. rewrite (bind_return _ _ _ _ _ Hset).
    rewrite (__getattr___public _ _ _ _ Hi1 Hpublic).
    unfold except_KeyError_raise_AttributeError, getitem. rewrite Hvalue.
    unfold bind at 1, ret at 1.
    destruct value; try done. destruct Hplain. by eexists.
  - intros d type -> Htype Hhashable. split.
    + rewrite (bind_return _ _ _ _ _ Hset).
      by apply (__getattr___materializes self written key d type).
    + intros Heq. apply (is_fresh (dom (heap w1))). rewrite Heq.
      apply elem_of_dom. eauto.
Qed.

Lemma write_then_read_witness :
  (__setattr__ 0 "description" (JStr "vip") ;;; __getattr__ 0 "description")
    one_customer
  = (Return (Plain (JStr "vip")),
     with_heap one_customer
       {[ 0 := Instance Customer
                 (<["description" := JStr "vip"]> customer_1)
                 {[ "description" ]} ∅ ]}).
Proof.
  destruct (write_then_read 0 (Instance Customer customer_1 ∅ ∅)
              "description" (JStr "vip") one_customer eq_refl)
    as [Hplain _]; [discriminate|].
  rewrite Hplain; [|intros [? [=]]]. reflexivity.
Defined.

(** X16.  What does not make a record dirty.  Reading a field never
    changes an instance that exists and never sends anything, even when
    the read materializes a nested record.  Writing an attribute whose
    name starts with an underscore stores it on the instance itself,
    and the fields, the dirty names and [changes] stay as they were;
    this holds for every such name other than the two bookkeeping
    attributes and the three names [object] guards ([__dict__],
    [__class__], [__weakref__]).  Writing a decoded value to
    [__class__] or [__weakref__] raises and changes nothing. *)
Theorem reads_and_private_writes self i key value w :
  heap w !! self = Some i →
  (∀ reader name,
     heap w ⊆ heap (__getattr__ reader name w).2
     ∧ wire (__getattr__ reader name w).2 = wire w
     ∧ changes self (__getattr__ reader name w).2
       = (Return (pending i), (__getattr__ reader name w).2))
  ∧ (∀ rest,
       key = String "_" rest →
       key ≠ "_attributes" → key ≠ "_changes" →
       key ≠ "__dict__" → key ≠ "__class__" → key ≠ "__weakref__" →
       let w1 :=
         with_heap w
           (<[self := Instance (class_ i) (_attributes i) (_changes i)
                               (<[key := value]> (__dict__ i))]> (heap w)) in
       __setattr__ self key value w = (Return tt, w1)
       ∧ changes self w1 = (Return (pending i), w1))
  ∧ (∃ e, __setattr__ self "__class__" value w = (Raise e, w))
  ∧ (∃ e, __setattr__ self "__weakref__" value w = (Raise e, w)).
Proof.
  intros Hi. split; [|split; [|split]].
  - intros reader name.
    pose proof (gentle___getattr__ reader name w) as Hheap.
    destruct (quiet___getattr__ reader name w) as (Hwire & _).
    split; [done|]. split; [done|].
    apply changes_spec. by eapply lookup_weaken.
  - intros rest -> Hattributes Hchanges Hdict Hclass Hweakref w1.
    assert (__setattr__ self (String "_" rest) value w = (Return tt, w1))
      as Hset.
    { unfold __setattr__.
      rewrite (bind_return _ _ _ _ _ (deref_some _ _ _ Hi)).
      rewrite bool_decide_true by done.
      rewrite !bool_decide_false by (done || by intros [? | ?]). done. }
    split; [done|].
    erewrite changes_spec by (unfold w1; simpl; apply lookup_insert_eq).
    done.
  - eexists. unfold __setattr__.
    by rewrite (bind_return _ _ _ _ _ (deref_some _ _ _ Hi)).
  - eexists. unfold __setattr__.
    by rewrite (bind_return _ _ _ _ _ (deref_some _ _ _ Hi)).
Qed.

Lemma reads_and_private_writes_witness :
  changes 0 (__getattr__ 0 "default_card" dirty_customer).2
  = (Return {[ "email" := JStr "draft@example.com";
               "description" := JStr "vip" ]},
     (__getattr__ 0 "default_card" dirty_customer).2)
  ∧ (__setattr__ 0 "_cache" (JInt 1) ;;; changes 0) one_customer
    = (Return ∅,
       with_heap one_customer
         {[ 0 := Instance Customer customer_1 ∅ {[ "_cache" := JInt 1 ]} ]}).
Proof.
  split.
  - destruct (reads_and_private_writes 0
                (Instance Customer
                   (<["email" := JStr "draft@example.com"]>
                      (<["description" := JStr "vip"]> customer_1))
                   {[ "email"; "description" ]} ∅)
                "_" JNone dirty_customer eq_refl) as (Hread & _).
    destruct (Hread 0 "default_card") as (_ & _ & Hchanges).
    rewrite Hchanges. f_equal.
  - destruct (reads_and_private_writes 0 (Instance Customer customer_1 ∅ ∅)
                "_cache" (JInt 1) one_customer eq_refl) as (_ & Hwrite & _).
    destruct (Hwrite "cache" eq_refl) as [Hset Hchanges];
      [discriminate..|].
    rewrite (bind_return _ _ _ _ _ Hset). rewrite Hchanges. reflexivity.
Defined.

(** ** More on collections *)

(** X17.  Indexing a collection follows the rules of a Python list: a
    negative index counts from the end, and an index outside the list
    raises [IndexError] without creating anything. *)
Theorem collection_index_bounds self i l w :
  heap w !! self = Some i →
  _attributes i !! "data" = Some (JList l) →
  (∀ k obj,
     l !! k = Some obj →
     Collection.__getitem__ self (Z.of_nat k - Z.of_nat (length l)) w
     = _as_object obj w
     ∧ Collection.__getitem__ self (Z.of_nat k - Z.of_nat (length l)) w
       = Collection.__getitem__ self (Z.of_nat k) w)
  ∧ (∀ item,
       (item < - Z.of_nat (length l) ∨ Z.of_nat (length l) ≤ item)%Z →
       ∃ msg, Collection.__getitem__ self item w = (Raise (IndexError msg), w)).
Proof.
  intros Hi Hdata.
  pose proof (attribute_holds self "data" i (JList l) w Hi Hdata) as Hattr.
  split.
  - intros k obj Hk. unfold Collection.__getitem__.
    rewrite !(bind_return _ _ _ _ _ Hattr). simpl.
    rewrite (bind_return _ _ _ _ _ (index_from_end _ _ _ _ Hk)).
    by rewrite (bind_return _ _ _ _ _ (index_in_range _ _ _ _ Hk)).
  - intros item Hitem. eexists. unfold Collection.__getitem__.
    rewrite (bind_return _ _ _ _ _ Hattr). simpl.
    by rewrite (bind_raise _ _ _ _ _ (index_out_of_range _ _ _ Hitem)).
Qed.

Lemma collection_index_bounds_witness :
  Collection.__getitem__ 0 (-1) one_collection
    = _as_object (JDict charge_2) one_collection
  ∧ (∃ msg, Collection.__getitem__ 0 2 one_collection
            = (Raise (IndexError msg), one_collection))
  ∧ (∃ msg, Collection.__getitem__ 0 (-3) one_collection
            = (Raise (IndexError msg), one_collection)).
Proof.
  destruct (collection_index_bounds 0 (Instance Collection charge_list ∅ ∅)
              [JDict charge_1; JDict charge_2] one_collection
              eq_refl eq_refl) as [Hend Hout].
  split; [|split].
  - apply (Hend 1 (JDict charge_2) eq_refl).
  - apply Hout. simpl. lia.
  - apply Hout. simpl. lia.
Defined.

(** X18.  A collection whose record has no [data] field: asking for its
    length, for an element, for an object by identifier or for all its
    objects raises [KeyError] and changes nothing.  Making the iterator
    raises nothing; the error comes with the first [next]. *)
Theorem collection_without_data self i w :
  heap w !! self = Some i →
  _attributes i !! "data" = None →
  let missing {A} : outcome A * world := (Raise (KeyError (JStr "data")), w) in
  Collection.__len__ self w = missing
  ∧ (∀ item, Collection.__getitem__ self item w = missing)
  ∧ (∀ object_id, Collection.retrieve self object_id w = missing)
  ∧ Collection.__next__ (Collection.__iter__ self) w = missing
  ∧ Collection.list_ (Collection.__iter__ self) w = missing.
Proof.
  intros Hi Hdata missing.
  pose proof (attribute_missing self "data" i w Hi Hdata) as Hattr.
  unfold Collection.__len__, Collection.__getitem__, Collection.retrieve,
    Collection.__next__, Collection.list_, Collection.__iter__.
  split; [by rewrite (bind_raise _ _ _ _ _ Hattr)|].
  split; [intros item; by rewrite (bind_raise _ _ _ _ _ Hattr)|].
  split; [|split; by rewrite (bind_raise _ _ _ _ _ Hattr)].
  intros [object_id|].
  - by rewrite (bind_raise _ _ _ _ _ Hattr).
  - erewrite bind_raise; [reflexivity|].
    by rewrite (bind_raise _ _ _ _ _ Hattr).
Qed.

Lemma collection_without_data_witness :
  Collection.__len__ 0 one_charge
    = (Raise (KeyError (JStr "data")), one_charge)
  ∧ Collection.retrieve 0 None one_charge
    = (Raise (KeyError (JStr "data")), one_charge).
Proof.
  destruct (collection_without_data 0 (Instance Charge charge_1 ∅ ∅)
              one_charge eq_refl eq_refl) as (Hlen & _ & Hretrieve & _).
  split; [exact Hlen|apply Hretrieve].
Defined.

(** X19.  Listing a collection: when [list] of it returns, it returns as
    many objects as the collection has elements, each of the shape of
    the materialization of the element at its position, all of them new
    and distinct instances; the collection itself and every other
    instance are as they were, and nothing was sent. *)
Theorem collection_list self i l w objs w' :
  heap w !! self = Some i →
  _attributes i !! "data" = Some (JList l) →
  Collection.list_ (Collection.__iter__ self) w = (Return objs, w') →
  Collection.__len__ self w' = (Return (length objs), w')
  ∧ view (heap w') (PyList objs) = Some (Sequence (materialized <$> l))
  ∧ NoDup (refs (PyList objs))
  ∧ (∀ o, o ∈ refs (PyList objs) → o ∉ dom (heap w))
  ∧ heap w ⊆ heap w'
  ∧ wire w' = wire w.
Proof.
  intros Hi Hdata Hlist.
  pose proof (attribute_holds self "data" i (JList l) w Hi Hdata) as Hattr.
  assert (traverse _as_object l w = (Return objs, w')) as Htraverse.
  { unfold Collection.list_, Collection.__iter__ in Hlist.
    rewrite (bind_return _ _ _ _ _ Hattr) in Hlist.
    by rewrite (bind_return _ _ _ _ _ (iter_list _ _)) in Hlist. }
  pose proof (_as_object_effect (JList l) w) as Heff.
  rewrite _as_object_list, (bind_return _ _ _ _ _ Htraverse) in Heff.
  destruct Heff as ((Hheap & Hwire & _) & Hview & Hnodup & Hnew).
  assert (heap w' !! self = Some i) as Hi' by (by eapply lookup_weaken).
  split.
  { unfold Collection.__len__.
    rewrite (bind_return _ _ _ _ _ (attribute_holds _ _ _ _ _ Hi' Hdata)).
    simpl. apply traverse_threaded, threaded_length in Htraverse.
    by rewrite Htraverse. }
  split; [exact Hview|]. split; [done|]. split; [|done].
  intros o Ho. by apply Hnew.
Qed.

Lemma collection_list_witness :
  ∃ objs w',
    Collection.list_ (Collection.__iter__ 0) one_collection = (Return objs, w')
    ∧ Collection.__len__ 0 w' = (Return (length objs), w')
    ∧ view (heap w') (PyList objs)
      = Some (Sequence [Record_ Charge charge_1 ∅; Record_ Charge charge_2 ∅]).
Proof.
  eexists _, _. split; [reflexivity|].
  destruct (collection_list 0 (Instance Collection charge_list ∅ ∅)
              [JDict charge_1; JDict charge_2] one_collection _ _
              eq_refl eq_refl eq_refl) as (Hlen & Hview & _).
  split; [exact Hlen|exact Hview].
Defined.

(** ** More on the object factory *)

Lemma mappings_list l : mappings (JList l) = sum_list (mappings <$> l).
Proof. simpl. induction l as [|x l IH]; [done|]. simpl. by rewrite IH. Qed.

(** The instances the factory creates are the ones its result refers
    to, one for each mapping reached through lists. *)
Lemma _as_object_allocates v w o w' :
  _as_object v w = (Return o, w') →
  dom (heap w') = dom (heap w) ∪ list_to_set (refs o)
  ∧ length (refs o) = mappings v.
Proof.
  revert w o w'. induction v as [l IH | v Hv] using json_list_ind;
    intros w o w'.
  - rewrite _as_object_list, mappings_list.
    assert (∀ w os w',
              traverse _as_object l w = (Return os, w') →
              dom (heap w') = dom (heap w) ∪ list_to_set (refs (PyList os))
              ∧ length (refs (PyList os)) = sum_list (mappings <$> l)) as Hl.
    { clear w o w'. induction IH as [|x l Hx _ IHl]; intros w os w'.
      - intros [= <- <-]. split; [set_solver|done].
      - intros Hgo. simpl in Hgo. unfold bind in Hgo.
        destruct (_as_object x w) as [[o|e] w1] eqn:Hrun; [|done].
        destruct (traverse _as_object l w1) as [[os'|e] w2] eqn:Hrest;
          [|done].
        injection Hgo as <- <-.
        destruct (Hx _ _ _ Hrun) as [Hdom1 Hlen1].
        destruct (IHl _ _ _ Hrest) as [Hdom2 Hlen2].
        rewrite refs_list in Hdom2, Hlen2. rewrite refs_list.
        rewrite !fmap_cons. cbn [concat sum_list sum_list_with].
        split.
        + rewrite Hdom2, Hdom1, list_to_set_app_L. set_solver.
        + rewrite length_app. by rewrite Hlen1, Hlen2. }
    unfold bind. destruct (traverse _as_object l w) as [[os|e] w1] eqn:Hrun;
      [|done].
    intros [= <- <-]. by apply Hl.
  - destruct v as [| b | n | s | l | d];
      try (intros [= <- <-]; split; [set_solver|done]).
    { destruct Hv. by eexists. }
    destruct (d !! "object") as [type|] eqn:Hd.
    2:{ by rewrite (_as_object_no_discriminator _ _ Hd). }
    destruct type as [| b | n | s | l | d'];
      try (rewrite (_as_object_dict _ _ _ Hd I); intros [= <- <-]; simpl;
           split; [rewrite dom_insert_L; set_solver|done]).
    + simpl. unfold getitem. by rewrite Hd.
    + simpl. unfold getitem. by rewrite Hd.
Qed.

(** X20.  The factory creates one instance for every mapping it reaches
    through lists, and no other: the mappings held in the fields of a
    mapping stay as decoded data.  The instances created are exactly the
    ones the result refers to. *)
Theorem factory_allocation v w o w' :
  _as_object v w = (Return o, w') →
  dom (heap w') = dom (heap w) ∪ list_to_set (refs o)
  ∧ length (refs o) = mappings v
  ∧ size (heap w') = size (heap w) + mappings v.
Proof.
  intros Hrun. destruct (_as_object_allocates _ _ _ _ Hrun) as [Hdom Hlen].
  split; [done|]. split; [done|].
  pose proof (_as_object_effect v w) as Heff. rewrite Hrun in Heff.
  destruct Heff as (_ & _ & Hnodup & Hnew).
  rewrite <-!size_dom, Hdom, size_union.
  - by rewrite size_list_to_set, Hlen.
  - intros l Hold Hl. apply elem_of_list_to_set in Hl.
    by apply Hnew in Hl as [? _].
Qed.

Lemma factory_allocation_witness :
  ∃ o w',
    _as_object (JList [JDict customer_1; JInt 7; JList [JDict card_1]])
      one_customer = (Return o, w')
    ∧ size (heap w') = 3.
Proof.
  eexists _, _. split; [reflexivity|].
  destruct (factory_allocation
              (JList [JDict customer_1; JInt 7; JList [JDict card_1]])
              one_customer _ _ eq_refl) as (_ & _ & Hsize).
  rewrite Hsize. reflexivity.
Defined.

Lemma registry_discriminator s c :
  registry !! s = Some c ↔ c ≠ Base ∧ s = discriminator c.
Proof.
  split.
  - intros Hs. apply elem_of_list_to_map_2 in Hs.
    repeat (apply elem_of_cons in Hs as [[= -> ->]|Hs]; [by split|]).
    by apply elem_of_nil in Hs.
  - intros [Hc ->]. by destruct c.
Qed.

(** X21.  Every class of the module other than [Base] comes out of the
    factory for exactly one discriminator: its name in lower case, and
    [list] for [Collection]. *)
Theorem factory_classes :
  (∀ c d w,
     c ≠ Base →
     d !! "object" = Some (JStr (discriminator c)) →
     _as_object (JDict d) w =
       (Return (Ref (fresh (dom (heap w)))),
        with_heap w (<[fresh (dom (heap w)) := Instance c d ∅ ∅]> (heap w))))
  ∧ (∀ d w l w' i,
       _as_object (JDict d) w = (Return (Ref l), w') →
       heap w' !! l = Some i →
       class_ i ≠ Base →
       d !! "object" = Some (JStr (discriminator (class_ i)))).
Proof.
  split.
  - intros c d w Hc Hd. rewrite (_as_object_dict _ _ _ Hd I). simpl.
    by rewrite (proj2 (registry_discriminator _ c)).
  - intros d w l w' i Hrun Hl Hclass.
    destruct (d !! "object") as [type|] eqn:Hd.
    2:{ by rewrite (_as_object_no_discriminator _ _ Hd) in Hrun. }
    assert (hashable type) as Hh.
    { destruct type; try done; simpl in Hrun; unfold getitem in Hrun;
        by rewrite Hd in Hrun. }
    rewrite (_as_object_dict _ _ _ Hd Hh) in Hrun.
    injection Hrun as <- <-. simpl in Hl. rewrite lookup_insert_eq in Hl.
    injection Hl as <-. simpl in Hclass |- *.
    destruct type as [| b | n | s | l | d']; try done. simpl in *.
    destruct (registry !! s) as [c|] eqn:Hs; [|done]. simpl.
    by apply registry_discriminator in Hs as [_ ->].
Qed.

Lemma factory_classes_witness :
  _as_object (JDict charge_list) one_charge
  = (Return (Ref 1),
     with_heap one_charge
       (<[1 := Instance Collection charge_list ∅ ∅]> (heap one_charge))).
Proof.
  destruct factory_classes as [Hmade _].
  apply (Hmade Collection charge_list one_charge); [discriminate|reflexivity].
Defined.

(** ** The fields of a token *)

Global Instance card_field_inj : Inj (=) (=) card_field.
Proof.
  intros key key'. unfold card_field. intros Heq%(inj _).
  revert key' Heq. induction key as [|a key IH]; intros [|a' key'] Heq.
  - done.
  - destruct key'; discriminate.
  - destruct key; discriminate.
  - injection Heq as -> Heq. by rewrite (IH key').
Qed.

Lemma transformed_args_kmap kwargs :
  Token.transformed_args kwargs = kmap card_field kwargs.
Proof.
  unfold Token.transformed_args.
  apply (map_fold_weak_ind (λ r m, r = kmap card_field m)).
  - by rewrite kmap_empty.
  - intros key value m r Hfree ->. rewrite (kmap_insert card_field). reflexivity.
Qed.

(** X22.  The payload [Token.create] sends holds each field it is given
    under the name [card[<name>]], with its value, and nothing else: no
    two fields collide, and none is lost. *)
Theorem token_fields_wrapped kwargs :
  (∀ key, Token.transformed_args kwargs !! ("card[" +:+ key +:+ "]")
          = kwargs !! key)
  ∧ (∀ name value,
       Token.transformed_args kwargs !! name = Some value →
       ∃ key, name = "card[" +:+ key +:+ "]" ∧ kwargs !! key = Some value)
  ∧ size (Token.transformed_args kwargs) = size kwargs.
Proof.
  rewrite transformed_args_kmap. split; [|split].
  - intros key. apply (lookup_kmap card_field).
  - intros name value Hname.
    by apply (lookup_kmap_Some card_field) in Hname.
  - rewrite <-!length_map_to_list, (map_to_list_kmap card_field).
    by rewrite length_fmap.
Qed.
